(** * BLE access point of the tiedie gateway

    A shallow embedding of [gateway/ble_types.py], [gateway/access_point.py],
    [gateway/access_point_responses.py], [gateway/mock/mock_access_point.py],
    [gateway/bluez_access_point.py] (write path) and
    [gateway/silabs/...] (access point and operations), with the properties
    of the access-point contract stated and proved over it. *)

From Stdlib Require Import ZArith String Ascii List Bool Lia DecimalString.
From stdpp Require Import base decidable option list gmap strings.

Local Open Scope string_scope.
Local Open Scope Z_scope.
Local Open Scope list_scope.

(** ** Python values shared by the backends *)

(** [bytes] objects. *)
Definition bytes := list Byte.byte.

(** Exceptions that can leave an access-point call: the seven error kinds of
    [access_point_responses.py] and the built-in ones the code can raise. *)
Inductive exn : Type :=
  | BleConnectionError (msg : string)
  | BleDiscoveryError (msg : string)
  | BleReadError (msg : string)
  | BleWriteError (msg : string)
  | BleSubscribeError (msg : string)
  | BleUnsubscribeError (msg : string)
  | BleDisconnectError (msg : string)
  | KeyError (key : string)
  | AttributeError (attr : string)
  | TypeError (msg : string)
  | ValueError (msg : string)
  | RuntimeError (msg : string).

(** The operation families of the contract, and the error kind of each. *)
Inductive op_family : Type :=
  | FConnect | FDiscover | FRead | FWrite | FSubscribe | FUnsubscribe | FDisconnect.

Definition error_kind (e : exn) : option op_family :=
  match e with
  | BleConnectionError _ => Some FConnect
  | BleDiscoveryError _ => Some FDiscover
  | BleReadError _ => Some FRead
  | BleWriteError _ => Some FWrite
  | BleSubscribeError _ => Some FSubscribe
  | BleUnsubscribeError _ => Some FUnsubscribe
  | BleDisconnectError _ => Some FDisconnect
  | _ => None
  end.

Definition exn_message (e : exn) : string :=
  match e with
  | BleConnectionError m | BleDiscoveryError m | BleReadError m | BleWriteError m
  | BleSubscribeError m | BleUnsubscribeError m | BleDisconnectError m
  | KeyError m | AttributeError m | TypeError m | ValueError m | RuntimeError m => m
  end.

(** What a blocking call does: it returns, it raises, or its caller stays
    blocked in [wait()] because the awaited event never arrives. *)
Inductive Result (A : Type) : Type :=
  | Returned (a : A)
  | Raised (e : exn)
  | Blocked.
Arguments Returned {A} a.
Arguments Raised {A} e.
Arguments Blocked {A}.

(** ** Python dictionaries

    A [dict] with string keys keeps insertion order; assigning to a present
    key replaces the value in place, assigning to a new key appends. *)
Section Dict.
Context {V : Type}.

Definition dict := list (string * V).

Fixpoint dict_get (d : dict) (k : string) : option V :=
  match d with
  | [] => None
  | (k', v) :: d' => if String.eqb k' k then Some v else dict_get d' k
  end.

Definition dict_mem (d : dict) (k : string) : bool :=
  match dict_get d k with Some _ => true | None => false end.

Fixpoint dict_set (d : dict) (k : string) (v : V) : dict :=
  match d with
  | [] => [(k, v)]
  | (k', v') :: d' =>
      if String.eqb k' k then (k', v) :: d' else (k', v') :: dict_set d' k v
  end.

Fixpoint dict_pop (d : dict) (k : string) : dict :=
  match d with
  | [] => []
  | (k', v') :: d' => if String.eqb k' k then d' else (k', v') :: dict_pop d' k
  end.

Definition dict_keys (d : dict) : list string := map fst d.
Definition dict_values (d : dict) : list V := map snd d.
End Dict.
Arguments dict V : clear implicits.

(** ** [ble_types.py] *)

Record Descriptor : Type := mkDescriptor {
  descriptor_id : string;
  desc_handle : Z
}.

Record Characteristic : Type := mkCharacteristic {
  characteristic_id : string;
  char_handle : Z;
  properties : list string;
  descriptors : dict Descriptor
}.

(** The bit tests of [Characteristic.__init__], in source order; each test
    appends its flag to the list built so far. *)
Definition decode_properties (props : Z) : list string :=
  let p := [] in
  let p := if (Z.land props 0x02 =? 0x02)%Z then p ++ ["read"] else p in
  let p := if (Z.land props 0x04 =? 0x04)%Z then p ++ ["write_no_response"] else p in
  let p := if (Z.land props 0x08 =? 0x08)%Z then p ++ ["write"] else p in
  let p := if (Z.land props 0x10 =? 0x10)%Z then p ++ ["notify"] else p in
  let p := if (Z.land props 0x20 =? 0x20)%Z then p ++ ["indicate"] else p in
  let p := if (Z.land props 0x80 =? 0x80)%Z then p ++ ["extended_props"] else p in
  let p := if (Z.land props 0x101 =? 0x101)%Z then p ++ ["reliable_write"] else p in
  p.

Definition Characteristic_init (characteristic_id : string) (char_handle : Z)
    (props : Z) : Characteristic :=
  {| characteristic_id := characteristic_id;
     char_handle := char_handle;
     properties := decode_properties props;
     descriptors := [] |}.

Record Service : Type := mkService {
  service_id : string;
  service_handle : Z;
  characteristics : dict Characteristic
}.

(** The capability flags in the order the decoder tests them. *)
Definition capability_order : list string :=
  ["read"; "write_no_response"; "write"; "notify"; "indicate";
   "extended_props"; "reliable_write"].

(** ** [access_point.py] and [access_point_responses.py] *)

(** An element of [BleConnectOptions.services]: the control plane passes
    either dictionaries such as [{"serviceID": ...}] or plain identifiers. *)
Inductive pyval : Type :=
  | PyStr (s : string)
  | PyDict (d : dict string).

(** [x in l] for a string [x] and a list of Python values: a string equals
    a string with the same characters and never equals a dictionary. *)
Definition pyval_eq_str (v : pyval) (s : string) : bool :=
  match v with
  | PyStr s' => String.eqb s s'
  | PyDict _ => false
  end.

Definition str_in (s : string) (l : list pyval) : bool :=
  existsb (fun v => pyval_eq_str v s) l.

(** A [dict[str, Service]] object, by identity. A connection request is
    created with a new empty dictionary, [{}], which nothing updates. The
    radio-chip [discover] puts the [services] attribute of its discover
    operation in its place and in the response: the object itself, not a
    copy, so what the handlers of that operation add later is seen through
    the registry. [ServicesOf id] is that attribute of the operation
    object [id]. *)
Inductive services_obj : Type :=
  | EmptyDict
  | ServicesOf (id : nat).

Module ConnectionRequest.
Record t : Type := mk {
  address : string;
  handle : Z;
  services : services_obj
}.
End ConnectionRequest.

Module BleConnectOptions.
Record t : Type := mk {
  services : list pyval;
  cached : bool;
  cache_idle_purge : Z
}.
Definition default : t :=
  {| services := []; cached := false; cache_idle_purge := 3600 |}.
End BleConnectOptions.

(** [DiscoverResponse.services] is annotated as a list, but the radio-chip
    access point stores the operation's dictionary in it. *)
Inductive service_collection : Type :=
  | SvcList (l : list Service)
  | SvcDict (d : services_obj).

(** The services of a response, [content] giving what a dictionary object
    holds when they are read. *)
Definition collection_services (content : services_obj -> dict Service)
    (c : service_collection) : list Service :=
  match c with
  | SvcList l => l
  | SvcDict d => dict_values (content d)
  end.

Module DiscoverResponse.
Record t : Type := mk {
  address : string;
  services : service_collection
}.
End DiscoverResponse.

Module ReadResponse.
Record t : Type := mk {
  address : string;
  service_uuid : string;
  char_uuid : string;
  value : option bytes
}.
End ReadResponse.

Module WriteResponse.
Record t : Type := mk {
  address : string;
  service_uuid : string;
  char_uuid : string;
  value : option bytes;
  success : bool
}.

(** The dataclass constructor called with keyword arguments: all five
    fields are required, a call that leaves one out raises [TypeError]. *)
Definition init (address service_uuid char_uuid : string)
    (value : option (option bytes)) (success : option bool) : exn + t :=
  match value, success with
  | Some v, Some s => inr (mk address service_uuid char_uuid v s)
  | None, Some _ =>
      inl (TypeError
             "WriteResponse.__init__() missing 1 required positional argument: 'value'")
  | Some _, None =>
      inl (TypeError
             "WriteResponse.__init__() missing 1 required positional argument: 'success'")
  | None, None =>
      inl (TypeError
             "WriteResponse.__init__() missing 2 required positional arguments: 'value' and 'success'")
  end.
End WriteResponse.

Module SubscribeResponse.
Record t : Type := mk {
  address : string;
  service_uuid : string;
  char_uuid : string;
  subscribed : bool
}.
End SubscribeResponse.

Module UnsubscribeResponse.
Record t : Type := mk {
  address : string;
  service_uuid : string;
  char_uuid : string;
  unsubscribed : bool
}.
End UnsubscribeResponse.

(** [AccessPoint.get_connection]: [self.conn_reqs.get(address, None)]. *)
Definition get_connection (conn_reqs : dict ConnectionRequest.t)
    (address : string) : option ConnectionRequest.t :=
  dict_get conn_reqs address.

(** Calls made on the data producer, in the order they are made. The first
    argument of a connection status is the [reason] attribute of the event
    object handed over, when it has one. *)
Inductive Publication : Type :=
  | publish_connection_status (reason : option Z) (address : string)
      (connected : bool)
  | publish_notification (address service_uuid char_uuid : string)
      (value : bytes)
  | publish_advertisement (address : string) (rssi : Z) (data : bytes).

Definition is_disconnected_status (address : string) (p : Publication) : bool :=
  match p with
  | publish_connection_status _ a false => String.eqb a address
  | _ => false
  end.

(** ** Callers

    A request is one call of the access-point contract; a backend performs
    it on its state. *)
Inductive Request : Type :=
  | ReqConnect (address : string) (options : BleConnectOptions.t) (retries : Z)
  | ReqDiscover (address : string) (options : BleConnectOptions.t) (retries : Z)
  | ReqRead (address service_uuid char_uuid : string)
  | ReqWrite (address service_uuid char_uuid : string) (value : bytes)
  | ReqSubscribe (address service_uuid char_uuid : string)
  | ReqUnsubscribe (address service_uuid char_uuid : string)
  | ReqDisconnect (address : string).

Definition is_disconnect_of (address : string) (req : Request) : bool :=
  match req with
  | ReqDisconnect a => String.eqb a address
  | _ => false
  end.

Definition is_unsubscribe_of (address service_uuid char_uuid : string)
    (req : Request) : bool :=
  match req with
  | ReqUnsubscribe a s c =>
      (String.eqb a address && String.eqb s service_uuid
       && String.eqb c char_uuid)%bool
  | _ => false
  end.

(** ** [mock/mock_access_point.py]

    The scan and notification threads only publish generated data; a
    subscription thread is represented by its key in
    [_subscription_threads]. *)
Module Mock.

Definition key : Type := (string * string * string)%type.

Record MockAccessPoint : Type := mk {
  conn_reqs : dict ConnectionRequest.t;
  _subscription_threads : gset key;
  published : list Publication
}.

Definition connectable (self : MockAccessPoint) : bool := true.

Definition connect (self : MockAccessPoint) (address : string)
    (_ble_connect_options : BleConnectOptions.t) (_retries : Z)
    : Result unit * MockAccessPoint :=
  if negb (connectable self) then
    (Raised (BleConnectionError "max connections"), self)
  else if dict_mem (conn_reqs self) address then
    (Raised (BleConnectionError "already connected"), self)
  else
    (Returned tt,
     {| conn_reqs :=
          dict_set (conn_reqs self) address
            (ConnectionRequest.mk address 0 EmptyDict);
        _subscription_threads := _subscription_threads self;
        published :=
          published self ++ [publish_connection_status (Some 0) address true] |}).

Definition discover (self : MockAccessPoint) (address : string)
    (_ble_connect_options : BleConnectOptions.t) (_retries : Z)
    : Result DiscoverResponse.t * MockAccessPoint :=
  if negb (dict_mem (conn_reqs self) address) then
    (Raised (BleDiscoveryError "not connected"), self)
  else
    let char1 := Characteristic_init "2a37" 1 0x10 in
    let char1 :=
      {| characteristic_id := characteristic_id char1;
         char_handle := char_handle char1;
         properties := properties char1;
         descriptors :=
           dict_set (descriptors char1) "2902" (mkDescriptor "2902" 1) |} in
    let char2 := Characteristic_init "2a38" 2 0x02 in
    let char3 := Characteristic_init "2a39" 3 0x08 in
    let service :=
      {| service_id := "180d";
         service_handle := 1;
         characteristics :=
           [("2a37", char1); ("2a38", char2); ("2a39", char3)] |} in
    let services := [service] in
    (Returned (DiscoverResponse.mk address (SvcList services)), self).

(** [b"test"] *)
Definition test_value : bytes := [Byte.x74; Byte.x65; Byte.x73; Byte.x74].

Definition read (self : MockAccessPoint) (address service_uuid char_uuid : string)
    : Result ReadResponse.t * MockAccessPoint :=
  if negb (dict_mem (conn_reqs self) address) then
    (Raised (BleReadError "not connected"), self)
  else if negb (String.eqb service_uuid "180d") || negb (String.eqb char_uuid "2a38") then
    (Raised (BleReadError "Invalid service or characteristic uuid"), self)
  else
    let value := test_value in
    (Returned (ReadResponse.mk address service_uuid char_uuid (Some value)), self).

Definition write (self : MockAccessPoint) (address service_uuid char_uuid : string)
    (value : bytes) : Result WriteResponse.t * MockAccessPoint :=
  if negb (dict_mem (conn_reqs self) address) then
    (Raised (BleWriteError "not connected"), self)
  else
    (Returned (WriteResponse.mk address service_uuid char_uuid (Some value) true),
     self).

Definition subscribe (self : MockAccessPoint) (address service_uuid char_uuid : string)
    : Result SubscribeResponse.t * MockAccessPoint :=
  if negb (dict_mem (conn_reqs self) address) then
    (Raised (BleSubscribeError "not connected"), self)
  else
    let key := (address, service_uuid, char_uuid) in
    if bool_decide (key ∈ _subscription_threads self) then
      (Raised (BleSubscribeError "already subscribed"), self)
    else
      (Returned (SubscribeResponse.mk address service_uuid char_uuid true),
       {| conn_reqs := conn_reqs self;
          _subscription_threads := {[ key ]} ∪ _subscription_threads self;
          published := published self |}).

Definition unsubscribe (self : MockAccessPoint) (address service_uuid char_uuid : string)
    : Result UnsubscribeResponse.t * MockAccessPoint :=
  let key := (address, service_uuid, char_uuid) in
  if negb (bool_decide (key ∈ _subscription_threads self)) then
    (Raised (BleSubscribeError "not subscribed"), self)
  else
    (Returned (UnsubscribeResponse.mk address service_uuid char_uuid true),
     {| conn_reqs := conn_reqs self;
        _subscription_threads := _subscription_threads self ∖ {[ key ]};
        published := published self |}).

Definition disconnect (self : MockAccessPoint) (address : string)
    : Result unit * MockAccessPoint :=
  if negb (dict_mem (conn_reqs self) address) then
    (Raised (BleDisconnectError "not connected"), self)
  else
    (Returned tt,
     {| conn_reqs := dict_pop (conn_reqs self) address;
        _subscription_threads := _subscription_threads self;
        published :=
          published self ++ [publish_connection_status (Some 1) address false] |}).

(** [MockAccessPoint.__init__]. [conn_reqs] is a class attribute of
    [AccessPoint] that no [__init__] assigns: a new access point starts
    with the registry that the access points of the process share, empty
    only for the first of them. *)
Definition init (conn_reqs : dict ConnectionRequest.t) : MockAccessPoint :=
  {| conn_reqs := conn_reqs; _subscription_threads := ∅; published := [] |}.

(** The state a request leaves behind, whatever its result. *)
Definition perform (self : MockAccessPoint) (req : Request) : MockAccessPoint :=
  match req with
  | ReqConnect a o r => snd (connect self a o r)
  | ReqDiscover a o r => snd (discover self a o r)
  | ReqRead a s c => snd (read self a s c)
  | ReqWrite a s c v => snd (write self a s c v)
  | ReqSubscribe a s c => snd (subscribe self a s c)
  | ReqUnsubscribe a s c => snd (unsubscribe self a s c)
  | ReqDisconnect a => snd (disconnect self a)
  end.

Definition run (reqs : list Request) (self : MockAccessPoint) : MockAccessPoint :=
  fold_left perform reqs self.

End Mock.

(** ** [bluez_access_point.py]: the write path

    The host-stack backend delegates to a [BleakClient]. What the client
    library does is an input of the model: [bytes_fromhex] stands for
    [bytes.fromhex], and a [backend_reply] says whether the awaited
    [write_gatt_char] coroutine completed or raised. *)
Module Bluez.

Inductive backend_reply : Type :=
  | Completed
  | Failed (e : exn).

Inductive backend_call : Type :=
  | write_gatt_char (address char_uuid : string) (data : bytes).

Record BluezAccessPoint : Type := mk {
  conn_reqs : dict ConnectionRequest.t;
  (** [self.clients], each client with its current [is_connected]. *)
  clients : dict bool
}.

Section WithLibrary.
Variable bytes_fromhex : string -> exn + bytes.

Definition is_connected (self : BluezAccessPoint) (address : string) : bool :=
  match dict_get (clients self) address with
  | Some connected => connected
  | None => false
  end.

(** [write]: every exception raised inside the [try] block, the
    [TypeError] of the response constructor included, is re-raised as
    [BleWriteError]. The second component lists the backend calls made. *)
Definition write (self : BluezAccessPoint)
    (address service_uuid char_uuid value : string) (reply : backend_reply)
    : Result WriteResponse.t * list backend_call :=
  if negb (dict_mem (clients self) address) || negb (is_connected self address) then
    (Raised (BleWriteError "not connected"), [])
  else
    match bytes_fromhex value with
    | inl e => (Raised (BleWriteError ("write failed: " ++ exn_message e)%string), [])
    | inr data =>
        let calls := [write_gatt_char address char_uuid data] in
        match reply with
        | Failed e =>
            (Raised (BleWriteError ("write failed: " ++ exn_message e)%string), calls)
        | Completed =>
            match WriteResponse.init address service_uuid char_uuid None None with
            | inl e =>
                (Raised (BleWriteError ("write failed: " ++ exn_message e)%string),
                 calls)
            | inr response => (Returned response, calls)
            end
        end
    end.
End WithLibrary.

End Bluez.

(** ** Conversions used by the radio-chip backend *)

(** [str(n)] for a Python [int]. *)
Definition str_of_int (n : Z) : string := NilZero.string_of_int (Z.to_int n).

Definition hex_digit (n : N) : ascii :=
  match n with
  | 0%N => "0" | 1%N => "1" | 2%N => "2" | 3%N => "3" | 4%N => "4"
  | 5%N => "5" | 6%N => "6" | 7%N => "7" | 8%N => "8" | 9%N => "9"
  | 10%N => "a" | 11%N => "b" | 12%N => "c" | 13%N => "d" | 14%N => "e"
  | _ => "f"
  end%char.

(** [b.hex()]: two lower-case digits per byte. *)
Fixpoint bytes_hex (b : bytes) : string :=
  match b with
  | [] => EmptyString
  | x :: b' =>
      let n := Byte.to_N x in
      String (hex_digit (N.div n 16)) (String (hex_digit (N.modulo n 16)) (bytes_hex b'))
  end.

(** [evt.uuid[::-1].hex()] *)
Definition uuid_str (uuid : bytes) : string := bytes_hex (rev uuid).

Definition ascii_lower (c : ascii) : ascii :=
  let n := nat_of_ascii c in
  if (Nat.leb 65 n && Nat.leb n 90)%bool then ascii_of_nat (n + 32) else c.

(** [s.lower()] on the ASCII letters of a device address. *)
Fixpoint lower (s : string) : string :=
  match s with
  | EmptyString => EmptyString
  | String c s' => String (ascii_lower c) (lower s')
  end.

(** ** [silabs/...]: the radio-chip backend *)
Module Silabs.

(** Events delivered by the chip, under the names of [evt._str]. *)
Inductive Event : Type :=
  | bt_evt_system_boot
  | bt_evt_connection_opened (address : string) (connection : Z)
  | bt_evt_connection_closed (connection : Z) (reason : Z)
  | bt_evt_gatt_service (connection : Z) (uuid : bytes) (service : Z)
  | bt_evt_gatt_characteristic (connection : Z) (uuid : bytes)
      (characteristic : Z) (props : Z)
  | bt_evt_gatt_descriptor (connection : Z) (uuid : bytes) (descriptor : Z)
  | bt_evt_gatt_procedure_completed (connection : Z) (result : Z)
  | bt_evt_gatt_characteristic_value (connection : Z) (characteristic : Z)
      (att_opcode : Z) (value : bytes)
  | bt_evt_scanner_report (address : string) (rssi : Z) (data : bytes).

(** What reaches a blocked caller: an event handled on the event thread,
    or the expiry of the bound of a bounded [wait]. *)
Inductive Stimulus : Type :=
  | Deliver (evt : Event)
  | WaitTimeout.

Inductive notification_mode : Type := Disable | Notification | Indication.

(** Commands issued to the chip through [self.lib.bt]. *)
Inductive Command : Type :=
  | connection_open (address : string)
  | connection_close (handle : Z)
  | discover_primary_services (handle : Z)
  | discover_characteristics (handle service_handle : Z)
  | discover_descriptors (handle char_handle : Z)
  | read_characteristic_value (handle char_handle : Z)
  | write_characteristic_value (handle char_handle : Z) (value : bytes)
  | set_characteristic_notification (handle char_handle : Z)
      (mode : notification_mode)
  | scanner_start.

(** [self.lib.bt.gatt.ATT_OPCODE_READ_RESPONSE], the ATT read-response
    opcode of the chip library. *)
Definition ATT_OPCODE_READ_RESPONSE : Z := 0x0b.

(** *** [ble_operations/discover.py]

    The operation's [Service] and [Characteristic] objects are mutated
    through [current_service] and [current_characteristic] while they
    also sit in the dictionaries, so they live in two stores and the
    dictionaries hold references (indices). *)
Record ServiceObj : Type := mkServiceObj {
  so_service_id : string;
  so_service_handle : Z;
  so_characteristics : dict nat
}.

Module DiscoverOperation.
Record t : Type := mk {
  handle : Z;
  requested_services : list pyval;
  retries : Z;
  services : dict nat;
  service_objs : list ServiceObj;
  char_objs : list Characteristic;
  current_service : option nat;
  current_characteristic : option nat;
  result : option Z
}.

Definition init (handle : Z) (retries : Z) (services : list pyval) : t :=
  {| handle := handle; requested_services := services; retries := retries;
     services := []; service_objs := []; char_objs := [];
     current_service := None; current_characteristic := None;
     result := None |}.

Definition set_services (d : t) (s : dict nat) (objs : list ServiceObj) : t :=
  {| handle := handle d; requested_services := requested_services d;
     retries := retries d; services := s; service_objs := objs;
     char_objs := char_objs d; current_service := current_service d;
     current_characteristic := current_characteristic d;
     result := result d |}.

Definition set_objs (d : t) (objs : list ServiceObj)
    (chars : list Characteristic) : t :=
  {| handle := handle d; requested_services := requested_services d;
     retries := retries d; services := services d; service_objs := objs;
     char_objs := chars; current_service := current_service d;
     current_characteristic := current_characteristic d;
     result := result d |}.

Definition set_current_service (d : t) (ref : nat) : t :=
  {| handle := handle d; requested_services := requested_services d;
     retries := retries d; services := services d;
     service_objs := service_objs d; char_objs := char_objs d;
     current_service := Some ref;
     current_characteristic := current_characteristic d;
     result := result d |}.

Definition set_current_characteristic (d : t) (ref : nat) : t :=
  {| handle := handle d; requested_services := requested_services d;
     retries := retries d; services := services d;
     service_objs := service_objs d; char_objs := char_objs d;
     current_service := current_service d;
     current_characteristic := Some ref;
     result := result d |}.

Definition set_result (d : t) (r : Z) : t :=
  {| handle := handle d; requested_services := requested_services d;
     retries := retries d; services := services d;
     service_objs := service_objs d; char_objs := char_objs d;
     current_service := current_service d;
     current_characteristic := current_characteristic d;
     result := Some r |}.
End DiscoverOperation.

(** The objects a dictionary of references points to. *)
Definition deref {A : Type} (store : list A) (d : dict nat) : dict A :=
  omap (fun kr => match store !! (snd kr) with
                  | Some a => Some (fst kr, a)
                  | None => None
                  end) d.

Definition service_of (d : DiscoverOperation.t) (so : ServiceObj) : Service :=
  {| service_id := so_service_id so;
     service_handle := so_service_handle so;
     characteristics := deref (DiscoverOperation.char_objs d) (so_characteristics so) |}.

(** [self.services] with every object read out. *)
Definition discovered_services (d : DiscoverOperation.t) : dict Service :=
  map (fun ks => (fst ks, service_of d (snd ks)))
    (deref (DiscoverOperation.service_objs d) (DiscoverOperation.services d)).

Module ReadOperation.
Record t : Type := mk {
  handle : Z;
  char_handle : Z;
  value : option bytes
}.
End ReadOperation.

Module WriteOperation.
Record t : Type := mk {
  handle : Z;
  char_handle : Z;
  value_bytes : bytes
}.
End WriteOperation.

Module ConnectOperation.
(** Modelled from the spec: [ble_operations/connect.py] is not among the
    sources. The operation is bound to the peer address, learns its
    connection handle from the connection-opened event, and stays
    pending for the life of the link. *)
Record t : Type := mk {
  address : string;
  retries : Z;
  handle : Z
}.
End ConnectOperation.

Module DisconnectOperation.
(** Modelled from the spec: [ble_operations/disconnect.py] is not among
    the sources. The operation is bound to one connection handle. *)
Record t : Type := mk {
  handle : Z
}.
End DisconnectOperation.

Module SubscribeOperation.
(** Modelled from the spec: [ble_operations/subscribe.py] is not among
    the sources. The fields are the constructor arguments used by
    [SilabsAccessPoint.subscribe]. *)
Record t : Type := mk {
  handle : Z;
  char_handle : Z;
  props : list string;
  address : string;
  service_uuid : string;
  char_uuid : string
}.
End SubscribeOperation.

Inductive OperationClass : Type :=
  | Discover (d : DiscoverOperation.t)
  | Read (r : ReadOperation.t)
  | Write (w : WriteOperation.t)
  | Connect (c : ConnectOperation.t)
  | Disconnect (x : DisconnectOperation.t)
  | Subscribe (s : SubscribeOperation.t)
  | Scan.

(** [operation.py]: an [Operation] is a [threading.Event] with an
    [is_done] mark. [signals] counts the calls of [set()] so far; a caller
    blocked in [wait()] resumes when it grows. *)
Record Operation : Type := mkOperation {
  class : OperationClass;
  flag : bool;
  is_done : bool;
  signals : nat
}.

Definition Operation_init (c : OperationClass) : Operation :=
  {| class := c; flag := false; is_done := false; signals := 0 |}.

Definition with_class (op : Operation) (c : OperationClass) : Operation :=
  {| class := c; flag := flag op; is_done := is_done op; signals := signals op |}.

(** [self.set()] *)
Definition set (op : Operation) : Operation :=
  {| class := class op; flag := true; is_done := is_done op;
     signals := S (signals op) |}.

(** [self.clear()] *)
Definition clear (op : Operation) : Operation :=
  {| class := class op; flag := false; is_done := is_done op;
     signals := signals op |}.

Definition mark_done (op : Operation) : Operation :=
  {| class := class op; flag := flag op; is_done := true;
     signals := signals op |}.

(** [operation.handle] and [operation.char_handle], for the classes that
    have the attribute. *)
Definition Operation_handle (op : Operation) : option Z :=
  match class op with
  | Discover d => Some (DiscoverOperation.handle d)
  | Read r => Some (ReadOperation.handle r)
  | Write w => Some (WriteOperation.handle w)
  | Connect c => Some (ConnectOperation.handle c)
  | Disconnect x => Some (DisconnectOperation.handle x)
  | Subscribe s => Some (SubscribeOperation.handle s)
  | Scan => None
  end.

Definition Operation_char_handle (op : Operation) : option Z :=
  match class op with
  | Read r => Some (ReadOperation.char_handle r)
  | Write w => Some (WriteOperation.char_handle w)
  | Subscribe s => Some (SubscribeOperation.char_handle s)
  | _ => None
  end.

Definition is_SubscribeOperation (op : Operation) : bool :=
  match class op with Subscribe _ => true | _ => false end.

(** *** Event handlers of the operations

    [Operation.handle_event] looks the handler up by the event's name; an
    operation without a method of that name ignores the event. A handler
    returns the operation as it leaves it and the publications it made,
    or the exception it raises. *)

Definition add_characteristic (so : ServiceObj) (characteristic_id : string)
    (ref : nat) : ServiceObj :=
  {| so_service_id := so_service_id so;
     so_service_handle := so_service_handle so;
     so_characteristics := dict_set (so_characteristics so) characteristic_id ref |}.

Definition add_descriptor (c : Characteristic) (descriptor_id : string)
    (d : Descriptor) : Characteristic :=
  {| characteristic_id := characteristic_id c;
     char_handle := char_handle c;
     properties := properties c;
     descriptors := dict_set (descriptors c) descriptor_id d |}.

Definition DiscoverOperation_handle_event (op : Operation)
    (d : DiscoverOperation.t) (evt : Event) : exn + Operation :=
  match evt with
  | bt_evt_gatt_service connection uuid service =>
      if connection =? DiscoverOperation.handle d then
        let service_id := uuid_str uuid in
        let ref := length (DiscoverOperation.service_objs d) in
        inr (with_class op (Discover
          (DiscoverOperation.set_services d
             (dict_set (DiscoverOperation.services d) service_id ref)
             (DiscoverOperation.service_objs d
                ++ [mkServiceObj service_id service []]))))
      else inr op
  | bt_evt_gatt_characteristic connection uuid characteristic props =>
      if connection =? DiscoverOperation.handle d then
        let characteristic_id := uuid_str uuid in
        let c := Characteristic_init characteristic_id characteristic props in
        match DiscoverOperation.current_service d with
        | None => inl (AttributeError "current_service")
        | Some sref =>
            let cref := length (DiscoverOperation.char_objs d) in
            inr (with_class op (Discover
              (DiscoverOperation.set_objs d
                 (alter (fun so => add_characteristic so characteristic_id cref)
                    sref (DiscoverOperation.service_objs d))
                 (DiscoverOperation.char_objs d ++ [c]))))
        end
      else inr op
  | bt_evt_gatt_descriptor connection uuid descriptor =>
      if connection =? DiscoverOperation.handle d then
        let descriptor_id := uuid_str uuid in
        match DiscoverOperation.current_characteristic d with
        | None => inl (AttributeError "current_characteristic")
        | Some cref =>
            inr (with_class op (Discover
              (DiscoverOperation.set_objs d
                 (DiscoverOperation.service_objs d)
                 (alter (fun c => add_descriptor c descriptor_id
                                    (mkDescriptor descriptor_id descriptor))
                    cref (DiscoverOperation.char_objs d)))))
        end
      else inr op
  | bt_evt_gatt_procedure_completed connection result =>
      if connection =? DiscoverOperation.handle d then
        inr (clear (set (with_class op
               (Discover (DiscoverOperation.set_result d result)))))
      else inr op
  | _ => inr op
  end.

Definition ReadOperation_handle_event (op : Operation)
    (r : ReadOperation.t) (evt : Event) : Operation :=
  match evt with
  | bt_evt_gatt_characteristic_value connection characteristic att_opcode value =>
      if ((ReadOperation.handle r =? connection)
          && (ReadOperation.char_handle r =? characteristic)
          && (att_opcode =? ATT_OPCODE_READ_RESPONSE))%bool then
        set (with_class op (Read
          (ReadOperation.mk (ReadOperation.handle r)
             (ReadOperation.char_handle r) (Some value))))
      else op
  | bt_evt_gatt_procedure_completed connection _ =>
      if ReadOperation.handle r =? connection then mark_done op else op
  | _ => op
  end.

Definition WriteOperation_handle_event (op : Operation)
    (w : WriteOperation.t) (evt : Event) : Operation :=
  match evt with
  | bt_evt_gatt_procedure_completed connection _ =>
      if WriteOperation.handle w =? connection then mark_done (set op) else op
  | _ => op
  end.

(** Modelled from the spec: the handlers of [ConnectOperation]. While the
    operation awaits it, the connection-opened event for its address
    (addresses are correlated case-insensitively) gives the handle,
    publishes the status [connected=true] and releases the caller. The
    link-closed event for that handle publishes the status
    [connected=false] and ends the operation: both ways of tearing the
    link down end in this event. *)
Definition ConnectOperation_handle_event (op : Operation)
    (c : ConnectOperation.t) (evt : Event) : Operation * list Publication :=
  match evt with
  | bt_evt_connection_opened address connection =>
      if (negb (flag op)
          && String.eqb (lower address) (lower (ConnectOperation.address c)))%bool
      then
        (set (with_class op (Connect
           (ConnectOperation.mk (ConnectOperation.address c)
              (ConnectOperation.retries c) connection))),
         [publish_connection_status None (ConnectOperation.address c) true])
      else (op, [])
  | bt_evt_connection_closed connection reason =>
      if (flag op && (connection =? ConnectOperation.handle c))%bool then
        (mark_done op,
         [publish_connection_status (Some reason) (ConnectOperation.address c) false])
      else (op, [])
  | _ => (op, [])
  end.

(** Modelled from the spec: the handler of [DisconnectOperation]. The
    link-closed event for its handle is the backend's confirmation. *)
Definition DisconnectOperation_handle_event (op : Operation)
    (x : DisconnectOperation.t) (evt : Event) : Operation :=
  match evt with
  | bt_evt_connection_closed connection _ =>
      if connection =? DisconnectOperation.handle x then mark_done (set op) else op
  | _ => op
  end.

(** Modelled from the spec: the handlers of [SubscribeOperation]. The
    backend acknowledges the enabling of notifications, and every
    value-changed event on the characteristic is forwarded to the
    publisher for as long as the operation is pending. *)
Definition SubscribeOperation_handle_event (op : Operation)
    (s : SubscribeOperation.t) (evt : Event) : Operation * list Publication :=
  match evt with
  | bt_evt_gatt_procedure_completed connection _ =>
      if SubscribeOperation.handle s =? connection then (set op, []) else (op, [])
  | bt_evt_gatt_characteristic_value connection characteristic _ value =>
      if ((SubscribeOperation.handle s =? connection)
          && (SubscribeOperation.char_handle s =? characteristic))%bool then
        (op, [publish_notification (SubscribeOperation.address s)
                (SubscribeOperation.service_uuid s)
                (SubscribeOperation.char_uuid s) value])
      else (op, [])
  | _ => (op, [])
  end.

(** Modelled from the spec: [ScanOperation] forwards each advertisement. *)
Definition ScanOperation_handle_event (op : Operation) (evt : Event)
    : Operation * list Publication :=
  match evt with
  | bt_evt_scanner_report address rssi data =>
      (op, [publish_advertisement address rssi data])
  | _ => (op, [])
  end.

(** [Operation.handle_event] *)
Definition handle_event (op : Operation) (evt : Event)
    : exn + Operation * list Publication :=
  match class op with
  | Discover d =>
      match DiscoverOperation_handle_event op d evt with
      | inl e => inl e
      | inr op' => inr (op', [])
      end
  | Read r => inr (ReadOperation_handle_event op r evt, [])
  | Write w => inr (WriteOperation_handle_event op w evt, [])
  | Connect c => inr (ConnectOperation_handle_event op c evt)
  | Disconnect x => inr (DisconnectOperation_handle_event op x evt, [])
  | Subscribe s => inr (SubscribeOperation_handle_event op s evt)
  | Scan => inr (ScanOperation_handle_event op evt)
  end.

(** *** [silabs_access_point.py]

    [heap] holds every [Operation] object created so far, [operations] is
    the dispatch list [self.operations] of references into it. [commands]
    and [published] record the calls made on the chip library and on the
    data producer. [conn_reqs] and [operations] are class attributes in
    the source; the process has one access point, whose state this is. *)
Record SilabsAccessPoint : Type := mk {
  conn_reqs : dict ConnectionRequest.t;
  heap : list Operation;
  operations : list nat;
  commands : list Command;
  published : list Publication;
  ready : bool
}.

(** The state of a process in which no connection and no operation has
    been created yet; [__init__] resets neither class attribute. *)
Definition init : SilabsAccessPoint :=
  {| conn_reqs := []; heap := []; operations := []; commands := [];
     published := []; ready := false |}.

Definition with_conn_reqs (self : SilabsAccessPoint)
    (c : dict ConnectionRequest.t) : SilabsAccessPoint :=
  {| conn_reqs := c; heap := heap self; operations := operations self;
     commands := commands self; published := published self;
     ready := ready self |}.

Definition with_operations (self : SilabsAccessPoint) (ops : list nat)
    : SilabsAccessPoint :=
  {| conn_reqs := conn_reqs self; heap := heap self; operations := ops;
     commands := commands self; published := published self;
     ready := ready self |}.

(** The object [id] becomes [op], having made the publications [pubs]. *)
Definition store (self : SilabsAccessPoint) (id : nat) (op : Operation)
    (pubs : list Publication) : SilabsAccessPoint :=
  {| conn_reqs := conn_reqs self; heap := <[id := op]> (heap self);
     operations := operations self; commands := commands self;
     published := published self ++ pubs; ready := ready self |}.

Definition issue (self : SilabsAccessPoint) (c : Command) : SilabsAccessPoint :=
  {| conn_reqs := conn_reqs self; heap := heap self;
     operations := operations self; commands := commands self ++ [c];
     published := published self; ready := ready self |}.

(** Creating an operation and [self.operations.append(operation)]. *)
Definition new_operation (self : SilabsAccessPoint) (c : OperationClass)
    : nat * SilabsAccessPoint :=
  let id := length (heap self) in
  (id,
   {| conn_reqs := conn_reqs self; heap := heap self ++ [Operation_init c];
      operations := operations self ++ [id]; commands := commands self;
      published := published self; ready := ready self |}).

(** The object behind a reference held by a caller. *)
Definition operation_at (self : SilabsAccessPoint) (id : nat) : Operation :=
  default (Operation_init Scan) (heap self !! id).

Definition discover_at (self : SilabsAccessPoint) (id : nat) : DiscoverOperation.t :=
  match class (operation_at self id) with
  | Discover d => d
  | _ => DiscoverOperation.init 0 0 []
  end.

(** [SilabsAccessPoint.bt_evt_system_boot]: [self.ready.set()] *)
Definition bt_evt_system_boot_handler (self : SilabsAccessPoint) : SilabsAccessPoint :=
  {| conn_reqs := conn_reqs self; heap := heap self;
     operations := operations self; commands := commands self;
     published := published self; ready := true |}.

(** The first address of the registry whose connection has this handle. *)
Fixpoint address_of_handle (d : dict ConnectionRequest.t) (connection : Z)
    : option string :=
  match d with
  | [] => None
  | (address, conn_req) :: d' =>
      if ConnectionRequest.handle conn_req =? connection then Some address
      else address_of_handle d' connection
  end.

(** [SilabsAccessPoint.bt_evt_connection_closed] *)
Definition bt_evt_connection_closed_handler (self : SilabsAccessPoint)
    (connection : Z) : SilabsAccessPoint :=
  match address_of_handle (conn_reqs self) connection with
  | Some address => with_conn_reqs self (dict_pop (conn_reqs self) address)
  | None => self
  end.

(** [list.remove]: the first occurrence goes. *)
Fixpoint list_remove (x : nat) (l : list nat) : list nat :=
  match l with
  | [] => []
  | y :: l' => if Nat.eqb x y then l' else y :: list_remove x l'
  end.

(** The first loop of [event_handler]: every operation of the list is
    offered the event, the ones that are done are collected. *)
Fixpoint dispatch (ids : list nat) (evt : Event) (self : SilabsAccessPoint)
    (remove_ops : list nat) : option exn * SilabsAccessPoint * list nat :=
  match ids with
  | [] => (None, self, remove_ops)
  | id :: ids' =>
      let operation := operation_at self id in
      match handle_event operation evt with
      | inl e => (Some e, self, remove_ops)
      | inr (operation', pubs) =>
          dispatch ids' evt (store self id operation' pubs)
            (if is_done operation' then remove_ops ++ [id] else remove_ops)
      end
  end.

(** [SilabsAccessPoint.event_handler]; an exception raised by a handler
    leaves it at once. *)
Definition event_handler (self : SilabsAccessPoint) (evt : Event)
    : option exn * SilabsAccessPoint :=
  match dispatch (operations self) evt self [] with
  | (Some e, self', _) => (Some e, self')
  | (None, self', remove_ops) =>
      let self' :=
        with_operations self'
          (fold_left (fun ops id => list_remove id ops) remove_ops
             (operations self')) in
      (None,
       match evt with
       | bt_evt_system_boot => bt_evt_system_boot_handler self'
       | bt_evt_connection_closed connection _ =>
           bt_evt_connection_closed_handler self' connection
       | _ => self'
       end)
  end.

(** *** Blocking in [wait()]

    While a caller is blocked the event thread handles the stimuli in
    delivery order. The caller resumes after the event whose handling
    called [set()] on its operation, or, in a bounded wait, when the
    bound expires; it stays blocked when the stimuli run out or the event
    thread dies of an exception. *)
Inductive Wait : Type :=
  | Resumed (self : SilabsAccessPoint) (rest : list Stimulus)
  | Stuck (self : SilabsAccessPoint).

Fixpoint block (bounded : bool) (id : nat) (self : SilabsAccessPoint)
    (stimuli : list Stimulus) : Wait :=
  match stimuli with
  | [] => Stuck self
  | WaitTimeout :: rest =>
      if bounded then Resumed self rest else block bounded id self rest
  | Deliver evt :: rest =>
      match event_handler self evt with
      | (Some _, self') => Stuck self'
      | (None, self') =>
          if (signals (operation_at self id) <? signals (operation_at self' id))%nat
          then Resumed self' rest
          else block bounded id self' rest
      end
  end.

(** [threading.Event.wait]: no blocking when the flag is set. *)
Definition wait (bounded : bool) (id : nat) (self : SilabsAccessPoint)
    (stimuli : list Stimulus) : Wait :=
  if flag (operation_at self id) then Resumed self stimuli
  else block bounded id self stimuli.

(** *** [DiscoverOperation.run]

    [run] blocks in [wait()] at three places. A frame records at which
    one the caller is blocked, with the loop variables: the position and
    the creation-time size of each dictionary iterator, and the current
    [service] and [characteristic] objects. The flag of a discover
    operation is never left set ([set()] is followed by [clear()]), so
    each [wait()] blocks until the next procedure-completed event. *)
Inductive DiscoverFrame : Type :=
  | AwaitServices
  | AwaitCharacteristics (pos size : nat) (service : nat)
  | AwaitDescriptors (pos size : nat) (service : nat) (cpos csize : nat).

Inductive Step : Type :=
  | Waiting (frame : DiscoverFrame) (self : SilabsAccessPoint)
  | Finished (self : SilabsAccessPoint)
  | Failed (e : exn) (self : SilabsAccessPoint).

Definition dict_changed : exn :=
  RuntimeError "dictionary changed size during iteration".

(** One step of [for service in self.services.values()]: the loop ends
    ([is_done = True]) or its body runs up to the [wait()]. *)
Definition next_service (id : nat) (pos size : nat) (self : SilabsAccessPoint)
    : Step :=
  let op := operation_at self id in
  let d := discover_at self id in
  if negb (length (DiscoverOperation.services d) =? size)%nat then
    Failed dict_changed self
  else
    match DiscoverOperation.services d !! pos with
    | None => Finished (store self id (mark_done op) [])
    | Some (_, sref) =>
        match DiscoverOperation.service_objs d !! sref with
        | None => Failed (KeyError "service") self
        | Some service =>
            let self :=
              issue self
                (discover_characteristics (DiscoverOperation.handle d)
                   (so_service_handle service)) in
            Waiting (AwaitCharacteristics pos size sref)
              (store self id
                 (with_class op
                    (Discover (DiscoverOperation.set_current_service d sref))) [])
        end
    end.

(** One step of [for characteristic in service.characteristics.values()]:
    at its end the outer loop goes on. *)
Definition next_characteristic (id : nat) (pos size : nat) (sref : nat)
    (cpos csize : nat) (self : SilabsAccessPoint) : Step :=
  let op := operation_at self id in
  let d := discover_at self id in
  match DiscoverOperation.service_objs d !! sref with
  | None => Failed (KeyError "service") self
  | Some service =>
      if negb (length (so_characteristics service) =? csize)%nat then
        Failed dict_changed self
      else
        match so_characteristics service !! cpos with
        | None => next_service id (S pos) size self
        | Some (_, cref) =>
            match DiscoverOperation.char_objs d !! cref with
            | None => Failed (KeyError "characteristic") self
            | Some characteristic =>
                let self :=
                  store self id
                    (with_class op
                       (Discover
                          (DiscoverOperation.set_current_characteristic d cref)))
                    [] in
                Waiting (AwaitDescriptors pos size sref cpos csize)
                  (issue self
                     (discover_descriptors (DiscoverOperation.handle d)
                        (char_handle characteristic)))
            end
        end
  end.

(** What [run] does when [wait()] returns at the place [frame]. *)
Definition resume (id : nat) (frame : DiscoverFrame) (self : SilabsAccessPoint)
    : Step :=
  let d := discover_at self id in
  match DiscoverOperation.result d with
  | None => Failed (AttributeError "result") self
  | Some result =>
      if negb (result =? 0) then Finished self
      else
        match frame with
        | AwaitServices =>
            next_service id 0 (length (DiscoverOperation.services d)) self
        | AwaitCharacteristics pos size sref =>
            match DiscoverOperation.service_objs d !! sref with
            | None => Failed (KeyError "service") self
            | Some service =>
                next_characteristic id pos size sref 0
                  (length (so_characteristics service)) self
            end
        | AwaitDescriptors pos size sref cpos csize =>
            next_characteristic id pos size sref (S cpos) csize self
        end
  end.

(** [run] from a [wait()] on: the blocked caller and the event thread. *)
Fixpoint drive (id : nat) (frame : DiscoverFrame) (self : SilabsAccessPoint)
    (stimuli : list Stimulus)
    : Result unit * SilabsAccessPoint * list Stimulus :=
  match stimuli with
  | [] => (Blocked, self, [])
  | WaitTimeout :: rest => drive id frame self rest
  | Deliver evt :: rest =>
      match event_handler self evt with
      | (Some _, self') => (Blocked, self', [])
      | (None, self') =>
          if (signals (operation_at self id) <? signals (operation_at self' id))%nat
          then
            match resume id frame self' with
            | Waiting frame' self'' => drive id frame' self'' rest
            | Finished self'' => (Returned tt, self'', rest)
            | Failed e self'' => (Raised e, self'', rest)
            end
          else drive id frame self' rest
      end
  end.

Definition DiscoverOperation_run (id : nat) (self : SilabsAccessPoint)
    (stimuli : list Stimulus)
    : Result unit * SilabsAccessPoint * list Stimulus :=
  let d := discover_at self id in
  drive id AwaitServices
    (issue self (discover_primary_services (DiscoverOperation.handle d)))
    stimuli.

(** [DiscoverOperation.response] *)
Definition DiscoverOperation_response (d : DiscoverOperation.t)
    : DiscoverResponse.t :=
  let services :=
    match DiscoverOperation.requested_services d with
    | _ :: _ =>
        List.filter
          (fun s => str_in (service_id s) (DiscoverOperation.requested_services d))
          (dict_values (discovered_services d))
    | [] => dict_values (discovered_services d)
    end in
  DiscoverResponse.mk (str_of_int (DiscoverOperation.handle d)) (SvcList services).

(** *** [ReadOperation] and [WriteOperation] *)

Definition ReadOperation_run (id : nat) (self : SilabsAccessPoint)
    (stimuli : list Stimulus) : Wait :=
  match class (operation_at self id) with
  | Read r =>
      wait false id
        (issue self
           (read_characteristic_value (ReadOperation.handle r)
              (ReadOperation.char_handle r)))
        stimuli
  | _ => Stuck self
  end.

Definition ReadOperation_response (op : Operation) (r : ReadOperation.t)
    : ReadResponse.t :=
  if flag op then
    ReadResponse.mk (str_of_int (ReadOperation.handle r)) "" ""
      (ReadOperation.value r)
  else
    ReadResponse.mk (str_of_int (ReadOperation.handle r)) "" "" None.

Definition WriteOperation_run (id : nat) (self : SilabsAccessPoint)
    (stimuli : list Stimulus) : Wait :=
  match class (operation_at self id) with
  | Write w =>
      wait false id
        (issue self
           (write_characteristic_value (WriteOperation.handle w)
              (WriteOperation.char_handle w) (WriteOperation.value_bytes w)))
        stimuli
  | _ => Stuck self
  end.

Definition WriteOperation_response (op : Operation) (w : WriteOperation.t)
    : WriteResponse.t :=
  if flag op then
    WriteResponse.mk (str_of_int (WriteOperation.handle w)) "" ""
      (Some (WriteOperation.value_bytes w)) true
  else
    WriteResponse.mk (str_of_int (WriteOperation.handle w)) "" "" None false.

(** *** Operations outside the sources *)

(** Modelled from the spec: [ConnectOperation.run] issues the
    open-connection command and waits, for a bounded time, for the
    connection-opened event. *)
Definition ConnectOperation_run (id : nat) (self : SilabsAccessPoint)
    (stimuli : list Stimulus) : Wait :=
  match class (operation_at self id) with
  | Connect c =>
      wait true id (issue self (connection_open (ConnectOperation.address c)))
        stimuli
  | _ => Stuck self
  end.

(** Modelled from the spec: [DisconnectOperation.run] issues the
    close-connection command and waits, for a bounded time, for the
    link-closed event. *)
Definition DisconnectOperation_run (id : nat) (self : SilabsAccessPoint)
    (stimuli : list Stimulus) : Wait :=
  match class (operation_at self id) with
  | Disconnect x =>
      wait true id (issue self (connection_close (DisconnectOperation.handle x)))
        stimuli
  | _ => Stuck self
  end.

(** Modelled from the spec: [SubscribeOperation.run] enables notify (or
    indicate, for a characteristic without notify) on the backend and
    waits for the acknowledgment. *)
Definition SubscribeOperation_run (id : nat) (self : SilabsAccessPoint)
    (stimuli : list Stimulus) : Wait :=
  match class (operation_at self id) with
  | Subscribe s =>
      let mode :=
        if existsb (String.eqb "notify") (SubscribeOperation.props s)
        then Notification else Indication in
      wait false id
        (issue self
           (set_characteristic_notification (SubscribeOperation.handle s)
              (SubscribeOperation.char_handle s) mode))
        stimuli
  | _ => Stuck self
  end.

(** Modelled from the spec: [SubscribeOperation.disable_notification]
    stops the backend notification and ends the operation. *)
Definition disable_notification (id : nat) (self : SilabsAccessPoint)
    : SilabsAccessPoint :=
  let op := operation_at self id in
  match class op with
  | Subscribe s =>
      store
        (issue self
           (set_characteristic_notification (SubscribeOperation.handle s)
              (SubscribeOperation.char_handle s) Disable))
        id (mark_done op) []
  | _ => self
  end.

(** *** The calls of [SilabsAccessPoint]

    A call takes the stimuli that reach the process from the moment it
    starts and returns what is left of them. *)
Definition Call (A : Type) : Type :=
  (Result A * SilabsAccessPoint * list Stimulus)%type.

Section WithConfig.
(** [config.SL_BT_CONFIG_MAX_CONNECTIONS] *)
Variable SL_BT_CONFIG_MAX_CONNECTIONS : nat.

Definition connectable (self : SilabsAccessPoint) : bool :=
  (length (conn_reqs self) <? SL_BT_CONFIG_MAX_CONNECTIONS)%nat.

Definition connect (self : SilabsAccessPoint) (address : string)
    (ble_connect_options : BleConnectOptions.t) (retries : Z)
    (stimuli : list Stimulus) : Call unit :=
  if negb (connectable self) then
    (Raised (BleConnectionError "max connections"), self, stimuli)
  else if dict_mem (conn_reqs self) address then
    (Raised (BleConnectionError "already connected"), self, stimuli)
  else
    let '(id, self) :=
      new_operation self (Connect (ConnectOperation.mk address retries (-1))) in
    match ConnectOperation_run id self stimuli with
    | Stuck self => (Blocked, self, [])
    | Resumed self rest =>
        let operation := operation_at self id in
        if negb (flag operation) then
          (Raised (BleConnectionError "connection operation failed"), self, rest)
        else
          match Operation_handle operation with
          | None => (Raised (AttributeError "handle"), self, rest)
          | Some handle =>
              (Returned tt,
               with_conn_reqs self
                 (dict_set (conn_reqs self) address
                    (ConnectionRequest.mk address handle EmptyDict)),
               rest)
          end
    end.
End WithConfig.

(** [start_scan]; modelled from the spec: [ScanOperation.run]
    ([ble_operations/scan.py] is not among the sources) issues the
    start-scan command and does not wait. *)
Definition start_scan (self : SilabsAccessPoint) : SilabsAccessPoint :=
  let '(_, self) := new_operation self Scan in
  issue self scanner_start.

(** [SilabsAccessPoint.discover]. After [run], [discover_operation.services]
    is assigned to the [services] attribute of the connection request and
    handed to the response: one dictionary object with three holders. *)
Definition discover (self : SilabsAccessPoint) (address : string)
    (ble_connect_options : BleConnectOptions.t) (retries : Z)
    (stimuli : list Stimulus) : Call DiscoverResponse.t :=
  match dict_get (conn_reqs self) address with
  | None => (Raised (BleDiscoveryError "not connected"), self, stimuli)
  | Some conn_req =>
      let '(id, self) :=
        new_operation self
          (Discover
             (DiscoverOperation.init (ConnectionRequest.handle conn_req) retries
                (BleConnectOptions.services ble_connect_options))) in
      match DiscoverOperation_run id self stimuli with
      | (Blocked, self, rest) => (Blocked, self, rest)
      | (Raised e, self, rest) => (Raised e, self, rest)
      | (Returned _, self, rest) =>
          let services := ServicesOf id in
          match dict_get (conn_reqs self) address with
          | None => (Raised (KeyError address), self, rest)
          | Some conn_req =>
              (Returned (DiscoverResponse.mk address (SvcDict services)),
               with_conn_reqs self
                 (dict_set (conn_reqs self) address
                    (ConnectionRequest.mk (ConnectionRequest.address conn_req)
                       (ConnectionRequest.handle conn_req) services)),
               rest)
          end
      end
  end.

(** What a dictionary object holds now: the services of a discover
    operation are read out of the operation. *)
Definition services_at (self : SilabsAccessPoint) (o : services_obj)
    : dict Service :=
  match o with
  | EmptyDict => []
  | ServicesOf id => discovered_services (discover_at self id)
  end.

(** [conn_req.services[service_uuid].characteristics[char_uuid]], with the
    [KeyError] of a missing key. *)
Definition lookup_characteristic (self : SilabsAccessPoint)
    (conn_req : ConnectionRequest.t)
    (service_uuid char_uuid : string) : exn + Characteristic :=
  match dict_get (services_at self (ConnectionRequest.services conn_req))
          service_uuid with
  | None => inl (KeyError service_uuid)
  | Some service =>
      match dict_get (characteristics service) char_uuid with
      | None => inl (KeyError char_uuid)
      | Some characteristic => inr characteristic
      end
  end.

Definition read (self : SilabsAccessPoint) (address service_uuid char_uuid : string)
    (stimuli : list Stimulus) : Call ReadResponse.t :=
  match dict_get (conn_reqs self) address with
  | None => (Raised (BleReadError "not connected"), self, stimuli)
  | Some conn_req =>
      let handle := ConnectionRequest.handle conn_req in
      match lookup_characteristic self conn_req service_uuid char_uuid with
      | inl e => (Raised e, self, stimuli)
      | inr characteristic =>
          let '(id, self) :=
            new_operation self
              (Read (ReadOperation.mk handle (char_handle characteristic) None)) in
          match ReadOperation_run id self stimuli with
          | Stuck self => (Blocked, self, [])
          | Resumed self rest =>
              let operation := operation_at self id in
              match class operation with
              | Read r => (Returned (ReadOperation_response operation r), self, rest)
              | _ => (Raised (AttributeError "response"), self, rest)
              end
          end
      end
  end.

Definition write (self : SilabsAccessPoint) (address service_uuid char_uuid : string)
    (value : bytes) (stimuli : list Stimulus) : Call WriteResponse.t :=
  match dict_get (conn_reqs self) address with
  | None => (Raised (BleWriteError "not connected"), self, stimuli)
  | Some conn_req =>
      let handle := ConnectionRequest.handle conn_req in
      match lookup_characteristic self conn_req service_uuid char_uuid with
      | inl e => (Raised e, self, stimuli)
      | inr characteristic =>
          let '(id, self) :=
            new_operation self
              (Write (WriteOperation.mk handle (char_handle characteristic) value)) in
          match WriteOperation_run id self stimuli with
          | Stuck self => (Blocked, self, [])
          | Resumed self rest =>
              (Returned
                 (WriteResponse.mk address service_uuid char_uuid (Some value) true),
               self, rest)
          end
      end
  end.

Definition subscribe (self : SilabsAccessPoint)
    (address service_uuid char_uuid : string) (stimuli : list Stimulus)
    : Call SubscribeResponse.t :=
  match dict_get (conn_reqs self) address with
  | None => (Raised (BleSubscribeError "not connected"), self, stimuli)
  | Some conn_req =>
      let handle := ConnectionRequest.handle conn_req in
      match lookup_characteristic self conn_req service_uuid char_uuid with
      | inl e => (Raised e, self, stimuli)
      | inr characteristic =>
          let '(id, self) :=
            new_operation self
              (Subscribe
                 (SubscribeOperation.mk handle (char_handle characteristic)
                    (properties characteristic) address service_uuid char_uuid)) in
          match SubscribeOperation_run id self stimuli with
          | Stuck self => (Blocked, self, [])
          | Resumed self rest =>
              (Returned (SubscribeResponse.mk address service_uuid char_uuid true),
               self, rest)
          end
      end
  end.

(** The loop of [unsubscribe] over [self.operations]: both attributes are
    read on every operation before its class is looked at. *)
Fixpoint find_subscription (ids : list nat) (self : SilabsAccessPoint)
    (handle char_handle : Z) : exn + option nat :=
  match ids with
  | [] => inr None
  | id :: ids' =>
      let operation := operation_at self id in
      match Operation_char_handle operation with
      | None => inl (AttributeError "char_handle")
      | Some ch =>
          match Operation_handle operation with
          | None => inl (AttributeError "handle")
          | Some h =>
              if (is_SubscribeOperation operation && (h =? handle)
                  && (ch =? char_handle))%bool
              then inr (Some id)
              else find_subscription ids' self handle char_handle
          end
      end
  end.

Definition unsubscribe (self : SilabsAccessPoint)
    (address service_uuid char_uuid : string) (stimuli : list Stimulus)
    : Call UnsubscribeResponse.t :=
  match dict_get (conn_reqs self) address with
  | None => (Raised (BleUnsubscribeError "not connected"), self, stimuli)
  | Some conn_req =>
      let handle := ConnectionRequest.handle conn_req in
      match lookup_characteristic self conn_req service_uuid char_uuid with
      | inl e => (Raised e, self, stimuli)
      | inr characteristic =>
          match find_subscription (operations self) self handle
                  (char_handle characteristic) with
          | inl e => (Raised e, self, stimuli)
          | inr (Some id) =>
              (Returned (UnsubscribeResponse.mk address service_uuid char_uuid true),
               disable_notification id self, stimuli)
          | inr None => (Raised (BleUnsubscribeError "not subscribed"), self, stimuli)
          end
      end
  end.

Definition disconnect (self : SilabsAccessPoint) (address : string)
    (stimuli : list Stimulus) : Call unit :=
  match dict_get (conn_reqs self) address with
  | None => (Raised (KeyError address), self, stimuli)
  | Some conn_req =>
      let handle := ConnectionRequest.handle conn_req in
      let '(id, self) :=
        new_operation self (Disconnect (DisconnectOperation.mk handle)) in
      match DisconnectOperation_run id self stimuli with
      | Stuck self => (Blocked, self, [])
      | Resumed self rest =>
          if negb (flag (operation_at self id)) then
            (Raised (BleDisconnectError "disconnect operation failed"), self, rest)
          else (Returned tt, self, rest)
      end
  end.

(** *** Histories

    A history interleaves calls with events handled while no caller is
    blocked ([Tick]: the event thread takes the next stimulus). *)
Inductive Action : Type :=
  | Invoke (req : Request)
  | Tick.

Definition state_of {A : Type} (c : Call A) : SilabsAccessPoint * list Stimulus :=
  (snd (fst c), snd c).

Section WithConfig.
Variable SL_BT_CONFIG_MAX_CONNECTIONS : nat.

Definition perform (self : SilabsAccessPoint) (req : Request)
    (stimuli : list Stimulus) : SilabsAccessPoint * list Stimulus :=
  match req with
  | ReqConnect a o r =>
      state_of (connect SL_BT_CONFIG_MAX_CONNECTIONS self a o r stimuli)
  | ReqDiscover a o r => state_of (discover self a o r stimuli)
  | ReqRead a s c => state_of (read self a s c stimuli)
  | ReqWrite a s c v => state_of (write self a s c v stimuli)
  | ReqSubscribe a s c => state_of (subscribe self a s c stimuli)
  | ReqUnsubscribe a s c => state_of (unsubscribe self a s c stimuli)
  | ReqDisconnect a => state_of (disconnect self a stimuli)
  end.

Fixpoint run (actions : list Action) (self : SilabsAccessPoint)
    (stimuli : list Stimulus) : SilabsAccessPoint * list Stimulus :=
  match actions with
  | [] => (self, stimuli)
  | Invoke req :: actions' =>
      let '(self', rest) := perform self req stimuli in
      run actions' self' rest
  | Tick :: actions' =>
      match stimuli with
      | [] => run actions' self []
      | WaitTimeout :: rest => run actions' self rest
      | Deliver evt :: rest => run actions' (snd (event_handler self evt)) rest
      end
  end.
End WithConfig.

End Silabs.

(** ** Scenarios

    A peer with the handle 1 and the services 180d (one characteristic,
    2a37, with one descriptor) and 180f (no characteristic). UUIDs are
    written as the chip delivers them, least significant byte first. *)
Module Scenario.
Import Silabs.

Definition address : string := "C1:5C:00:00:00:00".
Definition max_connections : nat := 4.

Definition uuid_180d : bytes := [Byte.x0d; Byte.x18].
Definition uuid_180f : bytes := [Byte.x0f; Byte.x18].
Definition uuid_2a37 : bytes := [Byte.x37; Byte.x2a].
Definition uuid_2902 : bytes := [Byte.x02; Byte.x29].

Definition opened : list Stimulus :=
  [Deliver (bt_evt_connection_opened "c1:5c:00:00:00:00" 1)].

(** The access point after [connect(address)]. *)
Definition connected : SilabsAccessPoint :=
  snd (fst (connect max_connections init address BleConnectOptions.default 3 opened)).

(** A complete discovery walk. *)
Definition walk : list Stimulus :=
  [Deliver (bt_evt_gatt_service 1 uuid_180d 10);
   Deliver (bt_evt_gatt_service 1 uuid_180f 20);
   Deliver (bt_evt_gatt_procedure_completed 1 0);
   Deliver (bt_evt_gatt_characteristic 1 uuid_2a37 11 0x12);
   Deliver (bt_evt_gatt_procedure_completed 1 0);
   Deliver (bt_evt_gatt_descriptor 1 uuid_2902 12);
   Deliver (bt_evt_gatt_procedure_completed 1 0);
   Deliver (bt_evt_gatt_procedure_completed 1 0)].

(** The access point after a complete [discover(address)]. *)
Definition discovered : SilabsAccessPoint :=
  snd (fst (discover connected address BleConnectOptions.default 3 walk)).

(** A walk whose first phase fails with the backend result 3. *)
Definition failing_services : list Stimulus :=
  [Deliver (bt_evt_gatt_procedure_completed 1 3)].

(** A walk whose second phase fails with the backend result 7. *)
Definition failing_characteristics : list Stimulus :=
  [Deliver (bt_evt_gatt_service 1 uuid_180d 10);
   Deliver (bt_evt_gatt_procedure_completed 1 0);
   Deliver (bt_evt_gatt_procedure_completed 1 7)].

Definition only_180d : BleConnectOptions.t :=
  BleConnectOptions.mk [PyDict [("serviceID", "180d")]] false 3600.

Definition acknowledged : list Stimulus :=
  [Deliver (bt_evt_gatt_procedure_completed 1 0)].

Definition value_read : list Stimulus :=
  [Deliver (bt_evt_gatt_characteristic_value 1 11 ATT_OPCODE_READ_RESPONSE
              [Byte.x2a]);
   Deliver (bt_evt_gatt_procedure_completed 1 0)].




(** The access point while the caller of a second [discover(address)] is
    blocked in its first [wait()]: no event has been handled since the
    first discovery ended. *)
Definition rediscovering : SilabsAccessPoint :=
  snd (fst (discover discovered address BleConnectOptions.default 3 [])).
End Scenario.

(** ** Predicates of the statements *)

Import Silabs.

(** The decoder as a table: the flags of [capability_order] whose bits are
    set, in that order. *)
Definition capability_set (p : Z) (flag : string) : bool :=
  if String.eqb flag "read" then Z.testbit p 1
  else if String.eqb flag "write_no_response" then Z.testbit p 2
  else if String.eqb flag "write" then Z.testbit p 3
  else if String.eqb flag "notify" then Z.testbit p 4
  else if String.eqb flag "indicate" then Z.testbit p 5
  else if String.eqb flag "extended_props" then Z.testbit p 7
  else if String.eqb flag "reliable_write" then (Z.testbit p 0 && Z.testbit p 8)%bool
  else false.

(** The registry is a dictionary: its keys stay distinct. *)
Definition registry_wf (self : SilabsAccessPoint) : Prop :=
  NoDup (dict_keys (conn_reqs self)).

(** [event_handler] on an access point whose dispatch list has distinct,
    valid references. *)
Definition operations_wf (self : SilabsAccessPoint) : Prop :=
  NoDup (operations self) /\
  Forall (fun id => (id < length (heap self))%nat) (operations self).

Definition is_write_of (w : WriteOperation.t) (op : Operation) : Prop :=
  class op = Write w.

Definition is_read_of (handle char_handle : Z) (op : Operation) : Prop :=
  exists r, class op = Read r /\ ReadOperation.handle r = handle /\
            ReadOperation.char_handle r = char_handle.

(** A read operation that has been signalled holds the value of a
    read-response event of its connection and characteristic. *)
Definition read_value_from (h ch : Z) (evt : Event) (n : nat) (op : Operation)
    : Prop :=
  exists r, class op = Read r /\ ReadOperation.handle r = h /\
    ReadOperation.char_handle r = ch /\
    (signals op = n \/
     (flag op = true /\ exists v, ReadOperation.value r = Some v /\
        evt = bt_evt_gatt_characteristic_value h ch ATT_OPCODE_READ_RESPONSE v)).

(** The publications a handler makes. *)
Definition pubs_of (op : Operation) (evt : Event) : list Publication :=
  match handle_event op evt with
  | inr (_, pubs) => pubs
  | inl _ => []
  end.

Definition remove_all (remove_ops ops : list nat) : list nat :=
  fold_left (fun ops id => list_remove id ops) remove_ops ops.

(** [A] is registered with the connection handle [h]. *)
Definition holds_link (A : string) (h : Z) (self : SilabsAccessPoint) : Prop :=
  NoDup (dict_keys (conn_reqs self)) /\
  exists conn_req, get_connection (conn_reqs self) A = Some conn_req /\
                   ConnectionRequest.handle conn_req = h.

(** A stimulus other than the link-closed event of the handle [h]. *)
Definition quiet (h : Z) (s : Stimulus) : Prop :=
  forall reason, s <> Deliver (bt_evt_connection_closed h reason).

Definition wait_keeps_link (A : string) (h : Z) (w : Wait) : Prop :=
  match w with
  | Resumed self' rest => holds_link A h self' /\ Forall (quiet h) rest
  | Stuck self' => holds_link A h self'
  end.

Definition step_keeps_registry (self : SilabsAccessPoint) (s : Step) : Prop :=
  match s with
  | Waiting _ self' | Finished self' | Failed _ self' =>
      conn_reqs self' = conn_reqs self
  end.

Definition call_keeps_link (A : string) (h : Z) {R : Type} (c : Call R) : Prop :=
  holds_link A h (snd (fst c)) /\ Forall (quiet h) (snd c).

(** The pending connect operation of the link of [A] with the handle [h]. *)
Definition owns_link (A : string) (h : Z) (op : Operation) : bool :=
  match class op with
  | Connect c =>
      String.eqb (ConnectOperation.address c) A
      && (ConnectOperation.handle c =? h) && flag op && negb (is_done op)
  | _ => false
  end.

(** An operation that is neither a connect operation for the peer [A] nor
    a connect operation holding the handle [h]. *)
Definition foreign_to (A : string) (h : Z) (op : Operation) : bool :=
  match class op with
  | Connect c =>
      negb (String.eqb (lower (ConnectOperation.address c)) (lower A))
      && (negb (flag op) || negb (ConnectOperation.handle c =? h))
  | _ => true
  end.

(** The number of [connected=false] statuses published for [A]. *)
Definition count_disconnected (A : string) (pubs : list Publication) : nat :=
  length (List.filter (is_disconnected_status A) pubs).


(** [A] is connected under the handle [h], no other connection has that
    handle, and the operation [idA] is the one pending connect operation
    bound to the peer and to the handle. *)
Record linked (A : string) (h : Z) (idA : nat) (self : SilabsAccessPoint)
    : Prop := mkLinked {
  linked_link : holds_link A h self;
  linked_unique :
    Forall (fun e => ConnectionRequest.handle (snd e) = h -> fst e = A)
      (conn_reqs self);
  linked_ops : operations_wf self;
  linked_pending : In idA (operations self);
  linked_owner : owns_link A h (operation_at self idA) = true;
  linked_others :
    Forall (fun id => id = idA \/ foreign_to A h (operation_at self id) = true)
      (operations self)
}.



(** The number of [connected=true] statuses published for [A]. *)
Definition is_connected_status (address : string) (p : Publication) : bool :=
  match p with
  | publish_connection_status _ a true => String.eqb a address
  | _ => false
  end.

Definition count_connected (A : string) (pubs : list Publication) : nat :=
  length (List.filter (is_connected_status A) pubs).

(** A stimulus other than the read response of the characteristic [ch] on
    the connection [h]. *)
Definition no_read_response (h ch : Z) (s : Stimulus) : Prop :=
  forall value,
    s <> Deliver (bt_evt_gatt_characteristic_value h ch ATT_OPCODE_READ_RESPONSE value).

(** The operation has the attributes [unsubscribe] reads on it. *)
Definition has_handles (op : Operation) : bool :=
  match Operation_char_handle op, Operation_handle op with
  | Some _, Some _ => true
  | _, _ => false
  end.

(** The subscription [unsubscribe] looks for. *)
Definition subscription_of (handle char_handle : Z) (op : Operation) : bool :=
  match class op with
  | Subscribe s =>
      (SubscribeOperation.handle s =? handle)
      && (SubscribeOperation.char_handle s =? char_handle)
  | _ => false
  end.

(** A pending discover operation on the connection [h] that was left
    behind before its characteristics phase: not done, no current service. *)
Definition stale_discover (h : Z) (id : nat) (self : SilabsAccessPoint) : Prop :=
  operations_wf self /\ In id (operations self) /\
  is_done (operation_at self id) = false /\
  exists d, class (operation_at self id) = Discover d /\
            DiscoverOperation.handle d = h /\
            DiscoverOperation.current_service d = None.

(** An operation that the loop of [unsubscribe] reads and passes over:
    it has both attributes and is not the subscription looked for. *)
Definition passed_over (handle char_handle : Z) (self : SilabsAccessPoint)
    (id : nat) : Prop :=
  has_handles (operation_at self id) = true /\
  subscription_of handle char_handle (operation_at self id) = false.

(** [len(self.conn_reqs)] *)
Definition registry_size (self : SilabsAccessPoint) : nat := length (conn_reqs self).

(** The identifiers a filter names: its plain strings. *)
Definition requested_ids (requested : list pyval) : list string :=
  flat_map (fun v => match v with PyStr s => [s] | PyDict _ => [] end) requested.

(** The stand-in, started with the registry [R], keeps its registry a
    dictionary, and for every address the [connected=true] statuses it has
    published, plus one if [R] held the address, are as many as the
    [connected=false] statuses, plus one if the address is registered
    now. *)
Definition mock_balanced (R : dict ConnectionRequest.t)
    (self : Mock.MockAccessPoint) : Prop :=
  NoDup (dict_keys (Mock.conn_reqs self)) /\
  forall A,
    (count_connected A (Mock.published self)
     + if dict_mem R A then 1 else 0)%nat =
    (count_disconnected A (Mock.published self)
     + if dict_mem (Mock.conn_reqs self) A then 1 else 0)%nat.

(** ** [bluez_access_point.py]: connection, teardown and subscriptions

    As in the write path, the reply of the awaited client coroutine is an
    input. A call returns its result, the client calls it made and, where
    it changes them, the maps and the statuses handed to the data
    producer. *)
Module BluezCalls.

(** [publish_connection_status(Evt(), address, connected)], with the
    [reason] attribute of the local class [Evt]. *)
Inductive Status : Type :=
  | publish_connection_status (reason : string) (address : string)
      (connected : bool).

Inductive client_call : Type :=
  | client_connect (address : string)
  | start_notify (address char_uuid : string)
  | stop_notify (address char_uuid : string)
  | client_disconnect (address : string).

(** The dataclass constructors called without their last field. *)
Definition SubscribeResponse_init (address service_uuid char_uuid : string)
    (subscribed : option bool) : exn + SubscribeResponse.t :=
  match subscribed with
  | Some s => inr (SubscribeResponse.mk address service_uuid char_uuid s)
  | None =>
      inl (TypeError
             "SubscribeResponse.__init__() missing 1 required positional argument: 'subscribed'")
  end.

Definition UnsubscribeResponse_init (address service_uuid char_uuid : string)
    (unsubscribed : option bool) : exn + UnsubscribeResponse.t :=
  match unsubscribed with
  | Some u => inr (UnsubscribeResponse.mk address service_uuid char_uuid u)
  | None =>
      inl (TypeError
             "UnsubscribeResponse.__init__() missing 1 required positional argument: 'unsubscribed'")
  end.

Definition connect (self : Bluez.BluezAccessPoint) (address : string)
    (_ble_connect_options : BleConnectOptions.t) (_retries : Z)
    (reply : Bluez.backend_reply)
    : Result unit * Bluez.BluezAccessPoint * list client_call * list Status :=
  if dict_mem (Bluez.clients self) address && Bluez.is_connected self address then
    (Raised (BleConnectionError "already connected"), self, [], [])
  else
    let calls := [client_connect address] in
    match reply with
    | Bluez.Failed e =>
        (Raised (BleConnectionError ("connection failed: " ++ exn_message e)%string),
         self, calls, [])
    | Bluez.Completed =>
        (Returned tt,
         {| Bluez.clients := dict_set (Bluez.clients self) address true;
            Bluez.conn_reqs :=
              dict_set (Bluez.conn_reqs self) address
                (ConnectionRequest.mk address 0 EmptyDict) |},
         calls, [publish_connection_status "connected" address true])
    end.

(** The [disconnected_callback] closure that [connect] hands to the
    client of [address]. *)
Definition disconnected_callback (self : Bluez.BluezAccessPoint) (address : string)
    : Bluez.BluezAccessPoint * list Status :=
  let clients :=
    if dict_mem (Bluez.clients self) address
    then dict_pop (Bluez.clients self) address else Bluez.clients self in
  let conn_reqs :=
    if dict_mem (Bluez.conn_reqs self) address
    then dict_pop (Bluez.conn_reqs self) address else Bluez.conn_reqs self in
  ({| Bluez.clients := clients; Bluez.conn_reqs := conn_reqs |},
   [publish_connection_status "disconnected" address false]).

Definition subscribe (self : Bluez.BluezAccessPoint)
    (address service_uuid char_uuid : string) (reply : Bluez.backend_reply)
    : Result SubscribeResponse.t * list client_call :=
  if negb (dict_mem (Bluez.clients self) address)
     || negb (Bluez.is_connected self address) then
    (Raised (BleSubscribeError "not connected"), [])
  else
    let calls := [start_notify address char_uuid] in
    match reply with
    | Bluez.Failed e =>
        (Raised (BleSubscribeError ("subscribe failed: " ++ exn_message e)%string),
         calls)
    | Bluez.Completed =>
        match SubscribeResponse_init address service_uuid char_uuid None with
        | inl e =>
            (Raised (BleSubscribeError ("subscribe failed: " ++ exn_message e)%string),
             calls)
        | inr response => (Returned response, calls)
        end
    end.

Definition unsubscribe (self : Bluez.BluezAccessPoint)
    (address service_uuid char_uuid : string) (reply : Bluez.backend_reply)
    : Result UnsubscribeResponse.t * list client_call :=
  if negb (dict_mem (Bluez.clients self) address)
     || negb (Bluez.is_connected self address) then
    (Raised (BleUnsubscribeError "not connected"), [])
  else
    let calls := [stop_notify address char_uuid] in
    match reply with
    | Bluez.Failed e =>
        (Raised (BleUnsubscribeError ("unsubscribe failed: " ++ exn_message e)%string),
         calls)
    | Bluez.Completed =>
        match UnsubscribeResponse_init address service_uuid char_uuid None with
        | inl e =>
            (Raised
               (BleUnsubscribeError ("unsubscribe failed: " ++ exn_message e)%string),
             calls)
        | inr response => (Returned response, calls)
        end
    end.

(** [disconnect] leaves the cleanup to [disconnected_callback]. *)
Definition disconnect (self : Bluez.BluezAccessPoint) (address : string)
    (reply : Bluez.backend_reply) : Result unit * list client_call :=
  if negb (dict_mem (Bluez.clients self) address) then
    (Raised (BleDisconnectError "not connected"), [])
  else
    let calls := [client_disconnect address] in
    match reply with
    | Bluez.Failed e =>
        (Raised (BleDisconnectError ("disconnect failed: " ++ exn_message e)%string),
         calls)
    | Bluez.Completed => (Returned tt, calls)
    end.

End BluezCalls.

(** ** SDF references and topics: [control.py] and [data_producer.py] *)

(** [c in s] for a one-character string [c]. *)
Fixpoint char_in (c : ascii) (s : string) : bool :=
  match s with
  | EmptyString => false
  | String c' s' => Ascii.eqb c' c || char_in c s'
  end.

(** [s.split(sep, 1)]: the text before the first separator and the text
    after it, or the text alone when it has no separator. *)
Fixpoint str_split_once (sep : ascii) (s : string) : list string :=
  match s with
  | EmptyString => [EmptyString]
  | String c s' =>
      if Ascii.eqb c sep then [EmptyString; s']
      else
        match str_split_once sep s' with
        | x :: l => String c x :: l
        | [] => [String c EmptyString]
        end
  end.

(** [s.split(sep)] *)
Fixpoint str_split (sep : ascii) (s : string) : list string :=
  match s with
  | EmptyString => [EmptyString]
  | String c s' =>
      if Ascii.eqb c sep then EmptyString :: str_split sep s'
      else
        match str_split sep s' with
        | x :: l => String c x :: l
        | [] => [String c EmptyString]
        end
  end.

(** [sep.join(l)] *)
Fixpoint str_join (sep : string) (l : list string) : string :=
  match l with
  | [] => EmptyString
  | [x] => x
  | x :: l' => (x ++ sep ++ str_join sep l')%string
  end.

(** [s[1:]] *)
Definition str_tail (s : string) : string :=
  match s with
  | EmptyString => EmptyString
  | String _ s' => s'
  end.

(** [control.parse_sdf_reference]: both [ValueError]s raised inside the
    [try] block are re-raised with the reference in the message. *)
Definition parse_sdf_reference (sdf_reference : string)
    : exn + string * list string :=
  let failed (msg : string) : exn + string * list string :=
    inl (ValueError
           ("Failed to parse SDF reference '" ++ sdf_reference ++ "': " ++ msg)%string) in
  if negb (char_in "#" sdf_reference) then
    failed "Invalid SDF reference: missing '#'"
  else
    match str_split_once "#" sdf_reference with
    | [namespace; json_pointer] =>
        if negb (String.prefix "/" json_pointer) then
          failed "Invalid SDF reference: JSON pointer must start with '/'"
        else
          let path_components :=
            if (1 <? String.length json_pointer)%nat
            then str_split "/" (str_tail json_pointer) else [] in
          inr (namespace, path_components)
    | l =>
        failed
          ("not enough values to unpack (expected 2, got "
             ++ str_of_int (Z.of_nat (length l)) ++ ")")%string
    end.

(** [data_producer.create_topic_from_event] *)
Definition create_topic_from_event (data_app_id event_name : string)
    : exn + string :=
  match str_split_once "#" event_name with
  | [namespace; json_pointer] =>
      inr ("data-app/" ++ data_app_id ++ "/" ++ namespace ++ "/" ++ json_pointer)%string
  | l =>
      inl (ValueError
             ("not enough values to unpack (expected 2, got "
                ++ str_of_int (Z.of_nat (length l)) ++ ")")%string)
  end.

(** JSON values, as the column [SdfModel.model] holds them. *)
#[warnings="-register-all"]
Inductive json : Type :=
  | JNull
  | JBool (b : bool)
  | JNum (n : Z)
  | JStr (s : string)
  | JList (l : list json)
  | JDict (d : list (string * json)).

(** [component in current] for a dictionary [current], with the value. *)
Definition has_component (current : json) (component : string) : option json :=
  match current with
  | JDict d => dict_get d component
  | _ => None
  end.

Section WithRepr.
(** [repr] of a string, the text of [str(KeyError(msg))]. *)
Variable repr : string -> string.

(** The loop of [navigate_sdf_model], up to the [KeyError] it raises. *)
Fixpoint navigate (current : json) (path_components : list string)
    : exn + json :=
  match path_components with
  | [] => inr current
  | component :: rest =>
      match current with
      | JDict d =>
          match dict_get d component with
          | Some value => navigate value rest
          | None =>
              inl (KeyError (repr ("Component '" ++ component ++ "' not found")%string))
          end
      | _ => inl (KeyError (repr ("Component '" ++ component ++ "' not found")%string))
      end
  end.

(** [control.navigate_sdf_model] *)
Definition navigate_sdf_model (model : json) (path_components : list string)
    : exn + json :=
  let path_str := str_join "/" path_components in
  match navigate model path_components with
  | inr current => inr current
  | inl e =>
      inl (ValueError
             ("Invalid SDF path '" ++ path_str ++ "': " ++ exn_message e)%string)
  end.
End WithRepr.

(** ** The attribute table of a peer

    What a peer answers during a discovery walk: its services, their
    characteristics and their descriptors, each with its UUID (least
    significant byte first) and its attribute handle. *)
Record DescriptorRow : Type := mkDescriptorRow {
  dr_uuid : bytes;
  dr_handle : Z
}.

Record CharacteristicRow : Type := mkCharacteristicRow {
  cr_uuid : bytes;
  cr_handle : Z;
  cr_props : Z;
  cr_descriptors : list DescriptorRow
}.

Record ServiceRow : Type := mkServiceRow {
  sr_uuid : bytes;
  sr_handle : Z;
  sr_characteristics : list CharacteristicRow
}.

(** The events of a walk on the connection [h] in which every procedure
    succeeds: the answer to each discovery command is one event per
    attribute and the procedure-completed event with the result 0. *)
Definition descriptor_events (h : Z) (c : CharacteristicRow) : list Stimulus :=
  map (fun d => Deliver (bt_evt_gatt_descriptor h (dr_uuid d) (dr_handle d)))
    (cr_descriptors c)
  ++ [Deliver (bt_evt_gatt_procedure_completed h 0)].

Definition characteristic_events (h : Z) (s : ServiceRow) : list Stimulus :=
  map (fun c => Deliver (bt_evt_gatt_characteristic h (cr_uuid c) (cr_handle c)
                           (cr_props c)))
    (sr_characteristics s)
  ++ Deliver (bt_evt_gatt_procedure_completed h 0)
     :: flat_map (descriptor_events h) (sr_characteristics s).

Definition table_events (h : Z) (table : list ServiceRow) : list Stimulus :=
  map (fun s => Deliver (bt_evt_gatt_service h (sr_uuid s) (sr_handle s))) table
  ++ Deliver (bt_evt_gatt_procedure_completed h 0)
     :: flat_map (characteristic_events h) table.

(** The table as [Service], [Characteristic] and [Descriptor] objects. *)
Definition descriptor_of (d : DescriptorRow) : string * Descriptor :=
  (uuid_str (dr_uuid d), mkDescriptor (uuid_str (dr_uuid d)) (dr_handle d)).

Definition char_with (c : CharacteristicRow) (ds : list DescriptorRow)
    : Characteristic :=
  {| characteristic_id := uuid_str (cr_uuid c);
     char_handle := cr_handle c;
     properties := decode_properties (cr_props c);
     descriptors := map descriptor_of ds |}.

Definition characteristic_of (c : CharacteristicRow) : string * Characteristic :=
  (uuid_str (cr_uuid c), char_with c (cr_descriptors c)).

Definition service_of_row (s : ServiceRow) : string * Service :=
  (uuid_str (sr_uuid s),
   {| service_id := uuid_str (sr_uuid s);
      service_handle := sr_handle s;
      characteristics := map characteristic_of (sr_characteristics s) |}).

Definition table_services (table : list ServiceRow) : dict Service :=
  map service_of_row table.

(** The commands of the walk, in the order [run] issues them. *)
Definition table_commands (h : Z) (table : list ServiceRow) : list Command :=
  discover_primary_services h
  :: flat_map
       (fun s =>
          discover_characteristics h (sr_handle s)
          :: map (fun c => discover_descriptors h (cr_handle c))
               (sr_characteristics s))
       table.

(** No UUID occurs twice among the services, among the characteristics of
    a service, or among the descriptors of a characteristic. *)
Definition table_wf (table : list ServiceRow) : Prop :=
  NoDup (map sr_uuid table) /\
  Forall
    (fun s =>
       NoDup (map cr_uuid (sr_characteristics s)) /\
       Forall (fun c => NoDup (map dr_uuid (cr_descriptors c)))
         (sr_characteristics s))
    table.

(** An operation that is not a discover operation of the connection [h]. *)
Definition quiet_for (h : Z) (op : Operation) : Prop :=
  match class op with
  | Discover d => DiscoverOperation.handle d <> h
  | _ => True
  end.

(** The events of a walk on the connection [h]. *)
Definition walk_event (h : Z) (evt : Event) : Prop :=
  match evt with
  | bt_evt_gatt_service c _ _ | bt_evt_gatt_characteristic c _ _ _
  | bt_evt_gatt_descriptor c _ _ | bt_evt_gatt_procedure_completed c _ => c = h
  | _ => False
  end.

(** The caller of [discover] is inside [run]: its operation [id] is
    pending, not done and holds [d]; every other pending operation is
    quiet for the connection; [cmds] have been issued and the registry is
    [R]. *)
Record walking (h : Z) (id : nat) (R : dict ConnectionRequest.t)
    (self : SilabsAccessPoint) (d : DiscoverOperation.t) (cmds : list Command)
    : Prop := mkWalking {
  walking_wf : operations_wf self;
  walking_pending : In id (operations self);
  walking_others :
    Forall (fun j => j = id \/ quiet_for h (operation_at self j)) (operations self);
  walking_class : class (operation_at self id) = Discover d;
  walking_handle : DiscoverOperation.handle d = h;
  walking_flag : flag (operation_at self id) = false;
  walking_done : is_done (operation_at self id) = false;
  walking_commands : commands self = cmds;
  walking_registry : conn_reqs self = R
}.

(** What [run] does with the outcome of a step. *)
Definition continue (id : nat) (step : Step) (rest : list Stimulus)
    : Result unit * SilabsAccessPoint * list Stimulus :=
  match step with
  | Waiting frame self => drive id frame self rest
  | Finished self => (Returned tt, self, rest)
  | Failed e self => (Raised e, self, rest)
  end.

(** The references and objects of a discover operation in terms of the
    table: service [i] is object [i]; the characteristics of a service
    are consecutive objects from an offset on. *)
Definition svc_refs (table : list ServiceRow) : dict nat :=
  imap (fun i s => (uuid_str (sr_uuid s), i)) table.

Definition char_refs (off : nat) (cs : list CharacteristicRow) : dict nat :=
  imap (fun j c => (uuid_str (cr_uuid c), (off + j)%nat)) cs.

Definition so_with (off : nat) (s : ServiceRow) (cs : list CharacteristicRow)
    : ServiceObj :=
  {| so_service_id := uuid_str (sr_uuid s);
     so_service_handle := sr_handle s;
     so_characteristics := char_refs off cs |}.

Fixpoint objs_full (off : nat) (l : list ServiceRow) : list ServiceObj :=
  match l with
  | [] => []
  | s :: l' =>
      so_with off s (sr_characteristics s)
      :: objs_full (off + length (sr_characteristics s)) l'
  end.

Definition objs_empty (l : list ServiceRow) : list ServiceObj :=
  map (fun s => so_with 0 s []) l.

Definition all_characteristics (l : list ServiceRow) : list CharacteristicRow :=
  flat_map sr_characteristics l.

Definition chars_full (cs : list CharacteristicRow) : list Characteristic :=
  map (fun c => char_with c (cr_descriptors c)) cs.

Definition chars_bare (cs : list CharacteristicRow) : list Characteristic :=
  map (fun c => char_with c []) cs.

(** ** Calls that return

    The events on which no handler raises an exception: only the handlers
    of [DiscoverOperation] for a characteristic and for a descriptor read
    an attribute that may not have been set. *)
Definition plain (s : Stimulus) : Prop :=
  match s with
  | Deliver (bt_evt_gatt_characteristic _ _ _ _)
  | Deliver (bt_evt_gatt_descriptor _ _ _) => False
  | _ => True
  end.

(** Not the procedure-completed event of the connection [h]. *)
Definition no_completion (h : Z) (s : Stimulus) : Prop :=
  forall result, s <> Deliver (bt_evt_gatt_procedure_completed h result).

(** * Properties *)

(** ** Dictionaries *)
Section DictFacts.
Context {V : Type}.
Implicit Types (d : dict V) (k : string) (v : V).

Lemma dict_get_set_eq d k v : dict_get (dict_set d k v) k = Some v.
Proof.
  induction d as [|[k' v'] d IH]; simpl.
  - by rewrite String.eqb_refl.
  - destruct (String.eqb k' k) eqn:E; simpl; rewrite E; auto.
Qed.

Lemma dict_get_set_ne d k k' v :
  k <> k' -> dict_get (dict_set d k v) k' = dict_get d k'.
Proof.
  intros Hne. induction d as [|[k0 v0] d IH]; simpl.
  - apply String.eqb_neq in Hne. by rewrite Hne.
  - destruct (String.eqb k0 k) eqn:E; simpl.
    + apply String.eqb_eq in E. subst k0.
      apply String.eqb_neq in Hne. by rewrite Hne.
    + by rewrite IH.
Qed.

Lemma dict_get_pop_ne d k k' :
  k <> k' -> dict_get (dict_pop d k) k' = dict_get d k'.
Proof.
  intros Hne. induction d as [|[k0 v0] d IH]; simpl; [done|].
  destruct (String.eqb k0 k) eqn:E; simpl.
  - apply String.eqb_eq in E. subst k0.
    apply String.eqb_neq in Hne. by rewrite Hne.
  - by rewrite IH.
Qed.

Lemma dict_get_None_keys d k : dict_get d k = None <-> ~ In k (dict_keys d).
Proof.
  induction d as [|[k0 v0] d IH]; simpl; [tauto|].
  destruct (String.eqb_spec k0 k); [split; [done | tauto]|].
  rewrite IH. tauto.
Qed.

Lemma dict_get_pop_eq d k :
  NoDup (dict_keys d) -> dict_get (dict_pop d k) k = None.
Proof.
  induction d as [|[k0 v0] d IH]; simpl; [done|].
  rewrite NoDup_cons. intros [Hnotin Hnd].
  destruct (String.eqb_spec k0 k).
  - subst k0. apply dict_get_None_keys. by rewrite <- list_elem_of_In.
  - simpl. destruct (String.eqb_spec k0 k); [done | auto].
Qed.

Lemma dict_keys_set_present d k v :
  dict_mem d k = true -> dict_keys (dict_set d k v) = dict_keys d.
Proof.
  unfold dict_mem. induction d as [|[k0 v0] d IH]; simpl; [done|].
  destruct (String.eqb k0 k) eqn:E; simpl; [done|].
  intros H. by rewrite IH.
Qed.

Lemma dict_keys_set_absent d k v :
  dict_mem d k = false -> dict_keys (dict_set d k v) = dict_keys d ++ [k].
Proof.
  unfold dict_mem. induction d as [|[k0 v0] d IH]; simpl; [done|].
  destruct (String.eqb k0 k) eqn:E; simpl; [done|].
  intros H. by rewrite IH.
Qed.

Lemma dict_mem_false_keys d k : dict_mem d k = false <-> ~ In k (dict_keys d).
Proof.
  rewrite <- dict_get_None_keys. unfold dict_mem.
  destruct (dict_get d k); split; congruence.
Qed.

Lemma dict_keys_set_NoDup d k v :
  NoDup (dict_keys d) -> NoDup (dict_keys (dict_set d k v)).
Proof.
  intros Hnd. destruct (dict_mem d k) eqn:E.
  - by rewrite dict_keys_set_present.
  - rewrite dict_keys_set_absent by done.
    apply NoDup_app. split; [done|]. split; [|apply NoDup_singleton].
    intros x Hx Hk. apply list_elem_of_singleton in Hk. subst x.
    apply dict_mem_false_keys in E. apply E. by apply list_elem_of_In.
Qed.

Lemma dict_keys_pop_sub d k x : In x (dict_keys (dict_pop d k)) -> In x (dict_keys d).
Proof.
  induction d as [|[k0 v0] d IH]; simpl; [done|].
  destruct (String.eqb k0 k); simpl; tauto.
Qed.

Lemma dict_keys_pop_NoDup d k :
  NoDup (dict_keys d) -> NoDup (dict_keys (dict_pop d k)).
Proof.
  induction d as [|[k0 v0] d IH]; simpl; [done|].
  rewrite NoDup_cons. intros [Hnotin Hnd].
  destruct (String.eqb k0 k); simpl; [done|].
  apply NoDup_cons. split; [|auto].
  rewrite list_elem_of_In. intros Hin. apply Hnotin.
  apply list_elem_of_In. eapply dict_keys_pop_sub, Hin.
Qed.
End DictFacts.

(** ** Capability flags *)

(** A mask is contained in [p] exactly when every bit of the mask is a bit
    of [p]. *)
Lemma land_mask_bits (p m : Z) :
  Z.land p m = m <->
  forall i, 0 <= i -> Z.testbit m i = true -> Z.testbit p i = true.
Proof.
  split.
  - intros H i Hi Hm. rewrite <- H in Hm. rewrite Z.land_spec in Hm.
    by apply andb_true_iff in Hm as [Hp _].
  - intros H. apply Z.bits_inj'. intros i Hi. rewrite Z.land_spec.
    destruct (Z.testbit m i) eqn:Em.
    + by rewrite (H i Hi Em).
    + apply andb_false_r.
Qed.

Lemma land_single_bit (p : Z) (k : Z) :
  0 <= k -> (Z.land p (2 ^ k) =? 2 ^ k) = Z.testbit p k.
Proof.
  intros Hk. destruct (Z.testbit p k) eqn:E.
  - apply Z.eqb_eq, land_mask_bits. intros i Hi Hb.
    destruct (Z.eq_dec i k) as [->|Hne]; [done|].
    rewrite Z.pow2_bits_false in Hb by congruence. done.
  - apply Z.eqb_neq. intros H.
    pose proof (proj1 (land_mask_bits p (2 ^ k)) H k Hk (Z.pow2_bits_true k Hk)).
    congruence.
Qed.

Lemma land_0x101 (p : Z) :
  (Z.land p 0x101 =? 0x101) = (Z.testbit p 0 && Z.testbit p 8)%bool.
Proof.
  destruct (Z.testbit p 0) eqn:E0, (Z.testbit p 8) eqn:E8; simpl.
  - apply Z.eqb_eq, land_mask_bits. intros i Hi Hb.
    destruct (Z.eq_dec i 0) as [->|H0]; [done|].
    destruct (Z.eq_dec i 8) as [->|H8]; [done|].
    exfalso. change 0x101 with (Z.lor (2 ^ 0) (2 ^ 8)) in Hb.
    rewrite Z.lor_spec, !Z.pow2_bits_false in Hb by congruence. done.
  - apply Z.eqb_neq. intros H.
    pose proof (proj1 (land_mask_bits p 0x101) H 8 ltac:(lia) eq_refl). congruence.
  - apply Z.eqb_neq. intros H.
    pose proof (proj1 (land_mask_bits p 0x101) H 0 ltac:(lia) eq_refl). congruence.
  - apply Z.eqb_neq. intros H.
    pose proof (proj1 (land_mask_bits p 0x101) H 0 ltac:(lia) eq_refl). congruence.
Qed.

Lemma decode_properties_table (p : Z) :
  decode_properties p = List.filter (capability_set p) capability_order.
Proof.
  unfold decode_properties.
  change 0x02 with (2 ^ 1). change 0x04 with (2 ^ 2). change 0x08 with (2 ^ 3).
  change 0x10 with (2 ^ 4). change 0x20 with (2 ^ 5). change 0x80 with (2 ^ 7).
  rewrite !land_single_bit by lia. rewrite land_0x101.
  unfold capability_order, capability_set.
  cbn [List.filter String.eqb Ascii.eqb Bool.eqb].
  generalize (Z.testbit p 1), (Z.testbit p 2), (Z.testbit p 3), (Z.testbit p 4),
    (Z.testbit p 5), (Z.testbit p 7), (Z.testbit p 0 && Z.testbit p 8)%bool.
  intros [] [] [] [] [] [] []; reflexivity.
Qed.

(** C8: every capability flag is in the decoded list exactly when its bits
    are set in the raw mask (bit 0x02 for read, 0x04 for write_no_response,
    0x08 for write, 0x10 for notify, 0x20 for indicate, 0x80 for
    extended_props, both bits of 0x101 for reliable_write), the tests are
    independent, the decoded list is the sub-list of
    read, write_no_response, write, notify, indicate, extended_props,
    reliable_write in that order, and 0x12 decodes to read, notify. *)
Theorem C8_capability_decode (id : string) (h : Z) (p : Z) :
  let flags := properties (Characteristic_init id h p) in
  (In "read" flags <-> Z.land p 0x02 = 0x02) /\
  (In "write_no_response" flags <-> Z.land p 0x04 = 0x04) /\
  (In "write" flags <-> Z.land p 0x08 = 0x08) /\
  (In "notify" flags <-> Z.land p 0x10 = 0x10) /\
  (In "indicate" flags <-> Z.land p 0x20 = 0x20) /\
  (In "extended_props" flags <-> Z.land p 0x80 = 0x80) /\
  (In "reliable_write" flags <-> Z.testbit p 0 = true /\ Z.testbit p 8 = true) /\
  flags = List.filter (fun f => bool_decide (f ∈ flags)) capability_order /\
  properties (Characteristic_init id h 0x12) = ["read"; "notify"].
Proof.
  cbn zeta. cbn [properties Characteristic_init].
  assert (Hin : forall f, In f (decode_properties p) <->
                          In f capability_order /\ capability_set p f = true).
  { intros f. rewrite decode_properties_table. apply filter_In. }
  assert (Hbit : forall k, 0 <= k ->
            Z.land p (2 ^ k) = 2 ^ k <-> Z.testbit p k = true).
  { intros k Hk. rewrite <- (land_single_bit p k Hk). symmetry. apply Z.eqb_eq. }
  repeat split.
  - intros H. apply Hin in H as [_ H]. by apply (Hbit 1).
  - intros H. apply Hin. split; [simpl; tauto|]. by apply (Hbit 1) in H.
  - intros H. apply Hin in H as [_ H]. by apply (Hbit 2).
  - intros H. apply Hin. split; [simpl; tauto|]. by apply (Hbit 2) in H.
  - intros H. apply Hin in H as [_ H]. by apply (Hbit 3).
  - intros H. apply Hin. split; [simpl; tauto|]. by apply (Hbit 3) in H.
  - intros H. apply Hin in H as [_ H]. by apply (Hbit 4).
  - intros H. apply Hin. split; [simpl; tauto|]. by apply (Hbit 4) in H.
  - intros H. apply Hin in H as [_ H]. by apply (Hbit 5).
  - intros H. apply Hin. split; [simpl; tauto|]. by apply (Hbit 5) in H.
  - intros H. apply Hin in H as [_ H]. by apply (Hbit 7).
  - intros H. apply Hin. split; [simpl; tauto|]. by apply (Hbit 7) in H.
  - apply Hin in H as [_ H].
    change (capability_set p "reliable_write")
      with (Z.testbit p 0 && Z.testbit p 8)%bool in H.
    by apply andb_true_iff in H as [H _].
  - apply Hin in H as [_ H].
    change (capability_set p "reliable_write")
      with (Z.testbit p 0 && Z.testbit p 8)%bool in H.
    by apply andb_true_iff in H as [_ H].
  - intros [H0 H8]. apply Hin. split; [simpl; tauto|].
    change (capability_set p "reliable_write")
      with (Z.testbit p 0 && Z.testbit p 8)%bool.
    by rewrite H0, H8.
  - rewrite decode_properties_table at 1.
    apply filter_ext_in. intros f Hf.
    destruct (capability_set p f) eqn:E.
    + symmetry. apply bool_decide_eq_true. apply list_elem_of_In, Hin. done.
    + symmetry. apply bool_decide_eq_false. intros H.
      apply list_elem_of_In, Hin in H as [_ H]. congruence.
Qed.

(** ** The radio-chip backend: event dispatch *)

Lemma operation_at_store (self : SilabsAccessPoint) (id j : nat)
    (op : Operation) (pubs : list Publication) :
  operation_at (store self id op pubs) j =
    if decide (id = j /\ (id < length (heap self))%nat) then op
    else operation_at self j.
Proof.
  unfold operation_at, store; cbn [heap].
  rewrite list_lookup_insert. by case_decide.
Qed.

Lemma operation_at_store_ne (self : SilabsAccessPoint) (id j : nat)
    (op : Operation) (pubs : list Publication) :
  id <> j -> operation_at (store self id op pubs) j = operation_at self j.
Proof. intros H. rewrite operation_at_store. case_decide; [tauto | done]. Qed.

Lemma operation_at_issue (self : SilabsAccessPoint) (c : Command) (j : nat) :
  operation_at (issue self c) j = operation_at self j.
Proof. done. Qed.

Lemma operation_at_new (self : SilabsAccessPoint) (c : OperationClass) :
  operation_at (snd (new_operation self c)) (fst (new_operation self c))
    = Operation_init c.
Proof.
  unfold operation_at, new_operation; cbn [fst snd heap].
  by rewrite list_lookup_middle.
Qed.

(** A property of one object that every handler keeps is kept by the first
    loop of [event_handler]. *)
Lemma dispatch_cell (P : Operation -> Prop) (evt : Event) (j : nat) :
  (forall op op' pubs, P op -> handle_event op evt = inr (op', pubs) -> P op') ->
  forall ids self remove_ops oe self' remove_ops',
    P (operation_at self j) ->
    dispatch ids evt self remove_ops = (oe, self', remove_ops') ->
    P (operation_at self' j).
Proof.
  intros Hstep. induction ids as [|id ids IH]; intros self rm oe self' rm' HP Hd.
  - cbn in Hd. by inversion Hd; subst.
  - cbn [dispatch] in Hd.
    destruct (handle_event (operation_at self id) evt) as [e|[op' pubs]] eqn:Eh.
    + by inversion Hd; subst.
    + eapply IH; [|exact Hd]. rewrite operation_at_store.
      case_decide as Hc; [|done]. destruct Hc as [-> _]. eauto.
Qed.

(** The first loop touches the objects and the publications only. *)
Lemma dispatch_frame (evt : Event) :
  forall ids self remove_ops oe self' remove_ops',
    dispatch ids evt self remove_ops = (oe, self', remove_ops') ->
    conn_reqs self' = conn_reqs self /\ commands self' = commands self /\
    operations self' = operations self /\ ready self' = ready self /\
    length (heap self') = length (heap self).
Proof.
  induction ids as [|id ids IH]; intros self rm oe self' rm' Hd.
  - cbn in Hd. by inversion Hd; subst.
  - cbn [dispatch] in Hd.
    destruct (handle_event (operation_at self id) evt) as [e|[op' pubs]] eqn:Eh.
    + by inversion Hd; subst.
    + apply IH in Hd as (H1 & H2 & H3 & H4 & H5). cbn in *.
      rewrite length_insert in H5. done.
Qed.

Lemma event_handler_heap (self : SilabsAccessPoint) (evt : Event) oe self' :
  event_handler self evt = (oe, self') ->
  exists remove_ops self1,
    dispatch (operations self) evt self [] = (oe, self1, remove_ops) /\
    heap self' = heap self1 /\ published self' = published self1 /\
    commands self' = commands self.
Proof.
  unfold event_handler. intros H.
  destruct (dispatch (operations self) evt self []) as [[[e|] self1] rm] eqn:Ed.
  - inversion H; subst. exists rm, self'. repeat split; try done.
    by apply dispatch_frame in Ed as (_ & ? & _).
  - inversion H; subst. exists rm, self1. split; [done|].
    apply dispatch_frame in Ed as (_ & Hc & _).
    destruct evt; cbn; try done.
    unfold bt_evt_connection_closed_handler.
    by destruct (address_of_handle _ _).
Qed.

Lemma event_handler_cell (P : Operation -> Prop) (evt : Event) (j : nat)
    (self : SilabsAccessPoint) oe self' :
  (forall op op' pubs, P op -> handle_event op evt = inr (op', pubs) -> P op') ->
  P (operation_at self j) ->
  event_handler self evt = (oe, self') ->
  P (operation_at self' j).
Proof.
  intros Hstep HP H.
  apply event_handler_heap in H as (rm & self1 & Hd & Hh & _).
  unfold operation_at. rewrite Hh.
  eapply (dispatch_cell P evt j Hstep) in Hd; eauto.
Qed.

Lemma event_handler_commands (self : SilabsAccessPoint) (evt : Event) oe self' :
  event_handler self evt = (oe, self') -> commands self' = commands self.
Proof. intros H. by apply event_handler_heap in H as (? & ? & _ & _ & _ & ?). Qed.

(** The registry after an event: only a link-closed event changes it, by
    removing the first connection with the handle of the event. *)
Lemma event_handler_conn_reqs (self : SilabsAccessPoint) (evt : Event) oe self' :
  event_handler self evt = (oe, self') ->
  conn_reqs self' =
    match oe, evt with
    | None, bt_evt_connection_closed connection _ =>
        match address_of_handle (conn_reqs self) connection with
        | Some address => dict_pop (conn_reqs self) address
        | None => conn_reqs self
        end
    | _, _ => conn_reqs self
    end.
Proof.
  unfold event_handler. intros H.
  destruct (dispatch (operations self) evt self []) as [[[e|] self1] rm] eqn:Ed;
    apply dispatch_frame in Ed as (Hc & _); inversion H; subst; [done|].
  destruct evt; cbn; try done.
  unfold bt_evt_connection_closed_handler. cbn. rewrite Hc.
  by destruct (address_of_handle _ _).
Qed.

(** How a blocked caller resumes: a property [Q] of its operation that all
    handlers keep holds when it does, and it was released either by the
    expiry of a bounded wait or by an event whose handling raised the
    operation's signal count. *)
Lemma block_resumed (Q : Operation -> Prop) (bounded : bool) (id : nat) :
  (forall evt op op' pubs, Q op -> handle_event op evt = inr (op', pubs) -> Q op') ->
  forall stimuli self self' rest,
    Q (operation_at self id) ->
    block bounded id self stimuli = Resumed self' rest ->
    Q (operation_at self' id) /\
    ((bounded = true /\ exists pre, stimuli = pre ++ WaitTimeout :: rest) \/
     (exists pre evt self0,
        stimuli = pre ++ Deliver evt :: rest /\
        Q (operation_at self0 id) /\
        event_handler self0 evt = (None, self') /\
        (signals (operation_at self0 id) < signals (operation_at self' id))%nat)).
Proof.
  intros Hstep. induction stimuli as [|s stimuli IH]; intros self self' rest HQ Hb.
  - done.
  - destruct s as [evt|]; cbn [block] in Hb.
    + destruct (event_handler self evt) as [[e|] self1] eqn:Eh; [done|].
      assert (HQ1 : Q (operation_at self1 id)).
      { eapply event_handler_cell; [| exact HQ | exact Eh]. eauto. }
      destruct (signals (operation_at self id) <? signals (operation_at self1 id))%nat
        eqn:Es.
      * inversion Hb; subst. split; [done|]. right.
        exists [], evt, self. repeat split; try done.
        by apply Nat.ltb_lt.
      * apply IH in Hb as [HQ' Hcase]; [|done]. split; [done|].
        destruct Hcase as [[Hbd [pre ->]] | (pre & evt' & self0 & -> & ?)].
        -- left. split; [done|]. by exists (Deliver evt :: pre).
        -- right. by exists (Deliver evt :: pre), evt', self0.
    + destruct bounded.
      * inversion Hb; subst. split; [done|]. left. split; [done|]. by exists [].
      * apply IH in Hb as [HQ' Hcase]; [|done]. split; [done|].
        destruct Hcase as [[Hbd _] | (pre & evt' & self0 & -> & ?)]; [done|].
        right. by exists (WaitTimeout :: pre), evt', self0.
Qed.

Lemma block_commands (bounded : bool) (id : nat) :
  forall stimuli self,
    match block bounded id self stimuli with
    | Resumed self' _ | Stuck self' => commands self' = commands self
    end.
Proof.
  induction stimuli as [|s stimuli IH]; intros self; cbn [block]; [done|].
  destruct s as [evt|].
  - destruct (event_handler self evt) as [[e|] self1] eqn:Eh;
      apply event_handler_commands in Eh; [done|].
    destruct (_ <? _)%nat; [done|].
    specialize (IH self1). destruct (block bounded id self1 stimuli); congruence.
  - destruct bounded; [done | apply IH].
Qed.

(** ** Reads and writes on the radio-chip backend *)

Lemma write_handler_keeps (w : WriteOperation.t) evt op op' pubs :
  is_write_of w op -> handle_event op evt = inr (op', pubs) -> is_write_of w op'.
Proof.
  unfold is_write_of, handle_event. intros Hc H. rewrite Hc in H.
  inversion H; subst. clear H.
  unfold WriteOperation_handle_event. destruct evt; try done.
  by destruct (_ =? _).
Qed.

(** Only the procedure-completed event of its connection signals a write. *)
Lemma write_handler_signals (w : WriteOperation.t) evt op op' pubs :
  is_write_of w op -> handle_event op evt = inr (op', pubs) ->
  signals op' = signals op \/
  exists result, evt = bt_evt_gatt_procedure_completed (WriteOperation.handle w) result.
Proof.
  unfold is_write_of, handle_event. intros Hc H. rewrite Hc in H.
  inversion H; subst. clear H.
  unfold WriteOperation_handle_event. destruct evt; auto.
  destruct (WriteOperation.handle w =? connection) eqn:E; [|auto].
  apply Z.eqb_eq in E. subst. eauto.
Qed.

Lemma write_signal_cause (w : WriteOperation.t) (self self' : SilabsAccessPoint)
    (evt : Event) (id : nat) :
  is_write_of w (operation_at self id) ->
  event_handler self evt = (None, self') ->
  (signals (operation_at self id) < signals (operation_at self' id))%nat ->
  exists result, evt = bt_evt_gatt_procedure_completed (WriteOperation.handle w) result.
Proof.
  intros Hw Heh Hlt.
  eapply (event_handler_cell
            (fun op => is_write_of w op /\
               (signals op = signals (operation_at self id) \/
                exists result,
                  evt = bt_evt_gatt_procedure_completed (WriteOperation.handle w) result))
            evt id)
    in Heh.
  - destruct Heh as [_ [Hs|Hr]]; [lia | done].
  - intros op op' pubs [Hc Hs] Hh. split; [by eapply write_handler_keeps|].
    destruct Hs as [Hs|Hs]; [|by right].
    destruct (write_handler_signals w evt op op' pubs Hc Hh) as [H|H]; [|by right].
    left. congruence.
  - auto.
Qed.

Lemma read_handler_keeps (h ch : Z) evt op op' pubs :
  is_read_of h ch op -> handle_event op evt = inr (op', pubs) -> is_read_of h ch op'.
Proof.
  unfold is_read_of, handle_event. intros (r & Hc & Hh & Hch) H.
  rewrite Hc in H. inversion H; subst.
  unfold ReadOperation_handle_event. destruct evt; eauto.
  - destruct (_ =? _); eauto.
  - destruct (_ && _)%bool; eauto.
Qed.

Lemma read_value_from_keeps (h ch : Z) evt n op op' pubs :
  read_value_from h ch evt n op -> handle_event op evt = inr (op', pubs) ->
  read_value_from h ch evt n op'.
Proof.
  unfold read_value_from, handle_event.
  intros (r & Hc & Hh & Hch & Hs) H. rewrite Hc in H. inversion H; subst.
  clear H. unfold ReadOperation_handle_event. destruct evt; eauto 10.
  - destruct (_ =? _); [|eauto 10]. exists r. repeat split; try done.
  - destruct (ReadOperation.handle r =? connection) eqn:E1;
      [|cbn; eauto 10].
    destruct (ReadOperation.char_handle r =? characteristic) eqn:E2;
      [|cbn; eauto 10].
    destruct (att_opcode =? ATT_OPCODE_READ_RESPONSE) eqn:E3;
      [|cbn; eauto 10].
    cbn. apply Z.eqb_eq in E1, E2, E3. subst.
    eexists. split; [done|]. cbn. repeat split. right. split; [done|]. eauto.
Qed.

(** On the radio-chip backend a write response, always with
    [success=true], is returned only after a procedure-completed event of
    the connection has been handled, and after the write command; issuing
    the command alone never makes the call return. On the host-stack
    backend [write] never returns a response at all: every path ends in
    [BleWriteError]. *)
Lemma write_returns_after_completion :
  (forall self address service_uuid char_uuid value stimuli response self' rest,
     write self address service_uuid char_uuid value stimuli
       = (Returned response, self', rest) ->
     WriteResponse.success response = true /\
     exists conn_req characteristic pre result,
       get_connection (conn_reqs self) address = Some conn_req /\
       lookup_characteristic self conn_req service_uuid char_uuid = inr characteristic /\
       commands self' =
         commands self ++
           [write_characteristic_value (ConnectionRequest.handle conn_req)
              (char_handle characteristic) value] /\
       stimuli =
         pre ++
           Deliver (bt_evt_gatt_procedure_completed
                      (ConnectionRequest.handle conn_req) result) :: rest) /\
  (forall bytes_fromhex self address service_uuid char_uuid value reply response,
     fst (Bluez.write bytes_fromhex self address service_uuid char_uuid value reply)
       <> Returned response).
Proof.
  split.
  - intros self address service_uuid char_uuid value stimuli response self' rest.
    unfold write, get_connection.
    destruct (dict_get (conn_reqs self) address) as [conn_req|]; [|done].
    destruct (lookup_characteristic self conn_req service_uuid char_uuid)
      as [e|characteristic] eqn:Elook; [done|].
    set (w := WriteOperation.mk (ConnectionRequest.handle conn_req)
                (char_handle characteristic) value).
    pose proof (operation_at_new self (Write w)) as Hnew.
    destruct (new_operation self (Write w)) as [id self1] eqn:Enew.
    cbn [fst snd] in Hnew.
    assert (Hc1 : commands self1 = commands self).
    { unfold new_operation in Enew. by inversion Enew. }
    unfold WriteOperation_run. rewrite Hnew. cbn [class Operation_init].
    unfold wait. rewrite operation_at_issue, Hnew. cbn [flag Operation_init].
    set (self2 := issue self1 _).
    pose proof (block_commands false id stimuli self2) as Hcmd.
    destruct (block false id self2 stimuli) as [self3 rest3|self3] eqn:Eb; [|done].
    intros H. inversion H; subst. split; [done|].
    apply (block_resumed (is_write_of w)) in Eb as [_ Hcase].
    + destruct Hcase as [[? _]|(pre & evt & self0 & -> & Hw0 & Heh & Hlt)]; [done|].
      destruct (write_signal_cause w self0 self' evt id Hw0 Heh Hlt) as [result ->].
      exists conn_req, characteristic, pre, result. repeat split; try done.
      rewrite Hcmd. subst self2. cbn. by rewrite Hc1.
    + intros evt op op' pubs. apply write_handler_keeps.
    + subst self2. rewrite operation_at_issue, Hnew. done.
  - intros bytes_fromhex self address service_uuid char_uuid value reply response.
    unfold Bluez.write.
    destruct (_ || _)%bool; [done|].
    destruct (bytes_fromhex value); [done|].
    destruct reply; done.
Qed.

(** C10: a read on the radio-chip backend that returns gives a response
    whose address is the decimal rendering of the connection handle, whose
    service and characteristic identifiers are empty, and whose value is the
    value of a read-response event received for that connection and
    characteristic; the response of a read operation that was not signalled
    carries no value. *)
Theorem C10_read_response_fields :
  (forall self address service_uuid char_uuid stimuli response self' rest,
     read self address service_uuid char_uuid stimuli
       = (Returned response, self', rest) ->
     exists conn_req characteristic v,
       get_connection (conn_reqs self) address = Some conn_req /\
       lookup_characteristic self conn_req service_uuid char_uuid = inr characteristic /\
       response =
         ReadResponse.mk (str_of_int (ConnectionRequest.handle conn_req)) "" ""
           (Some v) /\
       In (Deliver (bt_evt_gatt_characteristic_value
                      (ConnectionRequest.handle conn_req)
                      (char_handle characteristic) ATT_OPCODE_READ_RESPONSE v))
          stimuli) /\
  (forall op r,
     flag op = false ->
     ReadOperation_response op r =
       ReadResponse.mk (str_of_int (ReadOperation.handle r)) "" "" None).
Proof.
  split.
  - intros self address service_uuid char_uuid stimuli response self' rest.
    unfold read, get_connection.
    destruct (dict_get (conn_reqs self) address) as [conn_req|]; [|done].
    destruct (lookup_characteristic self conn_req service_uuid char_uuid)
      as [e|characteristic] eqn:Elook; [done|].
    set (h := ConnectionRequest.handle conn_req).
    set (ch := char_handle characteristic).
    set (r0 := ReadOperation.mk h ch None).
    pose proof (operation_at_new self (Read r0)) as Hnew.
    destruct (new_operation self (Read r0)) as [id self1] eqn:Enew.
    cbn [fst snd] in Hnew.
    unfold ReadOperation_run. rewrite Hnew. cbn [class Operation_init].
    unfold wait. rewrite operation_at_issue, Hnew. cbn [flag Operation_init].
    set (self2 := issue self1 _).
    destruct (block false id self2 stimuli) as [self3 rest3|self3] eqn:Eb; [|done].
    apply (block_resumed (is_read_of h ch)) in Eb as [_ Hcase].
    + destruct Hcase as [[? _]|(pre & evt & self0 & -> & Hr0 & Heh & Hlt)]; [done|].
      eapply (event_handler_cell
                (read_value_from h ch evt (signals (operation_at self0 id))) evt id)
        in Heh as (r & Hc & Hh & Hch & Hs).
      * destruct Hs as [Hs|(Hf & v & Hv & ->)]; [lia|].
        rewrite Hc. intros H. inversion H; subst.
        exists conn_req, characteristic, v. repeat split; try done.
        -- unfold ReadOperation_response. rewrite Hf, Hv, Hh. done.
        -- apply in_or_app. right. by left.
      * intros op op' pubs. apply read_value_from_keeps.
      * destruct Hr0 as (r & Hc & Hh & Hch). exists r. auto.
    + intros evt op op' pubs. apply read_handler_keeps.
    + subst self2. rewrite operation_at_issue, Hnew. by exists r0.
  - intros op r Hf. unfold ReadOperation_response. by rewrite Hf.
Qed.

(** ** A registered connection stays until its link is closed *)

Lemma dict_get_In {V : Type} (d : dict V) (k : string) (v : V) :
  NoDup (dict_keys d) -> In (k, v) d -> dict_get d k = Some v.
Proof.
  induction d as [|[k0 v0] d IH]; simpl; [done|].
  rewrite NoDup_cons. intros [Hnotin Hnd] [Heq|Hin].
  - inversion Heq; subst. by rewrite String.eqb_refl.
  - destruct (String.eqb_spec k0 k) as [->|Hne]; [|auto].
    exfalso. apply Hnotin. apply list_elem_of_In.
    change k with (fst (k, v)). by apply in_map.
Qed.

Lemma address_of_handle_In (d : dict ConnectionRequest.t) (c : Z) (a : string) :
  address_of_handle d c = Some a ->
  exists conn_req, In (a, conn_req) d /\ ConnectionRequest.handle conn_req = c.
Proof.
  induction d as [|[a0 cr0] d IH]; simpl; [done|].
  destruct (ConnectionRequest.handle cr0 =? c) eqn:E.
  - intros H. inversion H; subst. apply Z.eqb_eq in E. eauto.
  - intros H. destruct (IH H) as (cr & Hin & Hh). eauto.
Qed.

Lemma address_of_handle_None (d : dict ConnectionRequest.t) (c : Z) :
  address_of_handle d c = None <->
  forall a conn_req, In (a, conn_req) d -> ConnectionRequest.handle conn_req <> c.
Proof.
  induction d as [|[a0 cr0] d IH]; simpl; [split; [intros _ ? ? []|done]|].
  destruct (ConnectionRequest.handle cr0 =? c) eqn:E.
  - apply Z.eqb_eq in E. split; [done|]. intros H. exfalso. by eapply H; [left|].
  - apply Z.eqb_neq in E. rewrite IH. split.
    + intros H a cr [Heq|Hin]; [by inversion Heq; subst | eauto].
    + intros H a cr Hin. eauto.
Qed.

Section Link.
Variables (A : string) (h : Z).

Lemma event_handler_link self evt oe self' :
  holds_link A h self -> quiet h (Deliver evt) ->
  event_handler self evt = (oe, self') -> holds_link A h self'.
Proof.
  intros [Hnd (cr & Hget & Hh)] Hq Heh.
  apply event_handler_conn_reqs in Heh. unfold holds_link. rewrite Heh.
  destruct oe; [by eauto|]. destruct evt; try by eauto.
  destruct (address_of_handle (conn_reqs self) connection) as [B|] eqn:Ea;
    [|by eauto].
  split; [by apply dict_keys_pop_NoDup|].
  exists cr. split; [|done]. unfold get_connection in *.
  rewrite dict_get_pop_ne; [done|]. intros ->.
  apply address_of_handle_In in Ea as (cr' & Hin & Hh').
  rewrite (dict_get_In _ _ _ Hnd Hin) in Hget. inversion Hget; subst cr'.
  apply (Hq reason). congruence.
Qed.

Lemma block_link bounded id stimuli :
  forall self, holds_link A h self -> Forall (quiet h) stimuli ->
  wait_keeps_link A h (block bounded id self stimuli).
Proof.
  induction stimuli as [|s stimuli IH]; intros self Hl Hq; cbn [block]; [done|].
  apply Forall_cons in Hq as [Hs Hq].
  destruct s as [evt|].
  - destruct (event_handler self evt) as [[e|] self1] eqn:Eh;
      pose proof (event_handler_link _ _ _ _ Hl Hs Eh); [done|].
    destruct (_ <? _)%nat; [done | by apply IH].
  - destruct bounded; [done | by apply IH].
Qed.

Lemma wait_link bounded id stimuli self :
  holds_link A h self -> Forall (quiet h) stimuli ->
  wait_keeps_link A h (wait bounded id self stimuli).
Proof.
  intros Hl Hq. unfold wait. destruct (flag _); [done | by apply block_link].
Qed.

Lemma next_service_registry id pos size self :
  step_keeps_registry self (next_service id pos size self).
Proof.
  unfold next_service. destruct (negb _); [done|].
  destruct (_ !! pos) as [[? sref]|]; [|done].
  by destruct (_ !! sref).
Qed.

Lemma next_characteristic_registry id pos size sref cpos csize self :
  step_keeps_registry self (next_characteristic id pos size sref cpos csize self).
Proof.
  unfold next_characteristic. destruct (_ !! sref); [|done].
  destruct (negb _); [done|].
  destruct (_ !! cpos) as [[? cref]|]; [|apply next_service_registry].
  by destruct (_ !! cref).
Qed.

Lemma resume_registry id frame self :
  step_keeps_registry self (resume id frame self).
Proof.
  unfold resume. destruct (DiscoverOperation.result _); [|done].
  destruct (negb _); [done|]. destruct frame.
  - apply next_service_registry.
  - destruct (_ !! service); [apply next_characteristic_registry | done].
  - apply next_characteristic_registry.
Qed.

Lemma drive_link stimuli :
  forall id frame self, holds_link A h self -> Forall (quiet h) stimuli ->
  call_keeps_link A h (drive id frame self stimuli).
Proof.
  induction stimuli as [|s stimuli IH]; intros id frame self Hl Hq;
    cbn [drive]; [done|].
  apply Forall_cons in Hq as [Hs Hq].
  destruct s as [evt|]; [|by apply IH].
  destruct (event_handler self evt) as [[e|] self1] eqn:Eh;
    pose proof (event_handler_link _ _ _ _ Hl Hs Eh) as Hl1; [by split|].
  destruct (_ <? _)%nat; [|by apply IH].
  pose proof (resume_registry id frame self1) as Hr.
  destruct (resume id frame self1) as [frame' self2|self2|e self2];
    cbn in Hr; unfold holds_link in Hl1; rewrite <- Hr in Hl1.
  - by apply IH.
  - by split.
  - by split.
Qed.
End Link.

Section LinkCalls.
Variables (A : string) (h : Z).

Lemma holds_link_registry self self' :
  conn_reqs self' = conn_reqs self -> holds_link A h self -> holds_link A h self'.
Proof. unfold holds_link. by intros ->. Qed.

Lemma new_operation_registry self c :
  conn_reqs (snd (new_operation self c)) = conn_reqs self.
Proof. done. Qed.

Ltac run_link :=
  let c := fresh "c" in
  intros ? ?; match goal with |- wait_keeps_link _ _ (?f _ _ _) => unfold f end;
  destruct (class _) as [c|c|c|c|c|c|]; try done;
  apply wait_link; done.

Lemma ConnectOperation_run_link id self stimuli :
  holds_link A h self -> Forall (quiet h) stimuli ->
  wait_keeps_link A h (ConnectOperation_run id self stimuli).
Proof. run_link. Qed.

Lemma DisconnectOperation_run_link id self stimuli :
  holds_link A h self -> Forall (quiet h) stimuli ->
  wait_keeps_link A h (DisconnectOperation_run id self stimuli).
Proof. run_link. Qed.

Lemma ReadOperation_run_link id self stimuli :
  holds_link A h self -> Forall (quiet h) stimuli ->
  wait_keeps_link A h (ReadOperation_run id self stimuli).
Proof. run_link. Qed.

Lemma WriteOperation_run_link id self stimuli :
  holds_link A h self -> Forall (quiet h) stimuli ->
  wait_keeps_link A h (WriteOperation_run id self stimuli).
Proof. run_link. Qed.

Lemma SubscribeOperation_run_link id self stimuli :
  holds_link A h self -> Forall (quiet h) stimuli ->
  wait_keeps_link A h (SubscribeOperation_run id self stimuli).
Proof. run_link. Qed.

Lemma connect_link max self B options retries stimuli :
  holds_link A h self -> Forall (quiet h) stimuli ->
  call_keeps_link A h (connect max self B options retries stimuli).
Proof.
  intros Hl Hq. unfold connect.
  destruct (negb _); [done|].
  destruct (dict_mem (conn_reqs self) B) eqn:Em; [done|].
  destruct (new_operation self _) as [id self1] eqn:En.
  assert (Hl1 : holds_link A h self1).
  { eapply holds_link_registry; [|exact Hl].
    unfold new_operation in En. by inversion En. }
  pose proof (ConnectOperation_run_link id self1 stimuli Hl1 Hq) as Hw.
  destruct (ConnectOperation_run id self1 stimuli) as [self2 rest|self2];
    [|by split].
  destruct Hw as [Hl2 Hq2].
  destruct (negb _); [done|].
  destruct (Operation_handle _) as [handle|]; [|done].
  split; [|done]. cbn. destruct Hl2 as [Hnd (cr & Hget & Hh)].
  split; cbn; [by apply dict_keys_set_NoDup|].
  exists cr. split; [|done]. unfold get_connection in *.
  rewrite dict_get_set_ne; [done|]. intros ->.
  destruct Hl as [_ (cr0 & Hget0 & _)]. unfold get_connection, dict_mem in *.
  by rewrite Hget0 in Em.
Qed.

Lemma discover_link self B options retries stimuli :
  holds_link A h self -> Forall (quiet h) stimuli ->
  call_keeps_link A h (discover self B options retries stimuli).
Proof.
  intros Hl Hq. unfold discover.
  destruct (dict_get (conn_reqs self) B) as [cr0|]; [|done].
  destruct (new_operation self _) as [id self1] eqn:En.
  assert (Hl1 : holds_link A h self1).
  { eapply holds_link_registry; [|exact Hl].
    unfold new_operation in En. by inversion En. }
  unfold DiscoverOperation_run.
  pose proof (drive_link A h stimuli id AwaitServices
                (issue self1
                   (discover_primary_services
                      (DiscoverOperation.handle (discover_at self1 id))))
                Hl1 Hq) as Hd.
  destruct (drive _ _ _ _) as [[[[]|e|] self2] rest]; try done.
  destruct Hd as [Hl2 Hq2]. cbn [fst snd] in Hl2, Hq2.
  destruct (dict_get (conn_reqs self2) B) as [cr|] eqn:Eg; [|done].
  split; [|done]. cbn. destruct Hl2 as [Hnd (crA & Hget & Hh)].
  split; cbn; [by apply dict_keys_set_NoDup|]. unfold get_connection in *.
  destruct (String.eqb_spec B A) as [->|Hne].
  - rewrite dict_get_set_eq. eexists. split; [done|]. cbn. congruence.
  - rewrite dict_get_set_ne by done. eauto.
Qed.

Lemma read_link self B service_uuid char_uuid stimuli :
  holds_link A h self -> Forall (quiet h) stimuli ->
  call_keeps_link A h (read self B service_uuid char_uuid stimuli).
Proof.
  intros Hl Hq. unfold read.
  destruct (dict_get (conn_reqs self) B) as [cr0|]; [|done].
  destruct (lookup_characteristic _ _ _ _); [done|].
  destruct (new_operation self _) as [id self1] eqn:En.
  assert (Hl1 : holds_link A h self1).
  { eapply holds_link_registry; [|exact Hl].
    unfold new_operation in En. by inversion En. }
  pose proof (ReadOperation_run_link id self1 stimuli Hl1 Hq) as Hw.
  destruct (ReadOperation_run id self1 stimuli) as [self2 rest|self2];
    [|by split].
  destruct Hw. by destruct (class _).
Qed.

Lemma write_link self B service_uuid char_uuid value stimuli :
  holds_link A h self -> Forall (quiet h) stimuli ->
  call_keeps_link A h (write self B service_uuid char_uuid value stimuli).
Proof.
  intros Hl Hq. unfold write.
  destruct (dict_get (conn_reqs self) B) as [cr0|]; [|done].
  destruct (lookup_characteristic _ _ _ _); [done|].
  destruct (new_operation self _) as [id self1] eqn:En.
  assert (Hl1 : holds_link A h self1).
  { eapply holds_link_registry; [|exact Hl].
    unfold new_operation in En. by inversion En. }
  pose proof (WriteOperation_run_link id self1 stimuli Hl1 Hq) as Hw.
  destruct (WriteOperation_run id self1 stimuli) as [self2 rest|self2];
    [|by split].
  by destruct Hw.
Qed.

Lemma subscribe_link self B service_uuid char_uuid stimuli :
  holds_link A h self -> Forall (quiet h) stimuli ->
  call_keeps_link A h (subscribe self B service_uuid char_uuid stimuli).
Proof.
  intros Hl Hq. unfold subscribe.
  destruct (dict_get (conn_reqs self) B) as [cr0|]; [|done].
  destruct (lookup_characteristic _ _ _ _); [done|].
  destruct (new_operation self _) as [id self1] eqn:En.
  assert (Hl1 : holds_link A h self1).
  { eapply holds_link_registry; [|exact Hl].
    unfold new_operation in En. by inversion En. }
  pose proof (SubscribeOperation_run_link id self1 stimuli Hl1 Hq) as Hw.
  destruct (SubscribeOperation_run id self1 stimuli) as [self2 rest|self2];
    [|by split].
  by destruct Hw.
Qed.

Lemma unsubscribe_link self B service_uuid char_uuid stimuli :
  holds_link A h self -> Forall (quiet h) stimuli ->
  call_keeps_link A h (unsubscribe self B service_uuid char_uuid stimuli).
Proof.
  intros Hl Hq. unfold unsubscribe.
  destruct (dict_get (conn_reqs self) B) as [cr0|]; [|done].
  destruct (lookup_characteristic _ _ _ _); [done|].
  destruct (find_subscription _ _ _ _) as [e|[id|]]; try done.
  split; [|done]. cbn [fst snd]. eapply holds_link_registry; [|exact Hl].
  unfold disable_notification. by destruct (class _).
Qed.

Lemma disconnect_link self B stimuli :
  holds_link A h self -> Forall (quiet h) stimuli ->
  call_keeps_link A h (disconnect self B stimuli).
Proof.
  intros Hl Hq. unfold disconnect.
  destruct (dict_get (conn_reqs self) B) as [cr0|]; [|done].
  destruct (new_operation self _) as [id self1] eqn:En.
  assert (Hl1 : holds_link A h self1).
  { eapply holds_link_registry; [|exact Hl].
    unfold new_operation in En. by inversion En. }
  pose proof (DisconnectOperation_run_link id self1 stimuli Hl1 Hq) as Hw.
  destruct (DisconnectOperation_run id self1 stimuli) as [self2 rest|self2];
    [|by split].
  destruct Hw. by destruct (negb _).
Qed.

(** No request and no event other than the link-closed event of [h]
    ends the registration; a disconnect only does through that event. *)
Lemma run_link max actions :
  forall self stimuli,
    holds_link A h self -> Forall (quiet h) stimuli ->
    holds_link A h (fst (run max actions self stimuli)).
Proof.
  induction actions as [|a actions IH]; intros self stimuli Hl Hq;
    cbn [run]; [done|].
  destruct a as [req|].
  - destruct (perform max self req stimuli) as [self' rest] eqn:Ep.
    assert (holds_link A h self' /\ Forall (quiet h) rest) as [Hl' Hq'].
    { destruct req; cbn [perform] in Ep; unfold state_of in Ep;
        inversion Ep; subst.
      - by apply connect_link.
      - by apply discover_link.
      - by apply read_link.
      - by apply write_link.
      - by apply subscribe_link.
      - by apply unsubscribe_link.
      - by apply disconnect_link. }
    by apply IH.
  - destruct stimuli as [|[evt|] rest]; [by apply IH| |].
    + apply Forall_cons in Hq as [Hs Hq]. apply IH; [|done].
      destruct (event_handler self evt) as [oe self'] eqn:Eh.
      by eapply event_handler_link.
    + apply Forall_cons in Hq as [_ Hq]. by apply IH.
Qed.
End LinkCalls.

Lemma event_handler_wf self evt oe self' :
  registry_wf self -> event_handler self evt = (oe, self') -> registry_wf self'.
Proof.
  unfold registry_wf. intros Hnd Heh.
  apply event_handler_conn_reqs in Heh. rewrite Heh.
  destruct oe; [done|]. destruct evt; try done.
  destruct (address_of_handle _ _); [by apply dict_keys_pop_NoDup | done].
Qed.

Lemma block_wf bounded id stimuli :
  forall self, registry_wf self ->
  match block bounded id self stimuli with
  | Resumed self' _ | Stuck self' => registry_wf self'
  end.
Proof.
  induction stimuli as [|s stimuli IH]; intros self Hwf; cbn [block]; [done|].
  destruct s as [evt|].
  - destruct (event_handler self evt) as [[e|] self1] eqn:Eh;
      pose proof (event_handler_wf _ _ _ _ Hwf Eh); [done|].
    destruct (_ <? _)%nat; [done | by apply IH].
  - destruct bounded; [done | by apply IH].
Qed.

Lemma connect_refused max self A options retries stimuli :
  dict_mem (conn_reqs self) A = true ->
  exists msg,
    connect max self A options retries stimuli
      = (Raised (BleConnectionError msg), self, stimuli).
Proof.
  intros Hm. unfold connect. destruct (negb _); [by eauto|].
  rewrite Hm. by eauto.
Qed.

Lemma mock_perform_keeps (self : Mock.MockAccessPoint) (req : Request)
    (A : string) (conn_req : ConnectionRequest.t) :
  is_disconnect_of A req = false ->
  get_connection (Mock.conn_reqs self) A = Some conn_req ->
  get_connection (Mock.conn_reqs (Mock.perform self req)) A = Some conn_req.
Proof.
  unfold get_connection. intros Hreq Hget.
  destruct req; cbn [Mock.perform].
  - unfold Mock.connect. cbn [Mock.connectable negb].
    destruct (dict_mem (Mock.conn_reqs self) address) eqn:Em; [done|].
    cbn. rewrite dict_get_set_ne; [done|]. intros ->.
    unfold dict_mem in Em. by rewrite Hget in Em.
  - unfold Mock.discover. by destruct (negb _).
  - unfold Mock.read. destruct (negb _); [done|]. by destruct (_ || _)%bool.
  - unfold Mock.write. by destruct (negb _).
  - unfold Mock.subscribe. destruct (negb _); [done|]. by destruct (bool_decide _).
  - unfold Mock.unsubscribe. by destruct (negb _).
  - unfold Mock.disconnect. destruct (negb _); [done|]. cbn.
    rewrite dict_get_pop_ne; [done|]. intros ->.
    cbn in Hreq. by rewrite String.eqb_refl in Hreq.
Qed.

Lemma mock_run_keeps (reqs : list Request) (A : string)
    (conn_req : ConnectionRequest.t) :
  forall self,
    forallb (fun req => negb (is_disconnect_of A req)) reqs = true ->
    get_connection (Mock.conn_reqs self) A = Some conn_req ->
    get_connection (Mock.conn_reqs (Mock.run reqs self)) A = Some conn_req.
Proof.
  unfold Mock.run. induction reqs as [|req reqs IH]; intros self Hall Hget; [done|].
  cbn in Hall. apply andb_true_iff in Hall as [Hreq Hall].
  cbn [fold_left]. apply IH; [done|].
  apply mock_perform_keeps; [|done]. by destruct (is_disconnect_of A req).
Qed.

(** C5: after a successful [connect(A, ...)] the registry holds a connection
    for [A] with a handle and an empty service map, and [connect(A, ...)]
    fails with [BleConnectionError], issuing nothing, in every later state
    reached without a [disconnect(A)] (mock backend) or without a
    link-closed event for the connection's handle (radio-chip backend, where
    a disconnect also ends the connection through that event). *)
Theorem C5_connect_registers_and_excludes :
  (forall self A options retries self',
     Mock.connect self A options retries = (Returned tt, self') ->
     get_connection (Mock.conn_reqs self') A = Some (ConnectionRequest.mk A 0 EmptyDict) /\
     forall reqs options' retries',
       forallb (fun req => negb (is_disconnect_of A req)) reqs = true ->
       forall self'', self'' = Mock.run reqs self' ->
       get_connection (Mock.conn_reqs self'') A <> None /\
       Mock.connect self'' A options' retries'
         = (Raised (BleConnectionError "already connected"), self'')) /\
  (forall max self A options retries stimuli self' rest,
     registry_wf self ->
     connect max self A options retries stimuli = (Returned tt, self', rest) ->
     exists handle,
       get_connection (conn_reqs self') A
         = Some (ConnectionRequest.mk A handle EmptyDict) /\
       forall actions stimuli' options' retries' stimuli'',
         Forall (quiet handle) stimuli' ->
         forall self'', self'' = fst (run max actions self' stimuli') ->
         get_connection (conn_reqs self'') A <> None /\
         exists msg,
           connect max self'' A options' retries' stimuli''
             = (Raised (BleConnectionError msg), self'', stimuli'')).
Proof.
  split.
  - intros self A options retries self'. unfold Mock.connect.
    cbn [Mock.connectable negb].
    destruct (dict_mem (Mock.conn_reqs self) A) eqn:Em; [done|].
    intros H. inversion H; subst. clear H. cbn [Mock.conn_reqs].
    assert (Hget : get_connection (dict_set (Mock.conn_reqs self) A
                                     (ConnectionRequest.mk A 0 EmptyDict)) A
                   = Some (ConnectionRequest.mk A 0 EmptyDict)) by apply dict_get_set_eq.
    split; [done|]. intros reqs options' retries' Hall self'' ->.
    match goal with |- context [Mock.run reqs ?s] =>
      pose proof (mock_run_keeps reqs A _ s Hall Hget) as Hkept
    end.
    split; [congruence|].
    unfold Mock.connect. cbn [Mock.connectable negb].
    unfold get_connection in Hkept. unfold dict_mem. by rewrite Hkept.
  - intros max self A options retries stimuli self' rest Hwf. unfold connect.
    destruct (negb _); [done|].
    destruct (dict_mem (conn_reqs self) A) eqn:Em; [done|].
    destruct (new_operation self _) as [id self1] eqn:En.
    assert (Hwf1 : registry_wf self1).
    { unfold new_operation in En. by inversion En. }
    unfold ConnectOperation_run.
    destruct (class (operation_at self1 id)); try done.
    unfold wait.
    destruct (flag (operation_at (issue self1 _) id)) eqn:Ef.
    + destruct (negb _); [done|].
      destruct (Operation_handle _) as [handle|]; [|done].
      intros H. inversion H; subst. clear H.
      exists handle. split; [apply dict_get_set_eq|].
      intros actions stimuli' options' retries' stimuli'' Hq self'' ->.
      match goal with |- context [run max actions ?s stimuli'] =>
        assert (Hl : holds_link A handle (fst (run max actions s stimuli')))
      end.
      { apply run_link; [|done]. split; cbn.
        - by apply dict_keys_set_NoDup.
        - eexists. split; [apply dict_get_set_eq | done]. }
      destruct Hl as [_ (cr & Hget & _)]. split; [congruence|].
      apply (connect_refused max _ A options' retries' stimuli'').
      unfold dict_mem, get_connection in *. by rewrite Hget.
    + pose proof (block_wf true id stimuli (issue self1 (connection_open
                    (ConnectOperation.address c))) Hwf1) as Hwf2.
      destruct (block true id _ stimuli) as [self2 rest2|self2]; [|done].
      destruct (negb _); [done|].
      destruct (Operation_handle _) as [handle|]; [|done].
      intros H. inversion H; subst. clear H.
      exists handle. split; [apply dict_get_set_eq|].
      intros actions stimuli' options' retries' stimuli'' Hq self'' ->.
      match goal with |- context [run max actions ?s stimuli'] =>
        assert (Hl : holds_link A handle (fst (run max actions s stimuli')))
      end.
      { apply run_link; [|done]. split; cbn.
        - by apply dict_keys_set_NoDup.
        - eexists. split; [apply dict_get_set_eq | done]. }
      destruct Hl as [_ (cr & Hget & _)]. split; [congruence|].
      apply (connect_refused max _ A options' retries' stimuli'').
      unfold dict_mem, get_connection in *. by rewrite Hget.
Qed.

(** ** Calls on an address that is not connected *)

(** C1: on an address that is not in the registry, the radio-chip [read],
    [write], [subscribe], [unsubscribe] and [discover] raise their own error
    kind and leave the access point as it was (no operation, no command);
    [disconnect] raises [KeyError] instead of [BleDisconnectError]. On the
    mock backend [discover], [read], [write], [subscribe] and [disconnect]
    raise their own kind, and [unsubscribe] does not look at the registry:
    without a subscription thread for the key it raises [BleSubscribeError],
    with one it succeeds. *)
Theorem C1_not_connected_behaviour
    (self : SilabsAccessPoint) (mock : Mock.MockAccessPoint)
    (A service_uuid char_uuid : string) (value : bytes)
    (options : BleConnectOptions.t) (retries : Z) (stimuli : list Stimulus) :
  get_connection (conn_reqs self) A = None ->
  get_connection (Mock.conn_reqs mock) A = None ->
  (read self A service_uuid char_uuid stimuli
     = (Raised (BleReadError "not connected"), self, stimuli) /\
   write self A service_uuid char_uuid value stimuli
     = (Raised (BleWriteError "not connected"), self, stimuli) /\
   subscribe self A service_uuid char_uuid stimuli
     = (Raised (BleSubscribeError "not connected"), self, stimuli) /\
   unsubscribe self A service_uuid char_uuid stimuli
     = (Raised (BleUnsubscribeError "not connected"), self, stimuli) /\
   discover self A options retries stimuli
     = (Raised (BleDiscoveryError "not connected"), self, stimuli) /\
   disconnect self A stimuli = (Raised (KeyError A), self, stimuli)) /\
  (Mock.read mock A service_uuid char_uuid
     = (Raised (BleReadError "not connected"), mock) /\
   Mock.write mock A service_uuid char_uuid value
     = (Raised (BleWriteError "not connected"), mock) /\
   Mock.subscribe mock A service_uuid char_uuid
     = (Raised (BleSubscribeError "not connected"), mock) /\
   Mock.discover mock A options retries
     = (Raised (BleDiscoveryError "not connected"), mock) /\
   Mock.disconnect mock A = (Raised (BleDisconnectError "not connected"), mock) /\
   ((A, service_uuid, char_uuid) ∉ Mock._subscription_threads mock ->
    Mock.unsubscribe mock A service_uuid char_uuid
      = (Raised (BleSubscribeError "not subscribed"), mock)) /\
   ((A, service_uuid, char_uuid) ∈ Mock._subscription_threads mock ->
    fst (Mock.unsubscribe mock A service_uuid char_uuid)
      = Returned (UnsubscribeResponse.mk A service_uuid char_uuid true))).
Proof.
  unfold get_connection. intros Hs Hm. split.
  - unfold read, write, subscribe, unsubscribe, discover, disconnect.
    rewrite Hs. done.
  - unfold Mock.read, Mock.write, Mock.subscribe, Mock.discover, Mock.disconnect,
      Mock.unsubscribe, dict_mem.
    rewrite Hm. cbn [negb]. repeat split.
    + intros Hk. by rewrite bool_decide_eq_false_2.
    + intros Hk. by rewrite bool_decide_eq_true_2.
Qed.

Lemma C1_not_connected_behaviour_witness :
  disconnect init "AA:BB:CC:DD:EE:FF" []
    = (Raised (KeyError "AA:BB:CC:DD:EE:FF"), init, []) /\
  Mock.unsubscribe (Mock.init []) "AA:BB:CC:DD:EE:FF" "180d" "2a37"
    = (Raised (BleSubscribeError "not subscribed"), (Mock.init [])).
Proof.
  pose proof (C1_not_connected_behaviour init (Mock.init []) "AA:BB:CC:DD:EE:FF"
                "180d" "2a37" [] BleConnectOptions.default 3 []
                eq_refl eq_refl) as [Hs Hm].
  split.
  - apply Hs.
  - apply Hm. set_solver.
Defined.

(** ** Discovery on the radio-chip backend *)

(** What [discover] returns is the dictionary it stores in the registry. *)
Lemma discover_returns_cached self A options retries stimuli response self' rest :
  discover self A options retries stimuli = (Returned response, self', rest) ->
  exists conn_req,
    get_connection (conn_reqs self') A = Some conn_req /\
    response = DiscoverResponse.mk A (SvcDict (ConnectionRequest.services conn_req)).
Proof.
  unfold discover, get_connection.
  destruct (dict_get (conn_reqs self) A) as [cr0|]; [|done].
  destruct (new_operation self _) as [id self1].
  destruct (DiscoverOperation_run id self1 stimuli) as [[[[]|e|] self2] rest2];
    try done.
  destruct (dict_get (conn_reqs self2) A) as [cr|]; [|done].
  intros H. inversion H; subst. clear H. cbn [conn_reqs with_conn_reqs].
  rewrite dict_get_set_eq. by eexists.
Qed.

Lemma next_service_failed id pos size self e self' :
  next_service id pos size self = Failed e self' -> error_kind e = None.
Proof.
  unfold next_service. destruct (negb _); [by intros H; inversion H|].
  destruct (_ !! pos) as [[? sref]|]; [|done].
  destruct (_ !! sref); [done | by intros H; inversion H].
Qed.

Lemma next_characteristic_failed id pos size sref cpos csize self e self' :
  next_characteristic id pos size sref cpos csize self = Failed e self' ->
  error_kind e = None.
Proof.
  unfold next_characteristic.
  destruct (_ !! sref); [|by intros H; inversion H].
  destruct (negb _); [by intros H; inversion H|].
  destruct (_ !! cpos) as [[? cref]|]; [|apply next_service_failed].
  destruct (_ !! cref); [done | by intros H; inversion H].
Qed.

Lemma resume_failed id frame self e self' :
  resume id frame self = Failed e self' -> error_kind e = None.
Proof.
  unfold resume. destruct (DiscoverOperation.result _); [|by intros H; inversion H].
  destruct (negb _); [done|]. destruct frame.
  - apply next_service_failed.
  - destruct (_ !! service);
      [apply next_characteristic_failed | by intros H; inversion H].
  - apply next_characteristic_failed.
Qed.

(** An exception that leaves [DiscoverOperation.run] is none of the error
    kinds of the contract. *)
Lemma drive_raised stimuli :
  forall id frame self e self' rest,
    drive id frame self stimuli = (Raised e, self', rest) -> error_kind e = None.
Proof.
  induction stimuli as [|s stimuli IH]; intros id frame self e self' rest;
    cbn [drive]; [done|].
  destruct s as [evt|]; [|apply IH].
  destruct (event_handler self evt) as [[e0|] self1]; [done|].
  destruct (_ <? _)%nat; [|apply IH].
  destruct (resume id frame self1) as [frame' self2|self2|e2 self2] eqn:Er.
  - apply IH.
  - done.
  - intros H. inversion H; subst. eapply resume_failed, Er.
Qed.

(** C3: when a discovery phase reports a non-zero result the remaining
    phases are not started, yet [discover] returns a response: with the
    first phase failing it returns the empty service map after the one
    command of that phase, with the second phase failing it returns the
    service found so far, without characteristics, and no descriptor
    discovery is issued. On a connected address [discover] raises none of
    the error kinds of the contract, [BleDiscoveryError] included. *)
Theorem C3_partial_discovery_returned :
  (forall self A options retries stimuli e self' rest,
     get_connection (conn_reqs self) A <> None ->
     discover self A options retries stimuli = (Raised e, self', rest) ->
     error_kind e = None) /\
  (exists self,
     discover Scenario.connected Scenario.address BleConnectOptions.default 3
       Scenario.failing_services
       = (Returned (DiscoverResponse.mk Scenario.address (SvcDict (ServicesOf 1))),
          self, []) /\
     services_at self (ServicesOf 1) = [] /\
     commands self = commands Scenario.connected ++ [discover_primary_services 1]) /\
  (exists self,
     discover Scenario.connected Scenario.address BleConnectOptions.default 3
       Scenario.failing_characteristics
       = (Returned (DiscoverResponse.mk Scenario.address (SvcDict (ServicesOf 1))),
          self, []) /\
     services_at self (ServicesOf 1) = [("180d", mkService "180d" 10 [])] /\
     commands self =
       commands Scenario.connected ++
         [discover_primary_services 1; discover_characteristics 1 10]).
Proof.
  split.
  - intros self A options retries stimuli e self' rest. unfold discover, get_connection.
    destruct (dict_get (conn_reqs self) A) as [cr0|]; [intros _|done].
    destruct (new_operation self _) as [id self1].
    destruct (DiscoverOperation_run id self1 stimuli) as [[[[]|e1|] self2] rest2] eqn:Er;
      try done.
    + destruct (dict_get (conn_reqs self2) A); [done|].
      intros H. by inversion H.
    + intros H. inversion H; subst. eapply drive_raised, Er.
  - split; eexists; (split; [|split]); vm_compute; reflexivity.
Qed.

Lemma C3_partial_discovery_returned_witness :
  discover Scenario.connected Scenario.address BleConnectOptions.default 3
    Scenario.failing_characteristics
  <> (Raised (BleDiscoveryError "failed to discover characteristics"),
      Scenario.connected, []).
Proof.
  intros H.
  pose proof (proj1 C3_partial_discovery_returned Scenario.connected
                Scenario.address BleConnectOptions.default 3
                Scenario.failing_characteristics
                (BleDiscoveryError "failed to discover characteristics")
                Scenario.connected []
                ltac:(vm_compute; discriminate) H) as Hkind.
  discriminate Hkind.
Defined.

(** C4: the response of [discover] carries the dictionary stored in the
    registry, whatever the options say: with the filter naming 180d only,
    the walk that finds 180d and 180f returns both, and both are cached. The
    filter of [DiscoverOperation.response], which is not called, would
    return no service for a filter made of dictionaries. *)
Theorem C4_discover_ignores_filter :
  (forall self A options retries stimuli response self' rest,
     discover self A options retries stimuli = (Returned response, self', rest) ->
     exists conn_req,
       get_connection (conn_reqs self') A = Some conn_req /\
       DiscoverResponse.services response
         = SvcDict (ConnectionRequest.services conn_req)) /\
  (exists response self,
     discover Scenario.connected Scenario.address Scenario.only_180d 3 Scenario.walk
       = (Returned response, self, []) /\
     map service_id
       (collection_services (services_at self) (DiscoverResponse.services response))
       = ["180d"; "180f"] /\
     (exists conn_req,
        get_connection (conn_reqs self) Scenario.address = Some conn_req /\
        dict_keys (services_at self (ConnectionRequest.services conn_req))
          = ["180d"; "180f"]) /\
     exists id d,
       class (operation_at self id) = Discover d /\
       DiscoverResponse.services (DiscoverOperation_response d) = SvcList []).
Proof.
  split.
  - intros self A options retries stimuli response self' rest H.
    apply discover_returns_cached in H as (cr & Hget & ->). eauto.
  - eexists _, _. split; [vm_compute; reflexivity|].
    split; [vm_compute; reflexivity|].
    split; [eexists; split; vm_compute; reflexivity|].
    exists 1%nat. eexists. split; vm_compute; reflexivity.
Qed.

(** ** Address matching *)

(** C9 as stated fails: a connection registered under a lower-case address
    is not found under the upper-case spelling of the same address, and a
    second connection for that spelling is accepted. *)
Lemma C9_case_variant_counterexample :
  lower "C1:5C:00:00:00:AA" = lower "c1:5c:00:00:00:aa" /\
  exists self' self'',
    Mock.connect (Mock.init []) "c1:5c:00:00:00:aa" BleConnectOptions.default 3
      = (Returned tt, self') /\
    get_connection (Mock.conn_reqs self') "C1:5C:00:00:00:AA" = None /\
    Mock.connect self' "C1:5C:00:00:00:AA" BleConnectOptions.default 3
      = (Returned tt, self'') /\
    dict_keys (Mock.conn_reqs self'')
      = ["c1:5c:00:00:00:aa"; "C1:5C:00:00:00:AA"].
Proof.
  split; [reflexivity|]. eexists _, _.
  split; [reflexivity|]. split; [reflexivity|]. split; reflexivity.
Qed.

(** C9, amended: the registry is looked up with the address string exactly
    as supplied. After a successful [connect(A, ...)] the connection of [A]
    is found and [connect(A, ...)] fails with [BleConnectionError]; for an
    address [A'] that differs from [A] as a string, a case variant included,
    [get_connection(A')] is what it was before and [connect(A')] succeeds
    exactly when [A'] itself was not registered. The keys of the registry
    stay pairwise distinct strings, and the radio-chip backend refuses a
    connect as already connected only for a registered string. *)
Theorem C9_exact_address_match :
  (forall self A options retries self',
     Mock.connect self A options retries = (Returned tt, self') ->
     get_connection (Mock.conn_reqs self') A <> None /\
     Mock.connect self' A options retries
       = (Raised (BleConnectionError "already connected"), self') /\
     (forall A', A' <> A ->
        get_connection (Mock.conn_reqs self') A'
          = get_connection (Mock.conn_reqs self) A' /\
        (fst (Mock.connect self' A' options retries) = Returned tt <->
         get_connection (Mock.conn_reqs self) A' = None)) /\
     (NoDup (dict_keys (Mock.conn_reqs self)) ->
      NoDup (dict_keys (Mock.conn_reqs self')))) /\
  (forall max self A' options retries stimuli self' rest,
     connect max self A' options retries stimuli
       = (Raised (BleConnectionError "already connected"), self', rest) ->
     get_connection (conn_reqs self) A' <> None).
Proof.
  split.
  - intros self A options retries self'. unfold Mock.connect, get_connection.
    cbn [Mock.connectable negb].
    destruct (dict_mem (Mock.conn_reqs self) A) eqn:Em; [done|].
    intros H. inversion H; subst. clear H. cbn [Mock.conn_reqs].
    split; [by rewrite dict_get_set_eq|].
    split; [unfold dict_mem; by rewrite dict_get_set_eq|].
    split; [|apply dict_keys_set_NoDup].
    intros A' Hne. rewrite dict_get_set_ne by done. split; [done|].
    unfold dict_mem. rewrite dict_get_set_ne by done.
    destruct (dict_get (Mock.conn_reqs self) A'); cbn; split; done.
  - intros max self A' options retries stimuli self' rest.
    unfold connect, get_connection, dict_mem.
    destruct (negb _); [done|].
    destruct (dict_get (conn_reqs self) A'); [done|].
    destruct (new_operation self _) as [id self1].
    destruct (ConnectOperation_run id self1 stimuli); [|done].
    destruct (negb _); [done|].
    by destruct (Operation_handle _).
Qed.

Lemma C9_exact_address_match_witness :
  get_connection
    (Mock.conn_reqs
       (snd (Mock.connect (Mock.init []) "c1:5c:00:00:00:aa" BleConnectOptions.default 3)))
    "c1:5c:00:00:00:aa" <> None /\
  get_connection
    (Mock.conn_reqs
       (snd (Mock.connect (Mock.init []) "c1:5c:00:00:00:aa" BleConnectOptions.default 3)))
    "C1:5C:00:00:00:AA" = None.
Proof.
  destruct (proj1 C9_exact_address_match (Mock.init []) "c1:5c:00:00:00:aa"
              BleConnectOptions.default 3 _ eq_refl) as (H1 & _ & H2 & _).
  split; [exact H1|].
  destruct (H2 "C1:5C:00:00:00:AA") as [H _]; [discriminate|].
  exact H.
Defined.

(** ** Subscriptions *)

Lemma mock_perform_keeps_subscription (self : Mock.MockAccessPoint)
    (req : Request) (A S C : string) :
  is_unsubscribe_of A S C req = false ->
  (A, S, C) ∈ Mock._subscription_threads self ->
  (A, S, C) ∈ Mock._subscription_threads (Mock.perform self req).
Proof.
  intros Hreq Hin. destruct req; cbn [Mock.perform].
  - unfold Mock.connect. cbn [Mock.connectable negb]. by destruct (dict_mem _ _).
  - unfold Mock.discover. by destruct (negb _).
  - unfold Mock.read. destruct (negb _); [done|]. by destruct (_ || _)%bool.
  - unfold Mock.write. by destruct (negb _).
  - unfold Mock.subscribe. destruct (negb _); [done|].
    destruct (bool_decide _); [done|]. cbn. set_solver.
  - unfold Mock.unsubscribe. destruct (negb _); [done|]. cbn.
    apply elem_of_difference. split; [done|]. intros Heq.
    apply elem_of_singleton in Heq. inversion Heq; subst.
    cbn in Hreq. by rewrite !String.eqb_refl in Hreq.
  - unfold Mock.disconnect. by destruct (negb _).
Qed.

Lemma mock_run_keeps_subscription (reqs : list Request) (A S C : string) :
  forall self,
    forallb (fun req => negb (is_unsubscribe_of A S C req)) reqs = true ->
    (A, S, C) ∈ Mock._subscription_threads self ->
    (A, S, C) ∈ Mock._subscription_threads (Mock.run reqs self).
Proof.
  unfold Mock.run. induction reqs as [|req reqs IH]; intros self Hall Hin; [done|].
  cbn in Hall. apply andb_true_iff in Hall as [Hreq Hall].
  cbn [fold_left]. apply IH; [done|].
  apply mock_perform_keeps_subscription; [|done].
  by destruct (is_unsubscribe_of A S C req).
Qed.

(** C6: on the mock backend, once [subscribe(A, S, C)] has returned,
    every later [subscribe(A, S, C)] on the still connected [A] fails with
    [BleSubscribeError] "already subscribed" until an
    [unsubscribe(A, S, C)], and [unsubscribe(A, S, C)] without a subscription
    for exactly that key fails with the diagnostic "not subscribed". The
    radio-chip [subscribe] has no such check: whatever operations are
    pending, the only [BleSubscribeError] it raises is "not connected";
    with the characteristic 2a37 of the scenario discovered, two
    subscribe calls in a row both return [subscribed=true] and leave two
    subscribe operations for the same connection and characteristic in
    the dispatch list. *)
Theorem C6_subscription_exclusivity :
  (forall self A S C response self',
     Mock.subscribe self A S C = (Returned response, self') ->
     forall reqs self'',
       forallb (fun req => negb (is_unsubscribe_of A S C req)) reqs = true ->
       self'' = Mock.run reqs self' ->
       get_connection (Mock.conn_reqs self'') A <> None ->
       Mock.subscribe self'' A S C
         = (Raised (BleSubscribeError "already subscribed"), self'')) /\
  (forall self A S C,
     (A, S, C) ∉ Mock._subscription_threads self ->
     exists e,
       Mock.unsubscribe self A S C = (Raised e, self) /\
       exn_message e = "not subscribed") /\
  (forall self A S C stimuli msg self' rest,
     subscribe self A S C stimuli = (Raised (BleSubscribeError msg), self', rest) ->
     msg = "not connected" /\ get_connection (conn_reqs self) A = None) /\
  (exists self1 self2,
     subscribe Scenario.discovered Scenario.address "180d" "2a37"
       (Scenario.acknowledged ++ Scenario.acknowledged)
       = (Returned (SubscribeResponse.mk Scenario.address "180d" "2a37" true),
          self1, Scenario.acknowledged) /\
     subscribe self1 Scenario.address "180d" "2a37" Scenario.acknowledged
       = (Returned (SubscribeResponse.mk Scenario.address "180d" "2a37" true),
          self2, []) /\
     map (fun id => subscription_of 1 11 (operation_at self2 id)) (operations self2)
       = [false; true; true]).
Proof.
  split; [|split; [|split]].
  - intros self A S C response self'. unfold Mock.subscribe at 1.
    destruct (negb _); [done|].
    destruct (bool_decide _); [done|].
    intros H. inversion H; subst. clear H.
    intros reqs self'' Hall -> Hconn.
    match goal with |- context [Mock.run reqs ?s] =>
      assert (Hin : (A, S, C) ∈ Mock._subscription_threads (Mock.run reqs s))
    end.
    { apply mock_run_keeps_subscription; [done|]. cbn. set_solver. }
    unfold Mock.subscribe, dict_mem. unfold get_connection in Hconn.
    destruct (dict_get _ A); [|done]. cbn [negb].
    by rewrite bool_decide_eq_true_2.
  - intros self A S C Hk. unfold Mock.unsubscribe.
    rewrite bool_decide_eq_false_2 by done. cbn. eauto.
  - intros self A S C stimuli msg self' rest. unfold subscribe, get_connection.
    destruct (dict_get (conn_reqs self) A) as [cr|].
    + destruct (lookup_characteristic self cr S C) as [e|ch] eqn:El.
      * unfold lookup_characteristic in El.
        destruct (dict_get _ S) as [sv|]; [|by inversion El; subst].
        destruct (dict_get _ C); by inversion El; subst.
      * destruct (new_operation self _) as [id self1].
        by destruct (SubscribeOperation_run id self1 stimuli).
    + intros H. by inversion H.
  - eexists _, _. split; [vm_compute; reflexivity|].
    split; vm_compute; reflexivity.
Qed.

Lemma C6_subscription_exclusivity_witness :
  Mock.subscribe
    (snd (Mock.subscribe
            (snd (Mock.connect (Mock.init []) "C1:5C:00:00:00:00"
                    BleConnectOptions.default 3))
            "C1:5C:00:00:00:00" "180d" "2a37"))
    "C1:5C:00:00:00:00" "180d" "2a37"
  = (Raised (BleSubscribeError "already subscribed"),
     snd (Mock.subscribe
            (snd (Mock.connect (Mock.init []) "C1:5C:00:00:00:00"
                    BleConnectOptions.default 3))
            "C1:5C:00:00:00:00" "180d" "2a37")).
Proof.
  apply (proj1 C6_subscription_exclusivity
           (snd (Mock.connect (Mock.init []) "C1:5C:00:00:00:00"
                   BleConnectOptions.default 3))
           "C1:5C:00:00:00:00" "180d" "2a37"
           (SubscribeResponse.mk "C1:5C:00:00:00:00" "180d" "2a37" true)
           _ eq_refl [] _ eq_refl eq_refl).
  discriminate.
Defined.

(** ** The theorems at the scenario *)

Lemma C5_connect_registers_and_excludes_witness :
  exists handle,
    get_connection (conn_reqs Scenario.connected) Scenario.address
      = Some (ConnectionRequest.mk Scenario.address handle EmptyDict).
Proof.
  destruct (proj2 C5_connect_registers_and_excludes Scenario.max_connections
              init Scenario.address BleConnectOptions.default 3 Scenario.opened
              Scenario.connected [])
    as (handle & H & _).
  - unfold registry_wf. simpl. constructor.
  - vm_compute. reflexivity.
  - exists handle. exact H.
Defined.


Lemma C10_read_response_fields_witness :
  exists response self',
    read Scenario.discovered Scenario.address "180d" "2a37" Scenario.value_read
      = (Returned response, self',
         [Deliver (bt_evt_gatt_procedure_completed 1 0)]) /\
    ReadResponse.address response = "1" /\
    ReadResponse.value response = Some [Byte.x2a].
Proof.
  eexists _, _. split; [vm_compute; reflexivity|].
  destruct (proj1 C10_read_response_fields Scenario.discovered
              Scenario.address "180d" "2a37" Scenario.value_read _ _ _
              ltac:(vm_compute; reflexivity))
    as (conn_req & characteristic & v & _ & _ & Hresp & _).
  split; reflexivity.
Defined.

Lemma C4_discover_ignores_filter_witness :
  exists response self',
    discover Scenario.connected Scenario.address Scenario.only_180d 3 Scenario.walk
      = (Returned response, self', []) /\
    exists conn_req,
      get_connection (conn_reqs self') Scenario.address = Some conn_req /\
      DiscoverResponse.services response
        = SvcDict (ConnectionRequest.services conn_req).
Proof.
  eexists _, _. split; [vm_compute; reflexivity|].
  eapply (proj1 C4_discover_ignores_filter Scenario.connected Scenario.address
            Scenario.only_180d 3 Scenario.walk).
  vm_compute. reflexivity.
Defined.

(** ** The dispatch loop, operation by operation *)

Lemma dispatch_outside (evt : Event) (j : nat) :
  forall ids self remove_ops oe self' remove_ops',
    ~ In j ids ->
    dispatch ids evt self remove_ops = (oe, self', remove_ops') ->
    operation_at self' j = operation_at self j.
Proof.
  induction ids as [|id ids IH]; intros self rm oe self' rm' Hj Hd.
  - cbn in Hd. by inversion Hd; subst.
  - cbn [dispatch] in Hd.
    destruct (handle_event (operation_at self id) evt) as [e|[op' pubs]] eqn:Eh.
    + by inversion Hd; subst.
    + apply IH in Hd; [|intros ?; apply Hj; by right].
      rewrite Hd. apply operation_at_store_ne. intros ->. apply Hj. by left.
Qed.

Lemma flat_map_ext_In {X Y : Type} (f g : X -> list Y) (l : list X) :
  (forall x, In x l -> f x = g x) -> flat_map f l = flat_map g l.
Proof.
  induction l as [|x l IH]; intros H; [done|]. cbn.
  rewrite (H x) by (by left). f_equal. apply IH. intros y Hy. apply H. by right.
Qed.

(** With distinct references every operation of the list handles the event
    once, in order; the operations marked done after it are collected. *)
Lemma dispatch_spec (evt : Event) :
  forall ids self remove_ops self' remove_ops',
    NoDup ids ->
    (forall id, In id ids -> (id < length (heap self))%nat) ->
    dispatch ids evt self remove_ops = (None, self', remove_ops') ->
    (forall id, In id ids ->
       handle_event (operation_at self id) evt
         = inr (operation_at self' id, pubs_of (operation_at self id) evt)) /\
    published self' =
      published self ++ flat_map (fun id => pubs_of (operation_at self id) evt) ids /\
    (forall id, In id remove_ops' <->
       In id remove_ops \/ (In id ids /\ is_done (operation_at self' id) = true)).
Proof.
  induction ids as [|id ids IH]; intros self rm self' rm' Hnd Hb Hd.
  - cbn in Hd. inversion Hd; subst. cbn. rewrite app_nil_r.
    repeat split; try done; [tauto | by intros [?|[[] _]]].
  - apply NoDup_cons in Hnd as [Hnotin Hnd]. rewrite list_elem_of_In in Hnotin.
    cbn [dispatch] in Hd.
    destruct (handle_event (operation_at self id) evt) as [e|[op' pubs]] eqn:Eh;
      [by inversion Hd|].
    set (self1 := store self id op' pubs) in *.
    assert (Hsame : forall j, j <> id -> operation_at self1 j = operation_at self j).
    { intros j Hj. subst self1. by apply operation_at_store_ne. }
    assert (Hid1 : operation_at self1 id = op').
    { subst self1. rewrite operation_at_store. case_decide as Hc; [done|].
      exfalso. apply Hc. split; [done|]. apply Hb. by left. }
    assert (Hid' : operation_at self' id = op').
    { rewrite <- Hid1. eapply dispatch_outside; [exact Hnotin | exact Hd]. }
    apply IH in Hd as (Hcells & Hpub & Hrm); [|done|].
    2:{ intros j Hj. subst self1. cbn. rewrite length_insert. apply Hb. by right. }
    assert (Hne : forall j, In j ids -> j <> id) by (intros j Hj ->; done).
    split; [|split].
    + intros j [<-|Hj].
      * unfold pubs_of. rewrite Eh, Hid'. done.
      * specialize (Hcells j Hj). rewrite Hsame in Hcells by auto. done.
    + rewrite Hpub. subst self1. cbn [published store flat_map].
      rewrite <- app_assoc. f_equal. f_equal.
      * unfold pubs_of. by rewrite Eh.
      * apply flat_map_ext_In. intros j Hj. rewrite operation_at_store_ne; auto.
        intros ->. by apply (Hne j).
    + intros j. rewrite Hrm. cbn [In].
      destruct (is_done op') eqn:Edone.
      * rewrite in_app_iff. cbn [In]. split.
        -- intros [[?|[<-|[]]]|[? ?]]; [tauto| |tauto].
           right. split; [by left | by rewrite Hid'].
        -- intros [?|[[<-|?] ?]]; tauto.
      * split; [tauto|]. intros [?|[[<-|?] Hdone]]; [tauto| |tauto].
        rewrite Hid' in Hdone. congruence.
Qed.

Lemma list_remove_In (x y : nat) (l : list nat) :
  In x (list_remove y l) -> In x l.
Proof.
  induction l as [|z l IH]; cbn; [done|].
  destruct (Nat.eqb y z); cbn; tauto.
Qed.

Lemma list_remove_other (x y : nat) (l : list nat) :
  x <> y -> In x l -> In x (list_remove y l).
Proof.
  intros Hne. induction l as [|z l IH]; cbn; [done|].
  destruct (Nat.eqb_spec y z) as [->|Hyz]; cbn; [|tauto].
  intros [?|?]; [congruence | done].
Qed.

Lemma list_remove_NoDup (y : nat) (l : list nat) :
  NoDup l -> NoDup (list_remove y l) /\ ~ In y (list_remove y l).
Proof.
  induction l as [|z l IH]; cbn; [intros _; split; [constructor | by intros []]|].
  rewrite NoDup_cons, list_elem_of_In. intros [Hz Hnd].
  destruct (Nat.eqb_spec y z) as [->|Hyz]; [done|].
  destruct (IH Hnd) as [Hnd' Hy]. split.
  - apply NoDup_cons. rewrite list_elem_of_In. split; [|done].
    intros H. by apply list_remove_In in H.
  - cbn. intros [?|?]; [congruence | done].
Qed.

Lemma remove_all_In (x : nat) (rm : list nat) :
  forall l, In x (remove_all rm l) -> In x l.
Proof.
  unfold remove_all. induction rm as [|y rm IH]; intros l; cbn; [done|].
  intros H. apply IH in H. by apply list_remove_In in H.
Qed.

Lemma remove_all_other (x : nat) (rm : list nat) :
  forall l, ~ In x rm -> In x l -> In x (remove_all rm l).
Proof.
  unfold remove_all. induction rm as [|y rm IH]; intros l Hx Hin; cbn; [done|].
  apply IH; [cbn in Hx; tauto|]. apply list_remove_other; [|done].
  intros ->. apply Hx. by left.
Qed.

Lemma remove_all_NoDup (rm : list nat) :
  forall l, NoDup l ->
    NoDup (remove_all rm l) /\ forall y, In y rm -> ~ In y (remove_all rm l).
Proof.
  unfold remove_all. induction rm as [|y rm IH]; intros l Hnd; cbn; [by split|].
  destruct (list_remove_NoDup y l Hnd) as [Hnd' Hy].
  destruct (IH _ Hnd') as [Hnd'' Hrm]. split; [done|].
  intros z [<-|Hz]; [|by apply Hrm].
  intros H. apply Hy. eapply remove_all_In, H.
Qed.

Lemma event_handler_spec (self : SilabsAccessPoint) (evt : Event) self' :
  operations_wf self ->
  event_handler self evt = (None, self') ->
  (forall id, In id (operations self) ->
     handle_event (operation_at self id) evt
       = inr (operation_at self' id, pubs_of (operation_at self id) evt)) /\
  (forall j, ~ In j (operations self) -> operation_at self' j = operation_at self j) /\
  published self' =
    published self ++
      flat_map (fun id => pubs_of (operation_at self id) evt) (operations self) /\
  (forall id, In id (operations self') <->
     In id (operations self) /\ is_done (operation_at self' id) = false) /\
  operations_wf self'.
Proof.
  intros [Hnd Hb] Heh. rewrite Forall_forall in Hb.
  assert (Hb' : forall id, In id (operations self) -> (id < length (heap self))%nat).
  { intros id Hid. apply Hb. by apply list_elem_of_In. }
  unfold event_handler in Heh.
  destruct (dispatch (operations self) evt self []) as [[[e|] self1] rm] eqn:Ed;
    [done|].
  pose proof (dispatch_frame _ _ _ _ _ _ _ Ed) as (_ & _ & Hops & _ & Hlen).
  pose proof (dispatch_spec evt _ _ _ _ _ Hnd Hb' Ed) as (Hcells & Hpub & Hrm).
  assert (Hheap : heap self' = heap self1 /\ published self' = published self1 /\
                  operations self' = remove_all rm (operations self)).
  { inversion Heh; subst. rewrite <- Hops.
    destruct evt; cbn; try done.
    unfold bt_evt_connection_closed_handler. by destruct (address_of_handle _ _). }
  destruct Hheap as (Hheap & Hpub' & Hops').
  assert (Hat : forall j, operation_at self' j = operation_at self1 j).
  { intros j. unfold operation_at. by rewrite Hheap. }
  destruct (remove_all_NoDup rm _ Hnd) as [Hnd' Hgone].
  repeat split.
  - intros id Hid. rewrite Hat. by apply Hcells.
  - intros j Hj. rewrite Hat. eapply dispatch_outside; [exact Hj | exact Ed].
  - by rewrite Hpub'.
  - rewrite Hops' in H. eapply remove_all_In, H.
  - rewrite Hops' in H. destruct (is_done (operation_at self' id)) eqn:Edone; [|done].
    exfalso. apply (Hgone id); [|done]. apply Hrm. right.
    split; [eapply remove_all_In, H | by rewrite <- Hat].
  - intros [Hin Hdone]. rewrite Hops'. apply remove_all_other; [|done].
    intros Hr. apply Hrm in Hr as [[]|[_ Hd]]. rewrite <- Hat in Hd. congruence.
  - by rewrite Hops'.
  - apply Forall_forall. intros id Hid. apply list_elem_of_In in Hid.
    rewrite Hops' in Hid. apply remove_all_In in Hid.
    rewrite Hheap, Hlen. by apply Hb'.
Qed.

(** ** Teardown of a connection on the radio-chip backend *)

Section Teardown.
Variables (A : string) (h : Z).



Lemma closed_total op connection reason :
  exists op' pubs,
    handle_event op (bt_evt_connection_closed connection reason) = inr (op', pubs).
Proof.
  unfold handle_event. destruct (class op); cbn; eauto;
    repeat match goal with
           | |- context [if ?b then _ else _] => destruct b
           end; eauto.
Qed.



End Teardown.




Lemma flat_map_nil {X Y : Type} (f : X -> list Y) (l : list X) :
  (forall b, In b l -> f b = []) -> flat_map f l = [].
Proof.
  induction l as [|x l IH]; intros H; [done|]. cbn.
  rewrite (H x) by (by left). apply IH. intros b Hb. apply H. by right.
Qed.


Section TeardownStates.
Variables (A : string) (h : Z) (idA : nat).




End TeardownStates.

Section TeardownCalls.
Variables (A : string) (h : Z) (idA : nat).






End TeardownCalls.


(** ** How a connection becomes linked *)

Lemma dict_set_In {V : Type} (d : dict V) (k : string) (v : V) (e : string * V) :
  In e (dict_set d k v) -> In e d \/ e = (k, v).
Proof.
  induction d as [|[k0 v0] d IH]; cbn.
  - intros [<-|[]]. by right.
  - destruct (String.eqb_spec k0 k) as [->|Hne]; cbn.
    + intros [<-|H]; [by right | left; by right].
    + intros [?|H]; [left; by left|]. apply IH in H as [?|?]; [left; by right | by right].
Qed.

Lemma foreign_opened (A : string) (h : Z) (op : Operation) (A' : string) :
  foreign_to A h op = true -> lower A' = lower A ->
  handle_event op (bt_evt_connection_opened A' h) = inr (op, []).
Proof.
  unfold foreign_to, handle_event. intros Hf Hl.
  destruct (class op) as [| | |c| | |]; try done. cbn.
  apply andb_true_iff in Hf as [Ha _]. apply negb_true_iff in Ha.
  rewrite Hl, String.eqb_sym, Ha, andb_false_r. done.
Qed.

(** A connect answered at once by the connection-opened event, under a
    handle that no connection and no pending operation holds, returns with
    the peer linked and one [connected=true] status published. *)
Lemma connect_links max self A options retries A' h rest :
  connectable max self = true ->
  dict_mem (conn_reqs self) A = false ->
  registry_wf self -> operations_wf self ->
  lower A' = lower A ->
  address_of_handle (conn_reqs self) h = None ->
  Forall (fun id => foreign_to A h (operation_at self id) = true) (operations self) ->
  exists self',
    connect max self A options retries (Deliver (bt_evt_connection_opened A' h) :: rest)
      = (Returned tt, self', rest) /\
    linked A h (length (heap self)) self' /\
    published self' = published self ++ [publish_connection_status None A true].
Proof.
  intros Hcap Hmem Hwf [Hnd Hb] Hlow Hfree Hfor. unfold connect.
  rewrite Hcap, Hmem. cbn [negb].
  set (c := ConnectOperation.mk A retries (-1)).
  pose proof (operation_at_new self (Connect c)) as Hnew.
  destruct (new_operation self (Connect c)) as [idC self0] eqn:En.
  cbn [fst snd] in Hnew.
  assert (Hfacts : idC = length (heap self) /\
                   conn_reqs self0 = conn_reqs self /\
                   operations self0 = operations self ++ [idC] /\
                   heap self0 = heap self ++ [Operation_init (Connect c)] /\
                   published self0 = published self).
  { unfold new_operation in En. by inversion En. }
  clear En. destruct Hfacts as (HidC & Hreg0 & Hops0 & Hheap0 & Hpub0).
  rewrite <- HidC.
  rewrite Forall_forall in Hb. rewrite Forall_forall in Hfor.
  assert (Hold : forall id, In id (operations self) ->
            (id < idC)%nat /\ operation_at self0 id = operation_at self id).
  { intros id Hid. apply list_elem_of_In, Hb in Hid. split; [lia|].
    unfold operation_at. rewrite Hheap0. by rewrite lookup_app_l. }
  assert (Hw0 : operations_wf self0).
  { split; rewrite Hops0.
    - apply NoDup_app. split; [done|]. split; [|apply NoDup_singleton].
      intros id Hid Hid'. apply list_elem_of_singleton in Hid'.
      apply list_elem_of_In, Hold in Hid. lia.
    - rewrite Hheap0, length_app. cbn. apply Forall_app. split.
      + apply Forall_forall. intros id Hid. apply Hb in Hid. lia.
      + apply Forall_cons. split; [lia | constructor]. }
  unfold ConnectOperation_run. rewrite Hnew. cbn [class Operation_init].
  unfold wait. rewrite operation_at_issue, Hnew. cbn [flag Operation_init block].
  set (self0' := issue self0 _).
  set (evt := bt_evt_connection_opened A' h).
  assert (Hw0' : operations_wf self0') by (destruct Hw0; by split).
  assert (Hnone : fst (event_handler self0' evt) = None).
  { unfold event_handler.
    assert (H : forall ids s rm, fst (fst (dispatch ids evt s rm)) = None).
    { induction ids as [|id ids IH]; intros s rm; [done|]. cbn [dispatch].
      assert (exists op' pubs,
                handle_event (operation_at s id) evt = inr (op', pubs))
        as (op' & pubs & ->); [|apply IH].
      unfold handle_event. destruct (class (operation_at s id)); cbn; eauto.
      destruct (_ && _)%bool; eauto. }
    specialize (H (operations self0') self0' []).
    by destruct (dispatch _ _ _ _) as [[[e|] s1] rm]. }
  destruct (event_handler self0' evt) as [oe self1] eqn:Heh.
  cbn in Hnone. subst oe.
  pose proof (event_handler_spec _ _ _ Hw0' Heh)
    as (Hcells & _ & Hpub & Hops & Hw1).
  pose proof (event_handler_conn_reqs _ _ _ _ Heh) as Hreg1. cbn in Hreg1.
  rewrite Hreg0 in Hreg1.
  assert (HinC : In idC (operations self0')).
  { cbn. rewrite Hops0. apply in_or_app. right. by left. }
  pose proof (Hcells idC HinC) as HcellC.
  change (operation_at self0' idC) with (operation_at self0 idC) in HcellC.
  rewrite Hnew in HcellC.
  assert (HopC : operation_at self1 idC =
                 set (with_class (Operation_init (Connect c))
                        (Connect (ConnectOperation.mk A retries h)))).
  { unfold handle_event in HcellC. cbn in HcellC.
    rewrite Hlow, String.eqb_refl in HcellC. cbn in HcellC.
    congruence. }
  change (operation_at self0' idC) with (operation_at self0 idC).
  rewrite Hnew, HopC. cbn [signals set with_class Operation_init].
  cbn [Nat.ltb Nat.leb]. rewrite HopC.
  cbn [flag set negb Operation_handle class with_class ConnectOperation.handle].
  eexists. split; [reflexivity|]. subst evt.
  assert (Hothers : forall id, In id (operations self) ->
            operation_at self1 id = operation_at self id /\
            pubs_of (operation_at self0' id) (bt_evt_connection_opened A' h) = []).
  { intros id Hid.
    assert (Hin0 : In id (operations self0')).
    { cbn. rewrite Hops0. apply in_or_app. by left. }
    specialize (Hcells id Hin0). unfold pubs_of in *.
    change (operation_at self0' id) with (operation_at self0 id) in *.
    rewrite (proj2 (Hold id Hid)) in *.
    rewrite (foreign_opened A h _ A') in * by (try done; by apply Hfor, list_elem_of_In).
    split; [congruence | done]. }
  split; [split|].
  - split; cbn; [apply dict_keys_set_NoDup; by rewrite Hreg1|].
    eexists. split; [apply dict_get_set_eq | done].
  - cbn. apply Forall_forall. intros e He Hh. apply list_elem_of_In in He.
    apply dict_set_In in He as [He| ->]; [|done]. exfalso.
    rewrite Hreg1 in He. destruct e as [B cr]. cbn in Hh.
    rewrite address_of_handle_None in Hfree. by apply (Hfree B cr).
  - destruct Hw1. by split.
  - cbn. apply Hops. split; [done|]. by rewrite HopC.
  - cbn. change (operation_at (with_conn_reqs self1 _) idC)
      with (operation_at self1 idC). rewrite HopC. unfold owns_link. cbn.
    by rewrite String.eqb_refl, Z.eqb_refl.
  - cbn. apply Forall_forall. intros id Hid. apply list_elem_of_In, Hops in Hid.
    destruct Hid as [Hid _]. cbn in Hid. rewrite Hops0 in Hid.
    apply in_app_or in Hid as [Hid|[<-|[]]]; [|by left]. right.
    change (operation_at (with_conn_reqs self1 _) id) with (operation_at self1 id).
    rewrite (proj1 (Hothers id Hid)). by apply Hfor, list_elem_of_In.
  - cbn. rewrite Hpub. cbn. rewrite Hops0, flat_map_app, Hpub0. cbn.
    rewrite flat_map_nil.
    + cbn. rewrite app_nil_r. f_equal. unfold pubs_of.
      change (operation_at self0' idC) with (operation_at self0 idC).
      rewrite Hnew. unfold handle_event. cbn.
      by rewrite Hlow, String.eqb_refl.
    + intros id Hid. by apply Hothers.
Qed.

(** * Further properties of the code *)

(** ** The stand-in backend: statuses and round trips *)

Lemma dict_pop_set_absent {V : Type} (d : dict V) (k : string) (v : V) :
  dict_mem d k = false -> dict_pop (dict_set d k v) k = d.
Proof.
  unfold dict_mem. induction d as [|[k' v'] d IH]; cbn.
  - by rewrite String.eqb_refl.
  - destruct (String.eqb k' k) eqn:E; [done|]. cbn. rewrite E. intros H.
    by rewrite IH.
Qed.

Lemma dict_mem_set_ne {V : Type} (d : dict V) (k k' : string) (v : V) :
  k <> k' -> dict_mem (dict_set d k v) k' = dict_mem d k'.
Proof. intros H. unfold dict_mem. by rewrite dict_get_set_ne. Qed.

Lemma dict_mem_pop_ne {V : Type} (d : dict V) (k k' : string) :
  k <> k' -> dict_mem (dict_pop d k) k' = dict_mem d k'.
Proof. intros H. unfold dict_mem. by rewrite dict_get_pop_ne. Qed.

Lemma count_connected_snoc A pubs reason B connected :
  count_connected A (pubs ++ [publish_connection_status reason B connected]) =
    (count_connected A pubs + if connected && String.eqb B A then 1 else 0)%nat.
Proof.
  unfold count_connected. rewrite List.filter_app, length_app. cbn.
  destruct connected; cbn; [|done]. by destruct (String.eqb B A).
Qed.

Lemma count_disconnected_snoc_any A pubs reason B connected :
  count_disconnected A (pubs ++ [publish_connection_status reason B connected]) =
    (count_disconnected A pubs + if negb connected && String.eqb B A then 1 else 0)%nat.
Proof.
  unfold count_disconnected. rewrite List.filter_app, length_app. cbn.
  destruct connected; cbn; [done|]. by destruct (String.eqb B A).
Qed.

Lemma mock_perform_balanced R self req :
  mock_balanced R self -> mock_balanced R (Mock.perform self req).
Proof.
  intros [Hnd Hbal]. destruct req as [a o r|a o r|a s c|a s c v|a s c|a s c|a]; cbn.
  - unfold Mock.connect. cbn. destruct (dict_mem (Mock.conn_reqs self) a) eqn:Hm; [done|].
    split; cbn [snd Mock.published Mock.conn_reqs];
      [by apply dict_keys_set_NoDup|]. intros A. specialize (Hbal A).
    rewrite count_connected_snoc, count_disconnected_snoc_any.
    cbn [negb andb].
    destruct (String.eqb_spec a A) as [->|Hne].
    + unfold dict_mem at 2. rewrite dict_get_set_eq. rewrite Hm in Hbal. lia.
    + rewrite dict_mem_set_ne by done. lia.
  - unfold Mock.discover. by destruct (negb _).
  - unfold Mock.read. destruct (negb _); [done|]. by destruct (_ || _).
  - unfold Mock.write. by destruct (negb _).
  - unfold Mock.subscribe. destruct (negb _); [done|]. by destruct (bool_decide _).
  - unfold Mock.unsubscribe. by destruct (negb _).
  - unfold Mock.disconnect.
    destruct (dict_mem (Mock.conn_reqs self) a) eqn:Hm; cbn [negb]; [|done].
    split; cbn [snd Mock.published Mock.conn_reqs];
      [by apply dict_keys_pop_NoDup|]. intros A. specialize (Hbal A).
    rewrite count_connected_snoc, count_disconnected_snoc_any.
    cbn [negb andb].
    destruct (String.eqb_spec a A) as [->|Hne].
    + unfold dict_mem at 2. rewrite dict_get_pop_eq by done. rewrite Hm in Hbal. lia.
    + rewrite dict_mem_pop_ne by done. lia.
Qed.

Lemma mock_run_balanced R reqs :
  forall self, mock_balanced R self -> mock_balanced R (Mock.run reqs self).
Proof.
  induction reqs as [|req reqs IH]; intros self Hs; [done|]. cbn.
  apply IH. by apply mock_perform_balanced.
Qed.

(** X1: a stand-in backend starts with the registry [R] that the access
    points of the process share. Whatever calls are made on it, its
    registry keeps distinct addresses, and for every address the number of
    [connected=true] statuses it has published, plus one if [R] held the
    address, equals the number of [connected=false] statuses, plus one if
    the address is registered now. With an address inherited from [R], a
    [connected=false] status is published that no [connected=true] status
    of this access point precedes. *)
Theorem X1_mock_statuses_balanced
    (R : dict ConnectionRequest.t) (reqs : list Request) (A : string) :
  NoDup (dict_keys R) ->
  let self := Mock.run reqs (Mock.init R) in
  NoDup (dict_keys (Mock.conn_reqs self)) /\
  (count_connected A (Mock.published self)
   + if dict_mem R A then 1 else 0)%nat =
  (count_disconnected A (Mock.published self)
   + if dict_mem (Mock.conn_reqs self) A then 1 else 0)%nat.
Proof.
  intros HR. cbn. destruct (mock_run_balanced R reqs (Mock.init R)) as [H1 H2].
  - split; [done | intros; reflexivity].
  - split; [done | apply H2].
Qed.

Lemma X1_mock_statuses_balanced_witness :
  let R := [("C1:5C:00:00:00:00", ConnectionRequest.mk "C1:5C:00:00:00:00" 0 EmptyDict)] in
  let self := Mock.run [ReqDisconnect "C1:5C:00:00:00:00"] (Mock.init R) in
  count_connected "C1:5C:00:00:00:00" (Mock.published self) = 0%nat /\
  count_disconnected "C1:5C:00:00:00:00" (Mock.published self) = 1%nat /\
  (count_connected "C1:5C:00:00:00:00" (Mock.published self) + 1)%nat =
  (count_disconnected "C1:5C:00:00:00:00" (Mock.published self) + 0)%nat.
Proof.
  split; [reflexivity|]. split; [reflexivity|].
  refine (proj2 (X1_mock_statuses_balanced
                   [("C1:5C:00:00:00:00",
                     ConnectionRequest.mk "C1:5C:00:00:00:00" 0 EmptyDict)]
                   [ReqDisconnect "C1:5C:00:00:00:00"] "C1:5C:00:00:00:00" _)).
  apply NoDup_singleton.
Defined.

(** X2: on the stand-in backend a successful [connect] followed by
    [disconnect] of the same address restores the registry and the
    subscriptions and publishes the two statuses in that order; a
    successful [subscribe] followed by [unsubscribe] of the same triple
    restores the whole state. *)
Theorem X2_mock_round_trips :
  (forall self A options retries self1,
     Mock.connect self A options retries = (Returned tt, self1) ->
     exists self2,
       Mock.disconnect self1 A = (Returned tt, self2) /\
       Mock.conn_reqs self2 = Mock.conn_reqs self /\
       Mock._subscription_threads self2 = Mock._subscription_threads self /\
       Mock.published self2 =
         Mock.published self ++
           [publish_connection_status (Some 0) A true;
            publish_connection_status (Some 1) A false]) /\
  (forall self A S C response self1,
     Mock.subscribe self A S C = (Returned response, self1) ->
     Mock.unsubscribe self1 A S C
       = (Returned (UnsubscribeResponse.mk A S C true), self)).
Proof.
  split.
  - intros self A options retries self1. unfold Mock.connect. cbn [Mock.connectable negb].
    destruct (dict_mem (Mock.conn_reqs self) A) eqn:Hm; [done|].
    intros [= <-]. unfold Mock.disconnect. cbn [Mock.conn_reqs].
    unfold dict_mem at 1. rewrite dict_get_set_eq. cbn [negb].
    eexists. split; [reflexivity|].
    cbn [Mock.conn_reqs Mock._subscription_threads Mock.published].
    rewrite dict_pop_set_absent by done. rewrite <- app_assoc. done.
  - intros self A S C response self1. unfold Mock.subscribe.
    destruct (negb _); [done|]. case_bool_decide as Hin; [done|].
    intros [= _ <-]. unfold Mock.unsubscribe. cbn [Mock._subscription_threads].
    rewrite bool_decide_true by (apply elem_of_union_l; by apply elem_of_singleton).
    cbn [negb]. f_equal.
    destruct self as [cr th pub]. cbn in *. f_equal.
    apply set_eq. intros x.
    rewrite elem_of_difference, elem_of_union, !elem_of_singleton.
    split; [intros [[->|?] ?]; done | intros ?; split; [by right | by intros ->]].
Qed.

Lemma X2_mock_round_trips_witness :
  exists self2,
    Mock.disconnect
      (snd (Mock.connect (Mock.init []) "C1:5C:00:00:00:00" BleConnectOptions.default 3))
      "C1:5C:00:00:00:00"
    = (Returned tt, self2) /\
    Mock.conn_reqs self2 = [].
Proof.
  destruct (proj1 X2_mock_round_trips (Mock.init []) "C1:5C:00:00:00:00"
              BleConnectOptions.default 3 _ eq_refl) as (self2 & H1 & H2 & _).
  exists self2. split; [exact H1 | exact H2].
Defined.

(** ** The host-stack backend *)

(** X3: on the host-stack backend neither [subscribe] nor [unsubscribe]
    ever returns a response. For a connected client whose backend call
    completes, the call has been made ([start_notify], [stop_notify]) and
    the constructor of the response, called without its last field, makes
    the call end in its own error kind. *)
Theorem X3_bluez_subscription_calls_never_return
    (self : Bluez.BluezAccessPoint) (address service_uuid char_uuid : string) :
  (forall reply response,
     fst (BluezCalls.subscribe self address service_uuid char_uuid reply)
       <> Returned response) /\
  (forall reply response,
     fst (BluezCalls.unsubscribe self address service_uuid char_uuid reply)
       <> Returned response) /\
  (Bluez.is_connected self address = true ->
   BluezCalls.subscribe self address service_uuid char_uuid Bluez.Completed
     = (Raised
          (BleSubscribeError
             "subscribe failed: SubscribeResponse.__init__() missing 1 required positional argument: 'subscribed'"),
        [BluezCalls.start_notify address char_uuid]) /\
   BluezCalls.unsubscribe self address service_uuid char_uuid Bluez.Completed
     = (Raised
          (BleUnsubscribeError
             "unsubscribe failed: UnsubscribeResponse.__init__() missing 1 required positional argument: 'unsubscribed'"),
        [BluezCalls.stop_notify address char_uuid])).
Proof.
  split; [|split].
  - intros reply response. unfold BluezCalls.subscribe.
    destruct (_ || _); [done|]. by destruct reply.
  - intros reply response. unfold BluezCalls.unsubscribe.
    destruct (_ || _); [done|]. by destruct reply.
  - intros Hc. unfold BluezCalls.subscribe, BluezCalls.unsubscribe.
    assert (Hm : dict_mem (Bluez.clients self) address = true).
    { unfold Bluez.is_connected in Hc. unfold dict_mem.
      by destruct (dict_get (Bluez.clients self) address). }
    rewrite Hm, Hc. done.
Qed.

Lemma X3_bluez_subscription_calls_never_return_witness :
  BluezCalls.subscribe (Bluez.mk [] [("C1:5C:00:00:00:00", true)])
    "C1:5C:00:00:00:00" "180d" "2a37" Bluez.Completed
  = (Raised
       (BleSubscribeError
          "subscribe failed: SubscribeResponse.__init__() missing 1 required positional argument: 'subscribed'"),
     [BluezCalls.start_notify "C1:5C:00:00:00:00" "2a37"]).
Proof.
  apply (X3_bluez_subscription_calls_never_return
           (Bluez.mk [] [("C1:5C:00:00:00:00", true)])
           "C1:5C:00:00:00:00" "180d" "2a37").
  reflexivity.
Defined.

(** X4: [connect] on the host-stack backend, for an address without a
    connected client and with a backend call that completes, registers the
    address in both maps and publishes [connected=true]; a second
    [connect] is refused. The disconnected callback of that client then
    removes the address from both maps, leaves every other address as it
    was before the [connect], and publishes [connected=false] -- also when
    it is invoked a second time. *)
Theorem X4_bluez_connect_then_callback
    (self : Bluez.BluezAccessPoint) (A : string)
    (options : BleConnectOptions.t) (retries : Z) :
  NoDup (dict_keys (Bluez.clients self)) ->
  NoDup (dict_keys (Bluez.conn_reqs self)) ->
  Bluez.is_connected self A = false ->
  exists self1,
    BluezCalls.connect self A options retries Bluez.Completed
      = (Returned tt, self1, [BluezCalls.client_connect A],
         [BluezCalls.publish_connection_status "connected" A true]) /\
    get_connection (Bluez.conn_reqs self1) A = Some (ConnectionRequest.mk A 0 EmptyDict) /\
    Bluez.is_connected self1 A = true /\
    (forall options' retries' reply,
       BluezCalls.connect self1 A options' retries' reply
         = (Raised (BleConnectionError "already connected"), self1, [], [])) /\
    forall self2 pubs,
      BluezCalls.disconnected_callback self1 A = (self2, pubs) ->
      pubs = [BluezCalls.publish_connection_status "disconnected" A false] /\
      get_connection (Bluez.conn_reqs self2) A = None /\
      dict_get (Bluez.clients self2) A = None /\
      (forall B, B <> A ->
         get_connection (Bluez.conn_reqs self2) B
           = get_connection (Bluez.conn_reqs self) B /\
         dict_get (Bluez.clients self2) B = dict_get (Bluez.clients self) B) /\
      BluezCalls.disconnected_callback self2 A = (self2, pubs).
Proof.
  intros Hndc Hndr Hc. unfold BluezCalls.connect. rewrite Hc, andb_false_r.
  eexists. split; [reflexivity|]. unfold get_connection.
  cbn [Bluez.conn_reqs Bluez.clients].
  split; [apply dict_get_set_eq|].
  assert (Hc1 : Bluez.is_connected
                  {| Bluez.conn_reqs :=
                       dict_set (Bluez.conn_reqs self) A (ConnectionRequest.mk A 0 EmptyDict);
                     Bluez.clients := dict_set (Bluez.clients self) A true |} A = true).
  { unfold Bluez.is_connected. cbn. by rewrite dict_get_set_eq. }
  split; [done|]. split.
  { intros o r reply. rewrite Hc1. unfold dict_mem. cbn. by rewrite dict_get_set_eq. }
  intros self2 pubs. unfold BluezCalls.disconnected_callback.
  cbn [Bluez.conn_reqs Bluez.clients]. unfold dict_mem.
  rewrite !dict_get_set_eq. intros [= <- <-].
  cbn [Bluez.conn_reqs Bluez.clients].
  assert (Hr : dict_get (dict_pop (dict_set (Bluez.conn_reqs self) A
                                     (ConnectionRequest.mk A 0 EmptyDict)) A) A = None)
    by (apply dict_get_pop_eq; by apply dict_keys_set_NoDup).
  assert (Hcl : dict_get (dict_pop (dict_set (Bluez.clients self) A true) A) A = None)
    by (apply dict_get_pop_eq; by apply dict_keys_set_NoDup).
  split; [done|]. split; [done|]. split; [done|]. split.
  - intros B HB. rewrite !dict_get_pop_ne, !dict_get_set_ne by done. done.
  - by rewrite Hr, Hcl.
Qed.

Lemma X4_bluez_connect_then_callback_witness :
  exists self1,
    BluezCalls.connect (Bluez.mk [] []) "C1:5C:00:00:00:00"
      BleConnectOptions.default 3 Bluez.Completed
      = (Returned tt, self1, [BluezCalls.client_connect "C1:5C:00:00:00:00"],
         [BluezCalls.publish_connection_status "connected" "C1:5C:00:00:00:00" true]) /\
    Bluez.is_connected self1 "C1:5C:00:00:00:00" = true.
Proof.
  destruct (X4_bluez_connect_then_callback (Bluez.mk [] []) "C1:5C:00:00:00:00"
              BleConnectOptions.default 3) as (self1 & H1 & _ & H2 & _).
  - constructor.
  - constructor.
  - reflexivity.
  - exists self1. split; assumption.
Defined.

(** ** SDF references and topics *)

Lemma append_nil_l (s : string) : (EmptyString ++ s)%string = s.
Proof. reflexivity. Qed.

Lemma append_cons (c : ascii) (a b : string) :
  (String c a ++ b)%string = String c (a ++ b)%string.
Proof. reflexivity. Qed.

Lemma str_split_once_absent (sep : ascii) (s : string) :
  char_in sep s = false -> str_split_once sep s = [s].
Proof.
  induction s as [|c s IH]; cbn; [done|].
  destruct (Ascii.eqb c sep); cbn; [done|]. intros H. by rewrite IH.
Qed.

Lemma str_split_once_first (sep : ascii) (a b : string) :
  char_in sep a = false ->
  str_split_once sep (a ++ String sep b) = [a; b].
Proof.
  induction a as [|c a IH];
    rewrite ?append_nil_l, ?append_cons; cbn [str_split_once char_in].
  - by rewrite Ascii.eqb_refl.
  - destruct (Ascii.eqb c sep); cbn [orb]; [done|]. intros H. by rewrite IH.
Qed.

Lemma char_in_split (sep : ascii) (s : string) :
  char_in sep s = true ->
  exists a b, s = (a ++ String sep b)%string /\ char_in sep a = false.
Proof.
  induction s as [|c s IH]; cbn; [done|].
  destruct (Ascii.eqb_spec c sep) as [->|Hne]; cbn.
  - intros _. by exists EmptyString, s.
  - intros H. destruct (IH H) as (a & b & -> & Ha). exists (String c a), b.
    split; [done|]. cbn. apply Ascii.eqb_neq in Hne. by rewrite Hne.
Qed.

Lemma str_split_cons (sep : ascii) (s : string) :
  exists x l, str_split sep s = x :: l.
Proof.
  induction s as [|c s (x & l & IH)]; cbn; [by eexists _, _|].
  destruct (Ascii.eqb c sep); [by eexists _, _|]. rewrite IH. by eexists _, _.
Qed.

Lemma str_join_cons (sep x y : string) (l : list string) :
  str_join sep (x :: y :: l) = (x ++ sep ++ str_join sep (y :: l))%string.
Proof. reflexivity. Qed.

Lemma str_join_split (sep : ascii) (s : string) :
  str_join (String sep EmptyString) (str_split sep s) = s.
Proof.
  induction s as [|c s IH]; cbn [str_split]; [done|].
  destruct (str_split_cons sep s) as (x & l & E). rewrite E in *.
  destruct (Ascii.eqb_spec c sep) as [->|Hne].
  - by rewrite str_join_cons, IH.
  - destruct l as [|y l].
    + cbn in *. by rewrite IH.
    + rewrite str_join_cons in *. by rewrite append_cons, IH.
Qed.

Lemma str_split_no_sep (sep : ascii) (s : string) :
  Forall (fun c => char_in sep c = false) (str_split sep s).
Proof.
  induction s as [|c s IH]; cbn; [by repeat constructor|].
  destruct (Ascii.eqb c sep) eqn:E; [by constructor|].
  destruct (str_split_cons sep s) as (x & l & E'). rewrite E' in *.
  apply Forall_cons in IH as [Hx Hl]. apply Forall_cons. split; [|done].
  cbn. by rewrite E, Hx.
Qed.

Lemma str_split_absent (sep : ascii) (s : string) :
  char_in sep s = false -> str_split sep s = [s].
Proof.
  induction s as [|c s IH]; cbn; [done|].
  destruct (Ascii.eqb c sep); cbn; [done|]. intros H. by rewrite IH.
Qed.

Lemma str_split_app (sep : ascii) (a b : string) :
  char_in sep a = false ->
  str_split sep (a ++ String sep b) = a :: str_split sep b.
Proof.
  induction a as [|c a IH];
    rewrite ?append_nil_l, ?append_cons; cbn [str_split char_in].
  - by rewrite Ascii.eqb_refl.
  - destruct (Ascii.eqb c sep); cbn [orb]; [done|]. intros H. by rewrite IH.
Qed.

Lemma str_split_join (sep : ascii) (l : list string) :
  l <> [] -> Forall (fun c => char_in sep c = false) l ->
  str_split sep (str_join (String sep EmptyString) l) = l.
Proof.
  induction l as [|x l IH]; [done|]. intros _ Hf.
  apply Forall_cons in Hf as [Hx Hl]. destruct l as [|y l].
  - cbn [str_join]. by apply str_split_absent.
  - rewrite str_join_cons, append_cons, append_nil_l.
    rewrite str_split_app by done. by rewrite IH.
Qed.

Lemma str_join_empty (sep : ascii) (l : list string) :
  str_join (String sep EmptyString) l = EmptyString -> l = [] \/ l = [EmptyString].
Proof.
  destruct l as [|x [|y l]]; [by left | cbn; intros ->; by right |].
  rewrite str_join_cons. destruct x; [|done].
  by rewrite append_nil_l, append_cons.
Qed.

Lemma length_le_1 (s : string) :
  (1 <? String.length (String "/" s))%nat = negb (String.eqb s EmptyString).
Proof. by destruct s. Qed.

Lemma prefix_slash (s : string) :
  String.prefix "/" s = true -> exists rest, s = String "/" rest.
Proof.
  destruct s as [|c s]; cbn [String.prefix]; [done|].
  destruct (ascii_dec "/" c) as [<-|]; [|done]. intros _. by exists s.
Qed.

Lemma prefix_slash_cons (s : string) : String.prefix "/" (String "/" s) = true.
Proof. cbn [String.prefix]. destruct (ascii_dec "/" "/"); [|done]. by destruct s. Qed.

Lemma char_in_app_sep (sep : ascii) (a b : string) :
  char_in sep (a ++ String sep b) = true.
Proof.
  induction a as [|c a IH]; rewrite ?append_nil_l, ?append_cons; cbn [char_in].
  - by rewrite Ascii.eqb_refl.
  - by rewrite IH, orb_true_r.
Qed.

Lemma parse_sdf_reference_inv
    (sdf_reference namespace : string) (path_components : list string) :
  parse_sdf_reference sdf_reference = inr (namespace, path_components) ->
  sdf_reference = (namespace ++ "#/" ++ str_join "/" path_components)%string /\
  char_in "#" namespace = false /\
  Forall (fun c => char_in "/" c = false) path_components /\
  path_components <> [EmptyString].
Proof.
  unfold parse_sdf_reference.
  destruct (char_in "#" sdf_reference) eqn:Hin; cbn [negb]; [|done].
  destruct (char_in_split _ _ Hin) as (ns & ptr & -> & Hns).
  rewrite str_split_once_first by done.
  destruct (String.prefix "/" ptr) eqn:Hp; cbn [negb]; [|done].
  destruct (prefix_slash _ Hp) as (rest & ->). rewrite length_le_1.
  intros [= <- <-]. split; [|split; [done|]].
  - f_equal. destruct (String.eqb_spec rest EmptyString) as [->|Hne]; cbn [negb]; [done|].
    cbn [String.append str_tail]. by rewrite str_join_split.
  - destruct (String.eqb_spec rest EmptyString) as [->|Hne]; cbn [negb].
    + split; [constructor | done].
    + cbn [str_tail]. split; [apply str_split_no_sep|].
      intros E. apply Hne. by rewrite <- (str_join_split "/" rest), E.
Qed.

Lemma parse_sdf_reference_accepts (namespace : string) (path_components : list string) :
  char_in "#" namespace = false ->
  Forall (fun c => char_in "/" c = false) path_components ->
  path_components <> [EmptyString] ->
  parse_sdf_reference (namespace ++ "#/" ++ str_join "/" path_components)
    = inr (namespace, path_components).
Proof.
  intros Hns Hf Hne. unfold parse_sdf_reference.
  change ("#/" ++ ?x)%string with (String "#" (String "/" x)).
  rewrite char_in_app_sep. cbn [negb].
  rewrite str_split_once_first by done. rewrite prefix_slash_cons. cbn [negb].
  rewrite length_le_1.
  destruct (String.eqb_spec (str_join "/" path_components) EmptyString) as [E|E];
    cbn [negb].
  - destruct (str_join_empty _ _ E) as [E'|E']; by subst.
  - cbn [str_tail]. rewrite str_split_join; [done| |done]. by intros ->.
Qed.

(** X5: [parse_sdf_reference] and the textual form of a reference are
    inverse to each other. It returns the namespace and the path
    components exactly for the texts [namespace#/c1/.../cn] whose
    namespace has no ['#'] and whose components have no ['/'], the one
    component list it never returns being the single empty component (the
    pointer ["/"] gives the empty list). *)
Theorem X5_parse_sdf_reference_round_trip
    (sdf_reference namespace : string) (path_components : list string) :
  parse_sdf_reference sdf_reference = inr (namespace, path_components) <->
  sdf_reference = (namespace ++ "#/" ++ str_join "/" path_components)%string /\
  char_in "#" namespace = false /\
  Forall (fun c => char_in "/" c = false) path_components /\
  path_components <> [EmptyString].
Proof.
  split; [apply parse_sdf_reference_inv|].
  intros (-> & Hns & Hf & Hne). by apply parse_sdf_reference_accepts.
Qed.

Lemma X5_parse_sdf_reference_round_trip_witness :
  parse_sdf_reference "https://example.com/thermometer#/sdfThing/thermometer"
    = inr ("https://example.com/thermometer", ["sdfThing"; "thermometer"]).
Proof.
  apply (proj2 (X5_parse_sdf_reference_round_trip
                  "https://example.com/thermometer#/sdfThing/thermometer"
                  "https://example.com/thermometer" ["sdfThing"; "thermometer"])).
  split; [reflexivity|]. split; [reflexivity|]. split.
  - apply Forall_cons. split; [reflexivity|].
    apply Forall_cons. split; [reflexivity | constructor].
  - discriminate.
Defined.

(** X6: [parse_sdf_reference] fails in exactly two ways, both a
    [ValueError] whose message quotes the reference: the text has no
    ['#'], or the text after its first ['#'] does not start with ['/']. *)
Theorem X6_parse_sdf_reference_errors (sdf_reference : string) (e : exn) :
  parse_sdf_reference sdf_reference = inl e ->
  (char_in "#" sdf_reference = false /\
   e = ValueError
         ("Failed to parse SDF reference '" ++ sdf_reference
            ++ "': Invalid SDF reference: missing '#'")) \/
  (exists namespace json_pointer,
     sdf_reference = (namespace ++ "#" ++ json_pointer)%string /\
     char_in "#" namespace = false /\
     String.prefix "/" json_pointer = false /\
     e = ValueError
           ("Failed to parse SDF reference '" ++ sdf_reference
              ++ "': Invalid SDF reference: JSON pointer must start with '/'")).
Proof.
  unfold parse_sdf_reference.
  destruct (char_in "#" sdf_reference) eqn:Hin; cbn [negb].
  - destruct (char_in_split _ _ Hin) as (ns & ptr & -> & Hns).
    rewrite str_split_once_first by done.
    destruct (String.prefix "/" ptr) eqn:Hp; cbn [negb]; [done|].
    intros [= <-]. right. by exists ns, ptr.
  - intros [= <-]. by left.
Qed.

Lemma X6_parse_sdf_reference_errors_witness :
  (char_in "#" "thermometer" = false /\
   ValueError
     "Failed to parse SDF reference 'thermometer': Invalid SDF reference: missing '#'"
   = ValueError
       ("Failed to parse SDF reference '" ++ "thermometer"
          ++ "': Invalid SDF reference: missing '#'")) \/
  (exists namespace json_pointer,
     "thermometer" = (namespace ++ "#" ++ json_pointer)%string /\
     char_in "#" namespace = false /\
     String.prefix "/" json_pointer = false /\
     ValueError
       "Failed to parse SDF reference 'thermometer': Invalid SDF reference: missing '#'"
     = ValueError
         ("Failed to parse SDF reference '" ++ "thermometer"
            ++ "': Invalid SDF reference: JSON pointer must start with '/'")).
Proof.
  apply (X6_parse_sdf_reference_errors "thermometer"). reflexivity.
Defined.

(** X7: an event name that [parse_sdf_reference] accepts always gives a
    topic, and the topic has an empty segment between the namespace and
    the path: [data-app/<id>/<namespace>//<c1>/.../<cn>]. An event name
    without ['#'] makes [create_topic_from_event] raise the [ValueError]
    of the failed unpacking. *)
Theorem X7_topic_of_parsed_event (data_app_id event_name : string) :
  (forall namespace path_components,
     parse_sdf_reference event_name = inr (namespace, path_components) ->
     create_topic_from_event data_app_id event_name =
       inr ("data-app/" ++ data_app_id ++ "/" ++ namespace ++ "//"
              ++ str_join "/" path_components)%string) /\
  (char_in "#" event_name = false ->
   create_topic_from_event data_app_id event_name =
     inl (ValueError "not enough values to unpack (expected 2, got 1)")).
Proof.
  split.
  - intros namespace path_components H.
    apply parse_sdf_reference_inv in H as (-> & Hns & _ & _).
    unfold create_topic_from_event.
    change ("#/" ++ ?x)%string with (String "#" (String "/" x)).
    by rewrite str_split_once_first.
  - intros H. unfold create_topic_from_event. by rewrite str_split_once_absent.
Qed.

Lemma X7_topic_of_parsed_event_witness :
  create_topic_from_event "app1"
    "https://example.com/thermometer#/sdfThing/thermometer"
  = inr "data-app/app1/https://example.com/thermometer//sdfThing/thermometer".
Proof.
  apply (proj1 (X7_topic_of_parsed_event "app1"
                  "https://example.com/thermometer#/sdfThing/thermometer")
           "https://example.com/thermometer" ["sdfThing"; "thermometer"]).
  reflexivity.
Defined.


Section Navigate.
Variable repr : string -> string.

Lemma navigate_app (model : json) (p q : list string) :
  navigate repr model (p ++ q) =
    match navigate repr model p with
    | inr m => navigate repr m q
    | inl e => inl e
    end.
Proof.
  revert model. induction p as [|c p IH]; intros model; [done|].
  cbn [navigate app]. destruct model; try done.
  destruct (dict_get d c); [apply IH | done].
Qed.

Lemma navigate_failed (model : json) (path : list string) (e : exn) :
  navigate repr model path = inl e ->
  exists pre component post current,
    path = pre ++ component :: post /\
    navigate repr model pre = inr current /\
    has_component current component = None /\
    e = KeyError (repr ("Component '" ++ component ++ "' not found")).
Proof.
  revert model. induction path as [|c path IH]; intros model; [done|].
  cbn [navigate].
  destruct (has_component model c) as [value|] eqn:Hc.
  - destruct model; try done. cbn in Hc. rewrite Hc. intros H.
    destruct (IH _ H) as (pre & c' & post & cur & -> & Hn & Hh & ->).
    exists (c :: pre), c', post, cur. cbn [navigate]. rewrite Hc. done.
  - intros H. exists [], c, path, model. cbn [navigate]. repeat split; [done|].
    destruct model; try (by injection H as <-). cbn in Hc. rewrite Hc in H.
    by injection H as <-.
Qed.

(** X8: [navigate_sdf_model] follows a path one dictionary at a time: the
    empty path gives the model, a path [p ++ q] leads where [q] leads from
    the value [p] leads to, and a failure is a [ValueError] that quotes the
    whole path and names the first component that is missing or is looked
    up in a value that is not a dictionary. *)
Theorem X8_navigate_sdf_model_paths (model : json) :
  navigate_sdf_model repr model [] = inr model /\
  (forall p q value,
     navigate_sdf_model repr model (p ++ q) = inr value <->
     exists current,
       navigate_sdf_model repr model p = inr current /\
       navigate_sdf_model repr current q = inr value) /\
  (forall path e,
     navigate_sdf_model repr model path = inl e ->
     exists pre component post current,
       path = pre ++ component :: post /\
       navigate_sdf_model repr model pre = inr current /\
       has_component current component = None /\
       e = ValueError
             ("Invalid SDF path '" ++ str_join "/" path ++ "': "
                ++ repr ("Component '" ++ component ++ "' not found"))).
Proof.
  unfold navigate_sdf_model. split; [done|]. split.
  - intros p q value. rewrite navigate_app.
    destruct (navigate repr model p) as [e|m].
    + split; [done|]. by intros (? & ? & ?).
    + split.
      * intros H. exists m. split; [done|]. by destruct (navigate repr m q).
      * intros (cur & [= <-] & H). by destruct (navigate repr m q).
  - intros path e. destruct (navigate repr model path) as [e'|m] eqn:Hn; [|done].
    intros [= <-].
    destruct (navigate_failed _ _ _ Hn) as (pre & c & post & cur & -> & Hp & Hh & ->).
    exists pre, c, post, cur. rewrite Hp. done.
Qed.
End Navigate.

Lemma X8_navigate_sdf_model_paths_witness :
  navigate_sdf_model (fun s => s)
    (JDict [("sdfThing", JDict [("thermometer", JStr "t")])])
    (["sdfThing"] ++ ["thermometer"])
  = inr (JStr "t").
Proof.
  apply (proj1 (proj2 (X8_navigate_sdf_model_paths (fun s => s)
                         (JDict [("sdfThing", JDict [("thermometer", JStr "t")])])))
           ["sdfThing"] ["thermometer"] (JStr "t")).
  exists (JDict [("thermometer", JStr "t")]). split; reflexivity.
Defined.


(** ** The event handler of the radio-chip backend *)

Lemma list_remove_filter (y : nat) (l : list nat) :
  NoDup l -> list_remove y l = List.filter (fun x => negb (Nat.eqb x y)) l.
Proof.
  induction l as [|x l IH]; [done|]. intros Hnd.
  apply NoDup_cons in Hnd as [Hx Hnd]. cbn [list_remove List.filter].
  rewrite (Nat.eqb_sym x y). destruct (Nat.eqb_spec y x) as [->|Hne]; cbn [negb].
  - symmetry. apply forallb_filter_id. apply forallb_forall. intros z Hz.
    apply negb_true_iff, Nat.eqb_neq. intros ->. by apply Hx, list_elem_of_In.
  - by rewrite IH.
Qed.

Lemma filter_filter {X : Type} (p q : X -> bool) (l : list X) :
  List.filter p (List.filter q l) = List.filter (fun x => q x && p x) l.
Proof.
  induction l as [|x l IH]; [done|]. cbn. destruct (q x); cbn; [|done].
  destruct (p x); by rewrite IH.
Qed.

Lemma remove_all_filter (rm : list nat) :
  forall l, NoDup l ->
    remove_all rm l = List.filter (fun x => negb (existsb (Nat.eqb x) rm)) l.
Proof.
  unfold remove_all. induction rm as [|y rm IH]; intros l Hnd; cbn [fold_left existsb].
  - symmetry. apply forallb_filter_id. by apply forallb_forall.
  - rewrite IH by (by apply list_remove_NoDup).
    rewrite list_remove_filter, filter_filter by done.
    apply filter_ext. intros x. by rewrite negb_orb.
Qed.

(** X9: [event_handler], when no handler raises, offers the event to every
    pending operation exactly once, leaves every other operation object as
    it was, issues no command, and drops from the dispatch list exactly the
    operations that are done afterwards, keeping the order of the others.
    When a handler raises, nothing is dropped and the callbacks of the
    access point are not run: the dispatch list, the entries of the
    registry (address, handle and dictionary object) and the ready flag
    stay as they were. The operations served before the failing one keep
    what their handlers did, so a dictionary that a registry entry holds
    can have changed by then: while a second discovery waits, a
    characteristic event is added to the cached service 180f by the first
    discover operation before the second one raises. *)
Theorem X9_event_handler_retires_done (self : SilabsAccessPoint) (evt : Event) :
  operations_wf self ->
  (forall self',
     event_handler self evt = (None, self') ->
     operations self' =
       List.filter (fun id => negb (is_done (operation_at self' id)))
         (operations self) /\
     (forall id, In id (operations self) ->
        handle_event (operation_at self id) evt
          = inr (operation_at self' id, pubs_of (operation_at self id) evt)) /\
     (forall j, ~ In j (operations self) ->
        operation_at self' j = operation_at self j) /\
     commands self' = commands self) /\
  (forall e self',
     event_handler self evt = (Some e, self') ->
     operations self' = operations self /\
     conn_reqs self' = conn_reqs self /\
     commands self' = commands self /\
     ready self' = ready self) /\
  (exists self',
     event_handler Scenario.rediscovering
       (bt_evt_gatt_characteristic 1 Scenario.uuid_2a37 21 0x02)
       = (Some (AttributeError "current_service"), self') /\
     get_connection (conn_reqs self') Scenario.address
       = Some (ConnectionRequest.mk Scenario.address 1 (ServicesOf 1)) /\
     dict_get (services_at Scenario.rediscovering (ServicesOf 1)) "180f"
       = Some (mkService "180f" 20 []) /\
     dict_get (services_at self' (ServicesOf 1)) "180f"
       = Some (mkService "180f" 20
                 [("2a37", mkCharacteristic "2a37" 21 ["read"] [])])).
Proof.
  intros Hwf. split; [|split].
  - intros self' Heh.
    destruct (event_handler_spec _ _ _ Hwf Heh) as (Hcells & Hout & _ & Hops & _).
    split; [|split; [done|split; [done|by eapply event_handler_commands]]].
    unfold event_handler in Heh.
    destruct (dispatch (operations self) evt self []) as [[oe self1] rm] eqn:Hd.
    destruct oe as [e|]; [done|].
    destruct Hwf as [Hnd Hb].
    pose proof (dispatch_frame _ _ _ _ _ _ _ Hd) as (_ & _ & Hops1 & _ & _).
    assert (Hrm : forall id, In id rm <->
              In id (operations self) /\ is_done (operation_at self1 id) = true).
    { destruct (dispatch_spec evt (operations self) self [] self1 rm) as (_ & _ & H);
        [done| |done|].
      - intros id Hid. rewrite Forall_forall in Hb. by apply Hb, list_elem_of_In.
      - intros id. rewrite H. cbn. tauto. }
    assert (E : operations self' = remove_all rm (operations self) /\
                forall id, operation_at self' id = operation_at self1 id).
    { injection Heh as <-. rewrite <- Hops1.
      destruct evt; try done. unfold bt_evt_connection_closed_handler.
      by destruct (address_of_handle _ _). }
    destruct E as [-> Hat]. rewrite remove_all_filter by done.
    apply filter_ext_in. intros id Hid. rewrite Hat. f_equal.
    destruct (is_done (operation_at self1 id)) eqn:Hdone.
    + apply existsb_exists. exists id. split; [|apply Nat.eqb_refl].
      apply Hrm. done.
    + apply not_true_is_false. intros Hex. apply existsb_exists in Hex as (x & Hx & Exy).
      apply Nat.eqb_eq in Exy as ->. apply Hrm in Hx as [_ Hx]. congruence.
  - intros e self' Heh. unfold event_handler in Heh.
    destruct (dispatch (operations self) evt self []) as [[oe self1] rm] eqn:Hd.
    destruct oe as [e'|]; [|done]. injection Heh as <- <-.
    pose proof (dispatch_frame _ _ _ _ _ _ _ Hd) as (? & ? & ? & ? & _). done.
  - eexists. split; [vm_compute; reflexivity|]. split; [vm_compute; reflexivity|].
    split; vm_compute; reflexivity.
Qed.

Lemma scenario_discovered_wf : operations_wf Scenario.discovered.
Proof. split; apply (bool_decide_unpack _); by vm_compute. Qed.

Lemma scenario_connected_wf : operations_wf Scenario.connected.
Proof. split; apply (bool_decide_unpack _); by vm_compute. Qed.

Lemma X9_event_handler_retires_done_witness :
  exists self',
    event_handler Scenario.connected (bt_evt_connection_closed 1 0x1013)
      = (None, self') /\
    operations self' =
      List.filter (fun id => negb (is_done (operation_at self' id)))
        (operations Scenario.connected).
Proof.
  eexists. split; [vm_compute; reflexivity|].
  eapply (proj1 (X9_event_handler_retires_done Scenario.connected
                   (bt_evt_connection_closed 1 0x1013) scenario_connected_wf)).
  vm_compute. reflexivity.
Defined.

Lemma new_operation_spec (self : SilabsAccessPoint) (c : OperationClass) id self0 :
  new_operation self c = (id, self0) ->
  id = length (heap self) /\
  conn_reqs self0 = conn_reqs self /\
  operations self0 = operations self ++ [id] /\
  heap self0 = heap self ++ [Operation_init c] /\
  published self0 = published self /\
  commands self0 = commands self /\
  operation_at self0 id = Operation_init c.
Proof.
  intros E. pose proof (operation_at_new self c) as Hnew. rewrite E in Hnew.
  cbn [fst snd] in Hnew. unfold new_operation in E. injection E as <- <-.
  by repeat split.
Qed.

Lemma new_operation_wf (self : SilabsAccessPoint) (c : OperationClass) id self0 :
  operations_wf self ->
  new_operation self c = (id, self0) ->
  operations_wf self0 /\ In id (operations self0) /\ ~ In id (operations self).
Proof.
  intros [Hnd Hb] E.
  destruct (new_operation_spec _ _ _ _ E) as (-> & _ & Hops & Hheap & _).
  rewrite Forall_forall in Hb.
  assert (Hfresh : ~ In (length (heap self)) (operations self)).
  { intros Hin. apply list_elem_of_In, Hb in Hin. lia. }
  split; [split|split; [|done]]; rewrite Hops.
  - apply NoDup_app. split; [done|]. split; [|apply NoDup_singleton].
    intros id Hid Hid'. apply list_elem_of_singleton in Hid' as ->.
    by apply Hfresh, list_elem_of_In.
  - rewrite Hheap, length_app. cbn. apply Forall_app. split.
    + apply Forall_forall. intros id Hid. apply Hb in Hid. lia.
    + apply Forall_cons. split; [lia | constructor].
  - apply in_or_app. right. by left.
Qed.

Lemma issue_wf (self : SilabsAccessPoint) (c : Command) :
  operations_wf self -> operations_wf (issue self c).
Proof. intros [? ?]. by split. Qed.

(** ** The life of a write operation *)

Lemma block_write (w : WriteOperation.t) (id : nat) :
  forall stimuli self self' rest,
    operations_wf self -> In id (operations self) ->
    class (operation_at self id) = Write w ->
    is_done (operation_at self id) = false ->
    block false id self stimuli = Resumed self' rest ->
    ~ In id (operations self') /\
    (forall j, In j (operations self') -> In j (operations self)) /\
    class (operation_at self' id) = Write w /\
    is_done (operation_at self' id) = true /\
    flag (operation_at self' id) = true.
Proof.
  induction stimuli as [|[evt|] stimuli IH]; intros self self' rest Hwf Hin Hcl Hnd;
    cbn [block]; [done| |by apply IH].
  destruct (event_handler self evt) as [[e|] self1] eqn:Heh; [done|].
  destruct (event_handler_spec _ _ _ Hwf Heh) as (Hcells & _ & _ & Hops & Hwf1).
  specialize (Hcells id Hin). unfold handle_event in Hcells. rewrite Hcl in Hcells.
  injection Hcells as Hop _.
  assert (Hcase :
    (operation_at self1 id = mark_done (set (operation_at self id))) \/
    operation_at self1 id = operation_at self id).
  { rewrite <- Hop. destruct evt; cbn; try by right.
    destruct (_ =? _); [by left | by right]. }
  destruct Hcase as [E|E]; rewrite E.
  - cbn [signals mark_done set]. rewrite (proj2 (Nat.ltb_lt _ _)) by lia.
    intros [= <- <-]. rewrite E. cbn. split; [|split; [|done]].
    + intros Hid. apply Hops in Hid as [_ Hid]. by rewrite E in Hid.
    + intros j Hj. by apply Hops in Hj as [Hj _].
  - rewrite Nat.ltb_irrefl. intros Hb.
    destruct (IH self1 self' rest) as (H1 & H2 & H3); try done.
    + apply Hops. split; [done|]. by rewrite E.
    + by rewrite E.
    + by rewrite E.
    + split; [done|]. split; [|done]. intros j Hj. apply H2 in Hj.
      by apply Hops in Hj as [Hj _].
Qed.

(** X10: when [write] returns, its operation has been acknowledged, is
    done and is no longer in the dispatch list, which holds no operation
    that was not pending before the call; the operation's own [response()]
    reports success with the value written. *)
Theorem X10_write_retires_operation
    (self : SilabsAccessPoint) (A S C : string) (value : bytes)
    (stimuli : list Stimulus) response self' rest :
  operations_wf self ->
  write self A S C value stimuli = (Returned response, self', rest) ->
  ~ In (length (heap self)) (operations self') /\
  (forall j, In j (operations self') -> In j (operations self)) /\
  exists w,
    class (operation_at self' (length (heap self))) = Write w /\
    is_done (operation_at self' (length (heap self))) = true /\
    WriteOperation_response (operation_at self' (length (heap self))) w =
      WriteResponse.mk (str_of_int (WriteOperation.handle w)) "" "" (Some value) true.
Proof.
  intros Hwf. unfold write.
  destruct (dict_get (conn_reqs self) A) as [conn_req|]; [|done].
  destruct (lookup_characteristic self conn_req S C) as [e|characteristic]; [done|].
  set (w := WriteOperation.mk _ _ _).
  destruct (new_operation self (Write w)) as [id self0] eqn:En.
  destruct (new_operation_wf _ _ _ _ Hwf En) as (Hwf0 & Hin0 & Hfresh).
  destruct (new_operation_spec _ _ _ _ En) as (Hid & _ & Hops0 & _ & _ & _ & Hnew).
  rewrite <- Hid. unfold WriteOperation_run. rewrite Hnew. cbn [class Operation_init].
  unfold wait. rewrite operation_at_issue, Hnew. cbn [flag Operation_init].
  destruct (block false id _ stimuli) as [self1 rest1|self1] eqn:Hb; [|done].
  intros [= _ <- <-].
  apply (block_write w) in Hb as (H1 & H2 & H3 & H4 & H5).
  - split; [done|]. split.
    + intros j Hj. pose proof (H2 j Hj) as Hj0. cbn in Hj0. rewrite Hops0 in Hj0.
      apply in_app_or in Hj0 as [?|[<-|[]]]; done.
    + exists w. split; [done|]. split; [done|].
      unfold WriteOperation_response. by rewrite H5.
  - by apply issue_wf.
  - done.
  - by rewrite operation_at_issue, Hnew.
  - by rewrite operation_at_issue, Hnew.
Qed.

Lemma X10_write_retires_operation_witness :
  exists response self',
    write Scenario.discovered Scenario.address "180d" "2a37" [Byte.x01]
      Scenario.acknowledged = (Returned response, self', []) /\
    ~ In (length (heap Scenario.discovered)) (operations self').
Proof.
  eexists _, _. split; [vm_compute; reflexivity|].
  refine (proj1 (X10_write_retires_operation Scenario.discovered Scenario.address
                   "180d" "2a37" [Byte.x01] Scenario.acknowledged _ _ _
                   scenario_discovered_wf _)).
  vm_compute. reflexivity.
Defined.

(** ** A read whose procedure completes before its value arrives *)

Lemma block_retired (id : nat) :
  forall stimuli self,
    operations_wf self -> ~ In id (operations self) ->
    exists self', block false id self stimuli = Stuck self'.
Proof.
  induction stimuli as [|[evt|] stimuli IH]; intros self Hwf Hout; cbn [block];
    [by eexists| |by apply IH].
  destruct (event_handler self evt) as [[e|] self1] eqn:Heh; [by eexists|].
  destruct (event_handler_spec _ _ _ Hwf Heh) as (_ & Hsame & _ & Hops & Hwf1).
  rewrite (Hsame id Hout), Nat.ltb_irrefl. apply IH; [done|].
  intros Hin. by apply Hops in Hin as [Hin _].
Qed.

Lemma read_handler_cases (r : ReadOperation.t) (op : Operation) (evt : Event) :
  no_read_response (ReadOperation.handle r) (ReadOperation.char_handle r) (Deliver evt) ->
  (ReadOperation_handle_event op r evt = mark_done op /\
   exists result, evt = bt_evt_gatt_procedure_completed (ReadOperation.handle r) result) \/
  (ReadOperation_handle_event op r evt = op /\
   forall result, evt <> bt_evt_gatt_procedure_completed (ReadOperation.handle r) result).
Proof.
  intros Hq. destruct evt; cbn; try (right; by split).
  - destruct (Z.eqb_spec (ReadOperation.handle r) connection) as [E|E].
    + left. split; [done|]. exists result. congruence.
    + right. split; [done|]. intros r' [= -> ->]. congruence.
  - destruct (Z.eqb_spec (ReadOperation.handle r) connection) as [E1|E1];
      [|right; by split].
    destruct (Z.eqb_spec (ReadOperation.char_handle r) characteristic) as [E2|E2];
      [|right; by split].
    destruct (Z.eqb_spec att_opcode ATT_OPCODE_READ_RESPONSE) as [E3|E3];
      [|right; by split].
    exfalso. apply (Hq value). congruence.
Qed.

Lemma block_read_completed (r : ReadOperation.t) (id : nat) (result : Z)
    (post : list Stimulus) :
  forall pre self,
    operations_wf self -> In id (operations self) ->
    class (operation_at self id) = Read r ->
    is_done (operation_at self id) = false ->
    Forall (no_read_response (ReadOperation.handle r) (ReadOperation.char_handle r)) pre ->
    exists self',
      block false id self
        (pre ++ Deliver (bt_evt_gatt_procedure_completed (ReadOperation.handle r) result)
             :: post)
      = Stuck self'.
Proof.
  assert (Hstep : forall self evt self1,
    operations_wf self -> In id (operations self) ->
    class (operation_at self id) = Read r ->
    is_done (operation_at self id) = false ->
    no_read_response (ReadOperation.handle r) (ReadOperation.char_handle r)
      (Deliver evt) ->
    event_handler self evt = (None, self1) ->
    signals (operation_at self1 id) = signals (operation_at self id) /\
    operations_wf self1 /\
    ((~ In id (operations self1) /\
      exists result,
        evt = bt_evt_gatt_procedure_completed (ReadOperation.handle r) result) \/
     (In id (operations self1) /\ class (operation_at self1 id) = Read r /\
      is_done (operation_at self1 id) = false /\
      forall result,
        evt <> bt_evt_gatt_procedure_completed (ReadOperation.handle r) result))).
  { intros self evt self1 Hwf Hin Hcl Hnd Hq Heh.
    destruct (event_handler_spec _ _ _ Hwf Heh) as (Hcells & _ & _ & Hops & Hwf1).
    specialize (Hcells id Hin). unfold handle_event in Hcells. rewrite Hcl in Hcells.
    injection Hcells as Hop _. rewrite <- Hop.
    destruct (read_handler_cases r (operation_at self id) evt Hq)
      as [[E Hev]|[E Hev]]; rewrite E.
    - split; [done|]. split; [done|]. left. split; [|done].
      intros Hid. apply Hops in Hid as [_ Hid]. by rewrite <- Hop, E in Hid.
    - split; [done|]. split; [done|]. right. split; [|done].
      apply Hops. split; [done|]. by rewrite <- Hop, E. }
  induction pre as [|[evt|] pre IH]; intros self Hwf Hin Hcl Hnd Hpre;
    cbn [app block].
  - destruct (event_handler self _) as [[e|] self1] eqn:Heh; [by eexists|].
    assert (Hq : no_read_response (ReadOperation.handle r) (ReadOperation.char_handle r)
                   (Deliver (bt_evt_gatt_procedure_completed
                               (ReadOperation.handle r) result)))
      by (by intros v).
    destruct (Hstep _ _ _ Hwf Hin Hcl Hnd Hq Heh) as (-> & Hwf1 & Hcase).
    rewrite Nat.ltb_irrefl. destruct Hcase as [[Hgone _]|(_ & _ & _ & Hne)].
    + by apply block_retired.
    + by destruct (Hne result).
  - apply Forall_cons in Hpre as [Hq Hpre].
    destruct (event_handler self evt) as [[e|] self1] eqn:Heh; [by eexists|].
    destruct (Hstep _ _ _ Hwf Hin Hcl Hnd Hq Heh) as (-> & Hwf1 & Hcase).
    rewrite Nat.ltb_irrefl. destruct Hcase as [[Hgone _]|(Hin1 & Hcl1 & Hnd1 & _)].
    + by apply block_retired.
    + by apply IH.
  - apply Forall_cons in Hpre as [_ Hpre]. by apply IH.
Qed.

(** X11: a [read] whose procedure-completed event arrives before any read
    response of its characteristic never returns: the event marks the
    operation done, [event_handler] drops it from the dispatch list, and
    no later event, the awaited value included, reaches it. *)
Theorem X11_read_blocks_after_early_completion
    (self : SilabsAccessPoint) (A S C : string)
    (conn_req : ConnectionRequest.t) (characteristic : Characteristic)
    (pre post : list Stimulus) (result : Z) :
  operations_wf self ->
  get_connection (conn_reqs self) A = Some conn_req ->
  lookup_characteristic self conn_req S C = inr characteristic ->
  Forall (no_read_response (ConnectionRequest.handle conn_req)
            (char_handle characteristic)) pre ->
  exists self',
    read self A S C
      (pre ++ Deliver (bt_evt_gatt_procedure_completed
                         (ConnectionRequest.handle conn_req) result) :: post)
    = (Blocked, self', []).
Proof.
  intros Hwf Hget Hlook Hpre. unfold read. unfold get_connection in Hget.
  rewrite Hget, Hlook.
  set (r := ReadOperation.mk _ _ _).
  destruct (new_operation self (Read r)) as [id self0] eqn:En.
  destruct (new_operation_wf _ _ _ _ Hwf En) as (Hwf0 & Hin0 & Hfresh).
  destruct (new_operation_spec _ _ _ _ En) as (Hid & _ & Hops0 & _ & _ & _ & Hnew).
  unfold ReadOperation_run. rewrite Hnew. cbn [class Operation_init].
  unfold wait. rewrite operation_at_issue, Hnew. cbn [flag Operation_init].
  destruct (block_read_completed r id result post pre
              (issue self0 (read_characteristic_value (ReadOperation.handle r)
                              (ReadOperation.char_handle r))))
    as (self1 & Hb).
  - by apply issue_wf.
  - done.
  - by rewrite operation_at_issue, Hnew.
  - by rewrite operation_at_issue, Hnew.
  - done.
  - subst r. cbn [ReadOperation.handle ReadOperation.char_handle] in *.
    rewrite Hb. by eexists.
Qed.

Lemma X11_read_blocks_after_early_completion_witness :
  exists self',
    read Scenario.discovered Scenario.address "180d" "2a37"
      ([] ++ Deliver (bt_evt_gatt_procedure_completed 1 0)
          :: [Deliver (bt_evt_gatt_characteristic_value 1 11
                         ATT_OPCODE_READ_RESPONSE [Byte.x2a])])
    = (Blocked, self', []).
Proof.
  apply (X11_read_blocks_after_early_completion Scenario.discovered
           Scenario.address "180d" "2a37"
           (ConnectionRequest.mk Scenario.address 1 (ServicesOf 1))
           (mkCharacteristic "2a37" 11 ["read"; "notify"]
              [("2902", mkDescriptor "2902" 12)])
           [] [Deliver (bt_evt_gatt_characteristic_value 1 11
                          ATT_OPCODE_READ_RESPONSE [Byte.x2a])] 0).
  - exact scenario_discovered_wf.
  - vm_compute. reflexivity.
  - vm_compute. reflexivity.
  - constructor.
Defined.

(** ** A discovery that the backend fails *)

Lemma dispatch_total (evt : Event) :
  (forall op, exists op' pubs, handle_event op evt = inr (op', pubs)) ->
  forall ids self rm, fst (fst (dispatch ids evt self rm)) = None.
Proof.
  intros Htot. induction ids as [|id ids IH]; intros self rm; [done|].
  cbn [dispatch]. destruct (Htot (operation_at self id)) as (op' & pubs & ->).
  apply IH.
Qed.

Lemma event_handler_total (evt : Event) (self : SilabsAccessPoint) :
  (forall op, exists op' pubs, handle_event op evt = inr (op', pubs)) ->
  exists self', event_handler self evt = (None, self').
Proof.
  intros Htot. unfold event_handler.
  pose proof (dispatch_total evt Htot (operations self) self []) as H.
  destruct (dispatch _ _ _ _) as [[[e|] s1] rm]; [done|]. by eexists.
Qed.

Lemma completed_total (connection result : Z) (op : Operation) :
  exists op' pubs,
    handle_event op (bt_evt_gatt_procedure_completed connection result)
      = inr (op', pubs).
Proof.
  unfold handle_event. destruct (class op); cbn; eauto.
  - destruct (_ =? _); eauto.
  - destruct (_ =? _); eauto.
Qed.

Lemma dispatch_raises (evt : Event) (e0 : exn) (id : nat) :
  (forall op e, handle_event op evt = inl e -> e = e0) ->
  forall ids self rm,
    In id ids ->
    handle_event (operation_at self id) evt = inl e0 ->
    fst (fst (dispatch ids evt self rm)) = Some e0.
Proof.
  intros Honly. induction ids as [|a ids IH]; intros self rm Hin Hraise; [done|].
  cbn [dispatch].
  destruct (handle_event (operation_at self a) evt) as [e|[op' pubs]] eqn:Ha.
  - by rewrite (Honly _ _ Ha).
  - destruct (decide (a = id)) as [->|Hne]; [congruence|].
    apply IH.
    + by destruct Hin.
    + by rewrite operation_at_store_ne.
Qed.

Lemma characteristic_raises (op : Operation) connection uuid characteristic props e :
  handle_event op (bt_evt_gatt_characteristic connection uuid characteristic props)
    = inl e ->
  e = AttributeError "current_service".
Proof.
  unfold handle_event. destruct (class op); try done. cbn.
  destruct (_ =? _); [|done]. destruct (DiscoverOperation.current_service d); [done|].
  by intros [= <-].
Qed.

Lemma stale_discover_kept (h : Z) (id : nat) (self : SilabsAccessPoint)
    (evt : Event) (self' : SilabsAccessPoint) :
  stale_discover h id self ->
  event_handler self evt = (None, self') ->
  stale_discover h id self'.
Proof.
  intros (Hwf & Hin & Hnd & d & Hcl & Hh & Hcur) Heh.
  destruct (event_handler_spec _ _ _ Hwf Heh) as (Hcells & _ & _ & Hops & Hwf1).
  specialize (Hcells id Hin). unfold handle_event in Hcells. rewrite Hcl in Hcells.
  destruct (DiscoverOperation_handle_event (operation_at self id) d evt)
    as [e|op'] eqn:Hev; [done|]. injection Hcells as Hop _.
  assert (Hkept : is_done op' = false /\
            exists d', class op' = Discover d' /\ DiscoverOperation.handle d' = h /\
                       DiscoverOperation.current_service d' = None).
  { destruct evt; cbn in Hev;
      try (injection Hev as <-; split; [done|]; by exists d).
    - destruct (_ =? _); injection Hev as <-; (split; [done|]); by eexists.
    - destruct (_ =? _); [by rewrite Hcur in Hev|].
      injection Hev as <-. split; [done|]. by exists d.
    - destruct (_ =? _).
      + destruct (DiscoverOperation.current_characteristic d); [|done].
        injection Hev as <-. split; [done|]. by eexists.
      + injection Hev as <-. split; [done|]. by exists d.
    - destruct (_ =? _); injection Hev as <-; (split; [done|]); by eexists. }
  rewrite Hop in Hkept. destruct Hkept as [Hnd' Hd'].
  split; [done|]. split; [|done]. apply Hops. done.
Qed.

(** X12: a [discover] whose first phase the backend fails returns an
    empty result and leaves its operation in the dispatch list, not done
    and without a current service. The operation stays like that through
    every event handled without an exception, and every
    characteristic-discovered event of its connection then makes
    [event_handler] raise [AttributeError]. *)
Theorem X12_failed_discovery_leaves_stale_operation :
  (forall self A options retries conn_req result rest,
     operations_wf self ->
     get_connection (conn_reqs self) A = Some conn_req ->
     result <> 0 ->
     exists self',
       discover self A options retries
         (Deliver (bt_evt_gatt_procedure_completed
                     (ConnectionRequest.handle conn_req) result) :: rest)
       = (Returned (DiscoverResponse.mk A (SvcDict (ServicesOf (length (heap self))))),
          self', rest) /\
       services_at self' (ServicesOf (length (heap self))) = [] /\
       stale_discover (ConnectionRequest.handle conn_req) (length (heap self)) self') /\
  (forall h id self evt self',
     stale_discover h id self ->
     event_handler self evt = (None, self') ->
     stale_discover h id self') /\
  (forall h id self uuid characteristic props,
     stale_discover h id self ->
     fst (event_handler self (bt_evt_gatt_characteristic h uuid characteristic props))
       = Some (AttributeError "current_service")).
Proof.
  split; [|split].
  - intros self A options retries conn_req result rest Hwf Hget Hres.
    unfold discover. unfold get_connection in Hget. rewrite Hget.
    set (h := ConnectionRequest.handle conn_req).
    set (d0 := DiscoverOperation.init h retries _).
    destruct (new_operation self (Discover d0)) as [id self0] eqn:En.
    destruct (new_operation_wf _ _ _ _ Hwf En) as (Hwf0 & Hin0 & Hfresh).
    destruct (new_operation_spec _ _ _ _ En) as (Hid & Hreg0 & Hops0 & _ & _ & _ & Hnew).
    rewrite <- Hid. unfold DiscoverOperation_run, discover_at. rewrite Hnew.
    cbn [class Operation_init DiscoverOperation.handle d0 DiscoverOperation.init].
    set (self0' := issue self0 _). cbn [drive].
    set (evt := bt_evt_gatt_procedure_completed h result).
    destruct (event_handler_total evt self0' (completed_total h result))
      as (self1 & Heh). rewrite Heh.
    assert (Hwf0' : operations_wf self0') by (by apply issue_wf).
    destruct (event_handler_spec _ _ _ Hwf0' Heh) as (Hcells & _ & _ & Hops & Hwf1).
    pose proof (event_handler_conn_reqs _ _ _ _ Heh) as Hreg1. cbn in Hreg1.
    specialize (Hcells id Hin0).
    change (operation_at self0' id) with (operation_at self0 id) in *.
    rewrite Hnew in Hcells. unfold handle_event in Hcells. cbn in Hcells.
    rewrite Z.eqb_refl in Hcells. injection Hcells as Hop.
    rewrite Hnew, <- Hop. cbn [signals clear set with_class Operation_init].
    cbn [Nat.ltb Nat.leb]. unfold resume, discover_at. rewrite <- Hop.
    cbn [class clear set with_class DiscoverOperation.result DiscoverOperation.set_result].
    apply Z.eqb_neq in Hres. rewrite Hres. cbn [negb].
    rewrite Hreg1, Hreg0, Hget.
    eexists. split; [reflexivity|].
    split.
    { unfold services_at, discover_at.
      change (operation_at (with_conn_reqs self1 _) id) with (operation_at self1 id).
      by rewrite <- Hop. }
    split; [by destruct Hwf1|]. split.
    { cbn. apply Hops. split; [done|]. by rewrite <- Hop. }
    change (operation_at (with_conn_reqs self1 _) id) with (operation_at self1 id).
    rewrite <- Hop. split; [done|]. by eexists.
  - intros h id self evt self'. apply stale_discover_kept.
  - intros h id self uuid characteristic props (Hwf & Hin & Hnd & d & Hcl & Hh & Hcur).
    unfold event_handler.
    pose proof (dispatch_raises
                  (bt_evt_gatt_characteristic h uuid characteristic props)
                  (AttributeError "current_service") id) as H.
    specialize (H (fun op e => characteristic_raises op _ _ _ _ e)
                  (operations self) self [] Hin).
    destruct (dispatch _ _ _ _) as [[[e|] s1] rm]; cbn in H |- *.
    + apply H. unfold handle_event. rewrite Hcl. cbn. by rewrite Hh, Z.eqb_refl, Hcur.
    + discriminate H. unfold handle_event. rewrite Hcl. cbn.
      by rewrite Hh, Z.eqb_refl, Hcur.
Qed.

Lemma X12_failed_discovery_leaves_stale_operation_witness :
  exists self',
    discover Scenario.connected Scenario.address BleConnectOptions.default 3
      (Deliver (bt_evt_gatt_procedure_completed 1 3) :: [])
    = (Returned (DiscoverResponse.mk Scenario.address (SvcDict (ServicesOf 1))),
       self', []) /\
    services_at self' (ServicesOf 1) = [] /\
    stale_discover 1 (length (heap Scenario.connected)) self'.
Proof.
  apply (proj1 X12_failed_discovery_leaves_stale_operation Scenario.connected
           Scenario.address BleConnectOptions.default 3
           (ConnectionRequest.mk Scenario.address 1 EmptyDict) 3 []).
  - exact scenario_connected_wf.
  - vm_compute. reflexivity.
  - discriminate.
Defined.

(** X13: when the link of a connected device closes while [discover] is
    waiting and the pending procedure then completes, [discover] raises
    [KeyError] for the address, which the link-closed event has removed
    from the registry, instead of a discovery error. *)
Theorem X13_discover_after_link_loss
    (self : SilabsAccessPoint) (A : string) (options : BleConnectOptions.t)
    (retries : Z) (conn_req : ConnectionRequest.t) (reason result : Z)
    (rest : list Stimulus) :
  operations_wf self -> registry_wf self ->
  get_connection (conn_reqs self) A = Some conn_req ->
  address_of_handle (conn_reqs self) (ConnectionRequest.handle conn_req) = Some A ->
  exists self',
    discover self A options retries
      (Deliver (bt_evt_connection_closed (ConnectionRequest.handle conn_req) reason)
         :: Deliver (bt_evt_gatt_procedure_completed
                       (ConnectionRequest.handle conn_req) result)
         :: rest)
    = (Raised (KeyError A), self', rest) /\
    get_connection (conn_reqs self') A = None.
Proof.
  intros Hwf Hreg Hget Haddr.
  unfold discover. unfold get_connection in Hget. rewrite Hget.
  set (h := ConnectionRequest.handle conn_req) in *.
  set (d0 := DiscoverOperation.init h retries _).
  destruct (new_operation self (Discover d0)) as [id self0] eqn:En.
  destruct (new_operation_wf _ _ _ _ Hwf En) as (Hwf0 & Hin0 & Hfresh).
  destruct (new_operation_spec _ _ _ _ En) as (Hid & Hreg0 & Hops0 & _ & _ & _ & Hnew).
  unfold DiscoverOperation_run, discover_at. rewrite Hnew.
  cbn [class Operation_init DiscoverOperation.handle d0 DiscoverOperation.init].
  set (self0' := issue self0 _). cbn [drive].
  destruct (event_handler_total (bt_evt_connection_closed h reason) self0'
              (fun op => closed_total op h reason)) as (self1 & Heh1).
  rewrite Heh1.
  assert (Hwf0' : operations_wf self0') by (by apply issue_wf).
  destruct (event_handler_spec _ _ _ Hwf0' Heh1) as (Hcells1 & _ & _ & Hops1 & Hwf1).
  pose proof (event_handler_conn_reqs _ _ _ _ Heh1) as Hreg1. cbn in Hreg1.
  rewrite Hreg0, Haddr in Hreg1.
  specialize (Hcells1 id Hin0).
  change (operation_at self0' id) with (operation_at self0 id) in *.
  rewrite Hnew in Hcells1. unfold handle_event in Hcells1. cbn in Hcells1.
  injection Hcells1 as Hop1.
  rewrite Hnew, <- Hop1. cbn [signals Operation_init]. rewrite Nat.ltb_irrefl.
  assert (Hin1 : In id (operations self1)).
  { apply Hops1. split; [done|]. by rewrite <- Hop1. }
  destruct (event_handler_total (bt_evt_gatt_procedure_completed h result) self1
              (completed_total h result)) as (self2 & Heh2).
  rewrite Heh2.
  destruct (event_handler_spec _ _ _ Hwf1 Heh2) as (Hcells2 & _ & _ & _ & _).
  pose proof (event_handler_conn_reqs _ _ _ _ Heh2) as Hreg2. cbn in Hreg2.
  specialize (Hcells2 id Hin1). rewrite <- Hop1 in Hcells2.
  unfold handle_event in Hcells2. cbn in Hcells2. rewrite Z.eqb_refl in Hcells2.
  injection Hcells2 as Hop2.
  rewrite <- Hop2. cbn [signals clear set with_class Operation_init].
  cbn [Nat.ltb Nat.leb].
  assert (Hnone : dict_get (conn_reqs self2) A = None).
  { rewrite Hreg2, Hreg1. by apply dict_get_pop_eq. }
  assert (Hstep : exists self3,
            resume id AwaitServices self2 = Finished self3 /\
            conn_reqs self3 = conn_reqs self2).
  { unfold resume, discover_at. rewrite <- Hop2.
    cbn [class clear set with_class DiscoverOperation.result
         DiscoverOperation.set_result].
    destruct (result =? 0); cbn [negb]; [|by eexists].
    unfold next_service, discover_at. rewrite <- Hop2.
    cbn [class clear set with_class DiscoverOperation.services
         DiscoverOperation.set_result d0 DiscoverOperation.init].
    cbn. by eexists. }
  destruct Hstep as (self3 & -> & Hreg3).
  rewrite Hreg3, Hnone. eexists. split; [reflexivity|].
  unfold get_connection. by rewrite Hreg3.
Qed.

Lemma X13_discover_after_link_loss_witness :
  exists self',
    discover Scenario.connected Scenario.address BleConnectOptions.default 3
      (Deliver (bt_evt_connection_closed 1 0x1013)
         :: Deliver (bt_evt_gatt_procedure_completed 1 0) :: [])
    = (Raised (KeyError Scenario.address), self', []) /\
    get_connection (conn_reqs self') Scenario.address = None.
Proof.
  apply (X13_discover_after_link_loss Scenario.connected Scenario.address
           BleConnectOptions.default 3
           (ConnectionRequest.mk Scenario.address 1 EmptyDict) 0x1013 0 []).
  - exact scenario_connected_wf.
  - unfold registry_wf. apply (bool_decide_unpack _). by vm_compute.
  - vm_compute. reflexivity.
  - vm_compute. reflexivity.
Defined.


(** ** The connection limit *)

Lemma dict_pop_length {V : Type} (d : dict V) (k : string) :
  (length (dict_pop d k) <= length d)%nat.
Proof.
  induction d as [|[k' v'] d IH]; cbn; [done|].
  destruct (String.eqb k' k); cbn; lia.
Qed.

Lemma dict_set_length {V : Type} (d : dict V) (k : string) (v : V) :
  length (dict_set d k v) = if dict_mem d k then length d else S (length d).
Proof.
  unfold dict_mem. induction d as [|[k' v'] d IH]; cbn; [done|].
  destruct (String.eqb k' k); cbn; [done|]. rewrite IH.
  by destruct (dict_get d k).
Qed.

Lemma event_handler_size self evt oe self' :
  event_handler self evt = (oe, self') ->
  (registry_size self' <= registry_size self)%nat.
Proof.
  intros Heh. unfold registry_size. rewrite (event_handler_conn_reqs _ _ _ _ Heh).
  destruct oe; [done|]. destruct evt; try done.
  destruct (address_of_handle _ _); [apply dict_pop_length | done].
Qed.

Lemma block_size bounded id stimuli :
  forall self,
    match block bounded id self stimuli with
    | Resumed self' _ | Stuck self' => (registry_size self' <= registry_size self)%nat
    end.
Proof.
  induction stimuli as [|[evt|] stimuli IH]; intros self; cbn [block]; [done| |].
  - destruct (event_handler self evt) as [[e|] self1] eqn:Heh;
      pose proof (event_handler_size _ _ _ _ Heh) as Hs; [done|].
    destruct (_ <? _)%nat; [done|]. specialize (IH self1).
    destruct (block bounded id self1 stimuli); lia.
  - destruct bounded; [done | apply IH].
Qed.

Lemma wait_size bounded id stimuli self :
  match wait bounded id self stimuli with
  | Resumed self' _ | Stuck self' => (registry_size self' <= registry_size self)%nat
  end.
Proof. unfold wait. destruct (flag _); [done | apply block_size]. Qed.

Lemma drive_size stimuli :
  forall id frame self,
    (registry_size (snd (fst (drive id frame self stimuli))) <= registry_size self)%nat.
Proof.
  induction stimuli as [|[evt|] stimuli IH]; intros id frame self; cbn [drive];
    [done| |apply IH].
  destruct (event_handler self evt) as [[e|] self1] eqn:Heh;
    pose proof (event_handler_size _ _ _ _ Heh) as Hs; [done|].
  destruct (_ <? _)%nat.
  - pose proof (resume_registry id frame self1) as Hr.
    destruct (resume id frame self1) as [frame' self2|self2|e self2];
      cbn in Hr |- *; unfold registry_size in *; rewrite ?Hr; try lia.
    specialize (IH id frame' self2). unfold registry_size in IH. rewrite Hr in IH. lia.
  - specialize (IH id frame self1). lia.
Qed.

Ltac run_size :=
  match goal with
  | |- context [wait ?b ?id ?s ?st] =>
      let H := fresh in
      pose proof (wait_size b id st s) as H;
      destruct (wait b id s st); cbn [fst snd] in *;
      unfold registry_size in *; cbn [conn_reqs issue] in *;
      try match goal with Hr : conn_reqs _ = conn_reqs _ |- _ => rewrite Hr in * end
  end.

Lemma call_sizes max self req stimuli :
  (registry_size self <= max)%nat ->
  (registry_size (fst (perform max self req stimuli)) <= max)%nat.
Proof.
  intros Hle.
  destruct req as [a o r|a o r|a s c|a s c v|a s c|a s c|a]; cbn [perform state_of fst snd].
  - unfold connect, connectable.
    destruct (Nat.ltb_spec (length (conn_reqs self)) max) as [Hlt|Hge]; cbn [negb];
      [|done].
    destruct (dict_mem (conn_reqs self) a) eqn:Hm; [done|].
    destruct (new_operation self _) as [id self0] eqn:En.
    assert (Hreg : conn_reqs self0 = conn_reqs self)
      by (unfold new_operation in En; by injection En as <- <-).
    unfold ConnectOperation_run.
    destruct (class (operation_at self0 id)); try (cbn; unfold registry_size; by rewrite Hreg).
    run_size; [|lia].
    destruct (negb _); cbn [fst snd]; [lia|].
    destruct (Operation_handle _); cbn [fst snd conn_reqs with_conn_reqs]; [|lia].
    rewrite dict_set_length. destruct (dict_mem (conn_reqs self1) a); lia.
  - unfold discover. destruct (dict_get (conn_reqs self) a) as [cr|]; [|done].
    destruct (new_operation self _) as [id self0] eqn:En.
    assert (Hreg : conn_reqs self0 = conn_reqs self)
      by (unfold new_operation in En; by injection En as <- <-).
    unfold DiscoverOperation_run.
    pose proof (drive_size stimuli id AwaitServices
                  (issue self0 (discover_primary_services
                                  (DiscoverOperation.handle (discover_at self0 id)))))
      as Hd.
    destruct (drive _ _ _ _) as [[[u|e|] self1] rest1]; cbn [fst snd] in *;
      unfold registry_size in *; cbn [conn_reqs issue] in Hd; rewrite Hreg in Hd;
      try lia.
    destruct (dict_get (conn_reqs self1) a) as [cr1|] eqn:Hg; cbn [fst snd]; [|lia].
    cbn [conn_reqs with_conn_reqs]. rewrite dict_set_length. unfold dict_mem.
    rewrite Hg. lia.
  - unfold read. destruct (dict_get (conn_reqs self) a) as [cr|]; [|done].
    destruct (lookup_characteristic self cr s c); [done|].
    destruct (new_operation self _) as [id self0] eqn:En.
    assert (Hreg : conn_reqs self0 = conn_reqs self)
      by (unfold new_operation in En; by injection En as <- <-).
    unfold ReadOperation_run.
    destruct (class (operation_at self0 id)); try (cbn; unfold registry_size; by rewrite Hreg).
    run_size; [|lia]. destruct (class _); cbn; lia.
  - unfold write. destruct (dict_get (conn_reqs self) a) as [cr|]; [|done].
    destruct (lookup_characteristic self cr s c); [done|].
    destruct (new_operation self _) as [id self0] eqn:En.
    assert (Hreg : conn_reqs self0 = conn_reqs self)
      by (unfold new_operation in En; by injection En as <- <-).
    unfold WriteOperation_run.
    destruct (class (operation_at self0 id)); try (cbn; unfold registry_size; by rewrite Hreg).
    run_size; cbn; lia.
  - unfold subscribe. destruct (dict_get (conn_reqs self) a) as [cr|]; [|done].
    destruct (lookup_characteristic self cr s c); [done|].
    destruct (new_operation self _) as [id self0] eqn:En.
    assert (Hreg : conn_reqs self0 = conn_reqs self)
      by (unfold new_operation in En; by injection En as <- <-).
    unfold SubscribeOperation_run.
    destruct (class (operation_at self0 id)); try (cbn; unfold registry_size; by rewrite Hreg).
    run_size; cbn; lia.
  - unfold unsubscribe. destruct (dict_get (conn_reqs self) a) as [cr|]; [|done].
    destruct (lookup_characteristic self cr s c); [done|].
    destruct (find_subscription _ _ _ _) as [e|[id|]]; try done.
    cbn [fst snd]. unfold disable_notification.
    by destruct (class (operation_at self id)).
  - unfold disconnect. destruct (dict_get (conn_reqs self) a) as [cr|]; [|done].
    destruct (new_operation self _) as [id self0] eqn:En.
    assert (Hreg : conn_reqs self0 = conn_reqs self)
      by (unfold new_operation in En; by injection En as <- <-).
    unfold DisconnectOperation_run.
    destruct (class (operation_at self0 id)); try (cbn; unfold registry_size; by rewrite Hreg).
    run_size; [|lia]. destruct (negb _); cbn; lia.
Qed.

(** X14: the registry never outgrows the connection limit. At the limit
    [connect] is refused with "max connections" before anything else is
    looked at, and no history of calls and events takes a registry that is
    within the limit beyond it. *)
Theorem X14_registry_within_capacity (max : nat) :
  (forall self A options retries stimuli,
     (max <= length (conn_reqs self))%nat ->
     connect max self A options retries stimuli
       = (Raised (BleConnectionError "max connections"), self, stimuli)) /\
  (forall actions self stimuli,
     (length (conn_reqs self) <= max)%nat ->
     (length (conn_reqs (fst (run max actions self stimuli))) <= max)%nat).
Proof.
  split.
  - intros self A options retries stimuli Hge. unfold connect, connectable.
    by rewrite (proj2 (Nat.ltb_ge _ _) Hge).
  - induction actions as [|[req|] actions IH]; intros self stimuli Hle; cbn [run].
    + done.
    + pose proof (call_sizes max self req stimuli Hle) as Hs.
      destruct (perform max self req stimuli) as [self1 rest]. by apply IH.
    + destruct stimuli as [|[evt|] stimuli]; try by apply IH.
      apply IH. destruct (event_handler self evt) as [oe self1] eqn:Heh.
      pose proof (event_handler_size _ _ _ _ Heh). cbn. unfold registry_size in *. lia.
Qed.

Lemma X14_registry_within_capacity_witness :
  (length (conn_reqs
             (fst (run 1
                     [Invoke (ReqConnect "C1:5C:00:00:00:00" BleConnectOptions.default 3);
                      Invoke (ReqConnect "C1:5C:00:00:00:01" BleConnectOptions.default 3)]
                     init
                     [Deliver (bt_evt_connection_opened "C1:5C:00:00:00:00" 1);
                      Deliver (bt_evt_connection_opened "C1:5C:00:00:00:01" 2)])))
   <= 1)%nat.
Proof.
  apply (proj2 (X14_registry_within_capacity 1)). cbn. lia.
Defined.


(** ** Looking a subscription up *)

Lemma find_subscription_step (self : SilabsAccessPoint) (h ch : Z) (id : nat)
    (ids : list nat) :
  find_subscription (id :: ids) self h ch =
    if negb (has_handles (operation_at self id)) then
      inl (AttributeError "char_handle")
    else if subscription_of h ch (operation_at self id) then inr (Some id)
    else find_subscription ids self h ch.
Proof.
  cbn [find_subscription].
  unfold has_handles, subscription_of, Operation_char_handle, Operation_handle,
    is_SubscribeOperation.
  by destruct (class (operation_at self id)).
Qed.

Lemma find_subscription_passed (self : SilabsAccessPoint) (h ch : Z)
    (pre rest : list nat) :
  Forall (passed_over h ch self) pre ->
  find_subscription (pre ++ rest) self h ch = find_subscription rest self h ch.
Proof.
  induction pre as [|id pre IH]; [done|]. intros Hf.
  apply Forall_cons in Hf as [[Hh Hs] Hf]. cbn [app].
  rewrite find_subscription_step, Hh, Hs. cbn [negb]. by apply IH.
Qed.

Lemma find_subscription_None (self : SilabsAccessPoint) (h ch : Z) (ids : list nat) :
  find_subscription ids self h ch = inr None <-> Forall (passed_over h ch self) ids.
Proof.
  induction ids as [|id ids IH]; [by split|].
  rewrite find_subscription_step, Forall_cons. unfold passed_over at 1.
  destruct (has_handles (operation_at self id)); cbn [negb].
  - destruct (subscription_of h ch (operation_at self id)).
    + split; [done | by intros [[_ ?] _]].
    + rewrite IH. tauto.
  - split; [done | by intros [[? _] _]].
Qed.

Lemma find_subscription_error (self : SilabsAccessPoint) (h ch : Z) (ids : list nat)
    (e : exn) :
  find_subscription ids self h ch = inl e -> e = AttributeError "char_handle".
Proof.
  induction ids as [|id ids IH]; [done|]. rewrite find_subscription_step.
  destruct (has_handles _); cbn [negb]; [|by intros [= <-]].
  by destruct (subscription_of _ _ _).
Qed.

(** X15: for a connected device and a characteristic of its cached
    services, [unsubscribe] walks the dispatch list in order: it raises
    "not subscribed" exactly when every pending operation has a handle and
    a characteristic handle and none is the subscription; it raises
    [AttributeError] at the first operation without those attributes (a
    discover operation, for one) when no subscription precedes it; and it
    disables and reports the first matching subscription otherwise. *)
Theorem X15_unsubscribe_outcomes
    (self : SilabsAccessPoint) (A S C : string) (stimuli : list Stimulus)
    (conn_req : ConnectionRequest.t) (characteristic : Characteristic) :
  get_connection (conn_reqs self) A = Some conn_req ->
  lookup_characteristic self conn_req S C = inr characteristic ->
  (unsubscribe self A S C stimuli
     = (Raised (BleUnsubscribeError "not subscribed"), self, stimuli) <->
   Forall (passed_over (ConnectionRequest.handle conn_req)
             (char_handle characteristic) self) (operations self)) /\
  (forall pre id post,
     operations self = pre ++ id :: post ->
     Forall (passed_over (ConnectionRequest.handle conn_req)
               (char_handle characteristic) self) pre ->
     (has_handles (operation_at self id) = false ->
      unsubscribe self A S C stimuli
        = (Raised (AttributeError "char_handle"), self, stimuli)) /\
     (subscription_of (ConnectionRequest.handle conn_req)
        (char_handle characteristic) (operation_at self id) = true ->
      unsubscribe self A S C stimuli
        = (Returned (UnsubscribeResponse.mk A S C true),
           disable_notification id self, stimuli))).
Proof.
  intros Hget Hlook. unfold get_connection in Hget. unfold unsubscribe.
  rewrite Hget, Hlook. split.
  - rewrite <- find_subscription_None.
    destruct (find_subscription _ _ _ _) as [e|[id|]] eqn:Hf; [|by split..].
    apply find_subscription_error in Hf as ->. by split.
  - intros pre id post -> Hpre.
    rewrite find_subscription_passed, find_subscription_step by done.
    split; intros H.
    + by rewrite H.
    + assert (Hh : has_handles (operation_at self id) = true).
      { unfold subscription_of in H. unfold has_handles, Operation_char_handle,
          Operation_handle. by destruct (class (operation_at self id)). }
      by rewrite Hh, H.
Qed.

Lemma X15_unsubscribe_outcomes_witness :
  unsubscribe (with_operations Scenario.discovered [1%nat]) Scenario.address
    "180d" "2a37" []
  = (Raised (AttributeError "char_handle"),
     with_operations Scenario.discovered [1%nat], []).
Proof.
  destruct (proj2 (X15_unsubscribe_outcomes
                     (with_operations Scenario.discovered [1%nat])
                     Scenario.address "180d" "2a37" []
                     (ConnectionRequest.mk Scenario.address 1 (ServicesOf 1))
                     (mkCharacteristic "2a37" 11 ["read"; "notify"]
                        [("2902", mkDescriptor "2902" 12)])
                     ltac:(vm_compute; reflexivity) ltac:(vm_compute; reflexivity))
              [] 1%nat [] eq_refl ltac:(constructor)) as [H _].
  apply H. vm_compute. reflexivity.
Defined.


(** ** Calls on a connection that has not been discovered *)

Lemma connect_registers_empty max self A options retries stimuli self' rest :
  connect max self A options retries stimuli = (Returned tt, self', rest) ->
  exists handle,
    dict_get (conn_reqs self') A = Some (ConnectionRequest.mk A handle EmptyDict).
Proof.
  unfold connect. destruct (negb _); [done|]. destruct (dict_mem _ _); [done|].
  destruct (new_operation _ _) as [id self0].
  destruct (ConnectOperation_run id self0 stimuli) as [self1 rest1|self1]; [|done].
  destruct (negb _); [done|]. destruct (Operation_handle _) as [handle|]; [|done].
  intros [= <- <-]. exists handle. cbn. apply dict_get_set_eq.
Qed.

Lemma unknown_key_raised self A S C value stimuli conn_req key :
  get_connection (conn_reqs self) A = Some conn_req ->
  lookup_characteristic self conn_req S C = inl (KeyError key) ->
  read self A S C stimuli = (Raised (KeyError key), self, stimuli) /\
  write self A S C value stimuli = (Raised (KeyError key), self, stimuli) /\
  subscribe self A S C stimuli = (Raised (KeyError key), self, stimuli) /\
  unsubscribe self A S C stimuli = (Raised (KeyError key), self, stimuli).
Proof.
  intros Hget Hl. unfold get_connection in Hget.
  unfold read, write, subscribe, unsubscribe. by rewrite Hget, Hl.
Qed.

(** X16: right after a successful [connect] the cached services of the
    device are empty, so [read], [write], [subscribe] and [unsubscribe]
    raise the [KeyError] of the service identifier, whatever it is, and
    change nothing. For a connected device whose cached service lacks the
    characteristic they raise the [KeyError] of the characteristic
    identifier. *)
Theorem X16_unknown_attribute_raises_KeyError :
  (forall max self A options retries stimuli self' rest,
     connect max self A options retries stimuli = (Returned tt, self', rest) ->
     forall S C value stimuli',
       read self' A S C stimuli' = (Raised (KeyError S), self', stimuli') /\
       write self' A S C value stimuli' = (Raised (KeyError S), self', stimuli') /\
       subscribe self' A S C stimuli' = (Raised (KeyError S), self', stimuli') /\
       unsubscribe self' A S C stimuli' = (Raised (KeyError S), self', stimuli')) /\
  (forall self A S C value stimuli conn_req service,
     get_connection (conn_reqs self) A = Some conn_req ->
     dict_get (services_at self (ConnectionRequest.services conn_req)) S
       = Some service ->
     dict_get (characteristics service) C = None ->
     read self A S C stimuli = (Raised (KeyError C), self, stimuli) /\
     write self A S C value stimuli = (Raised (KeyError C), self, stimuli) /\
     subscribe self A S C stimuli = (Raised (KeyError C), self, stimuli) /\
     unsubscribe self A S C stimuli = (Raised (KeyError C), self, stimuli)).
Proof.
  split.
  - intros max self A options retries stimuli self' rest Hc S C value stimuli'.
    destruct (connect_registers_empty _ _ _ _ _ _ _ _ Hc) as (handle & Hget).
    by apply (unknown_key_raised self' A S C value stimuli' _ S Hget).
  - intros self A S C value stimuli conn_req service Hget Hs Hc.
    apply (unknown_key_raised self A S C value stimuli conn_req C Hget).
    unfold lookup_characteristic. by rewrite Hs, Hc.
Qed.

Lemma X16_unknown_attribute_raises_KeyError_witness :
  read Scenario.connected Scenario.address "180d" "2a37" []
  = (Raised (KeyError "180d"), Scenario.connected, []).
Proof.
  apply (proj1 X16_unknown_attribute_raises_KeyError Scenario.max_connections init
           Scenario.address BleConnectOptions.default 3 Scenario.opened
           Scenario.connected [] ltac:(vm_compute; reflexivity)
           "180d" "2a37" [] []).
Defined.


(** ** The response of a discover operation *)

Lemma str_in_requested (s : string) (requested : list pyval) :
  str_in s requested = existsb (String.eqb s) (requested_ids requested).
Proof.
  unfold str_in. induction requested as [|[s'|d] l IH]; cbn; [done| |done].
  by rewrite IH.
Qed.

(** X17: [DiscoverOperation.response] reports the connection handle as
    the address and the discovered services in discovery order: all of
    them for an empty filter, and for a non-empty filter those whose
    identifier is one of the filter's plain strings, so that a filter made
    only of dictionaries gives an empty list. *)
Theorem X17_discover_response_filter (d : DiscoverOperation.t) :
  let found := dict_values (discovered_services d) in
  let requested := DiscoverOperation.requested_services d in
  DiscoverResponse.address (DiscoverOperation_response d)
    = str_of_int (DiscoverOperation.handle d) /\
  (requested = [] ->
   DiscoverResponse.services (DiscoverOperation_response d) = SvcList found) /\
  (requested <> [] ->
   DiscoverResponse.services (DiscoverOperation_response d) =
     SvcList (List.filter
                (fun s => existsb (String.eqb (service_id s)) (requested_ids requested))
                found)) /\
  (requested <> [] -> requested_ids requested = [] ->
   DiscoverResponse.services (DiscoverOperation_response d) = SvcList []).
Proof.
  cbn zeta. split; [done|].
  assert (H : DiscoverOperation.requested_services d <> [] ->
    DiscoverResponse.services (DiscoverOperation_response d) =
      SvcList (List.filter
                 (fun s => existsb (String.eqb (service_id s))
                             (requested_ids (DiscoverOperation.requested_services d)))
                 (dict_values (discovered_services d)))).
  { unfold DiscoverOperation_response.
    destruct (DiscoverOperation.requested_services d) as [|v l] eqn:E; [done|].
    intros _. cbn [DiscoverResponse.services]. f_equal. apply filter_ext.
    intros s. apply str_in_requested. }
  split; [unfold DiscoverOperation_response; by intros ->|]. split; [done|].
  intros Hne Hids. rewrite H by done. rewrite Hids. cbn [existsb]. f_equal.
  generalize (dict_values (discovered_services d)). clear.
  intros l. induction l as [|s l IH]; [done | exact IH].
Qed.

Lemma X17_discover_response_filter_witness :
  DiscoverResponse.services
    (DiscoverOperation_response
       (DiscoverOperation.init 1 3 [PyDict [("serviceID", "180d")]]))
  = SvcList [].
Proof.
  apply (proj2 (proj2 (proj2 (X17_discover_response_filter
                                (DiscoverOperation.init 1 3
                                   [PyDict [("serviceID", "180d")]]))))).
  - discriminate.
  - reflexivity.
Defined.


(** ** Identifiers of discovered attributes *)

Lemma hex_digit_inj (a b : N) :
  (a < 16)%N -> (b < 16)%N -> hex_digit a = hex_digit b -> a = b.
Proof.
  intros Ha Hb.
  destruct a as [|[[[[?|?|]|[?|?|]|]|[[?|?|]|[?|?|]|]|]|[[[?|?|]|[?|?|]|]|[[?|?|]|[?|?|]|]|]|]];
    try lia;
  destruct b as [|[[[[?|?|]|[?|?|]|]|[[?|?|]|[?|?|]|]|]|[[[?|?|]|[?|?|]|]|[[?|?|]|[?|?|]|]|]|]];
    try lia; cbn; congruence.
Qed.

Lemma byte_to_N_bound (x : Byte.byte) : (Byte.to_N x < 256)%N.
Proof. by destruct x. Qed.

Lemma byte_to_N_inj (x y : Byte.byte) : Byte.to_N x = Byte.to_N y -> x = y.
Proof.
  intros H. apply (f_equal Byte.of_N) in H. rewrite !Byte.of_to_N in H. congruence.
Qed.

Lemma bytes_hex_inj (a : bytes) : forall b, bytes_hex a = bytes_hex b -> a = b.
Proof.
  induction a as [|x a IH]; intros [|y b]; cbn; try done.
  intros [= H1 H2 H3]. f_equal; [|by apply IH].
  pose proof (byte_to_N_bound x). pose proof (byte_to_N_bound y).
  apply byte_to_N_inj.
  apply hex_digit_inj in H1; [|apply N.Div0.div_lt_upper_bound; lia..].
  apply hex_digit_inj in H2; [|apply N.mod_lt; lia..].
  rewrite (N.div_mod (Byte.to_N x) 16), (N.div_mod (Byte.to_N y) 16) by lia.
  by rewrite H1, H2.
Qed.

Lemma bytes_hex_length (a : bytes) :
  String.length (bytes_hex a) = (2 * length a)%nat.
Proof. induction a as [|x a IH]; cbn; [done|]. rewrite IH. lia. Qed.

(** X18: the identifier a handler derives from a UUID has two characters
    per byte and determines the UUID: two attributes get the same
    dictionary key only if their UUIDs are equal. *)
Theorem X18_uuid_str_injective (u v : bytes) :
  String.length (uuid_str u) = (2 * length u)%nat /\
  (uuid_str u = uuid_str v <-> u = v).
Proof.
  unfold uuid_str. split.
  - by rewrite bytes_hex_length, length_rev.
  - split; [|by intros ->]. intros H. apply bytes_hex_inj in H.
    apply (f_equal (@rev _)) in H. by rewrite !rev_involutive in H.
Qed.

Lemma X18_uuid_str_injective_witness :
  uuid_str Scenario.uuid_180d = uuid_str [Byte.x0d; Byte.x18].
Proof.
  apply (proj2 (proj2 (X18_uuid_str_injective Scenario.uuid_180d
                         [Byte.x0d; Byte.x18]))).
  reflexivity.
Defined.

(** ** A complete discovery walk *)

Lemma quiet_total (h : Z) (op : Operation) (evt : Event) :
  quiet_for h op -> walk_event h evt ->
  exists op' pubs, handle_event op evt = inr (op', pubs) /\ quiet_for h op'.
Proof.
  unfold quiet_for, handle_event. intros Hq Hw.
  destruct (class op) as [d|r|w|c|x|s|] eqn:Hc.
  - assert (E : DiscoverOperation_handle_event op d evt = inr op).
    { destruct evt; cbn in Hw |- *; try done; subst;
        by destruct (Z.eqb_spec h (DiscoverOperation.handle d)) as [->|_]. }
    rewrite E. eexists _, _. split; [done|]. by rewrite Hc.
  - eexists _, _. split; [done|].
    destruct evt; cbn; rewrite ?Hc; try done;
      repeat match goal with |- context [if ?b then _ else _] => destruct b end;
      cbn; by rewrite ?Hc.
  - eexists _, _. split; [done|].
    destruct evt; cbn; rewrite ?Hc; try done;
      repeat match goal with |- context [if ?b then _ else _] => destruct b end;
      cbn; by rewrite ?Hc.
  - destruct evt; cbn in Hw; try done; cbn; eexists _, _; (split; [done|]);
      by rewrite Hc.
  - eexists _, _. split; [done|].
    destruct evt; cbn; rewrite ?Hc; try done.
  - destruct evt; cbn in Hw; try done; cbn;
      repeat match goal with |- context [if ?b then _ else _] => destruct b end;
      eexists _, _; (split; [done|]); cbn; by rewrite ?Hc.
  - destruct evt; cbn in Hw; try done; cbn; eexists _, _; (split; [done|]);
      by rewrite Hc.
Qed.

Lemma dispatch_progress (evt : Event) :
  forall ids self rm,
    NoDup ids ->
    (forall j, In j ids ->
       exists r, handle_event (operation_at self j) evt = inr r) ->
    fst (fst (dispatch ids evt self rm)) = None.
Proof.
  induction ids as [|a ids IH]; intros self rm Hnd Htot; [done|].
  apply NoDup_cons in Hnd as [Ha Hnd]. cbn [dispatch].
  destruct (Htot a) as ([op' pubs] & ->); [by left|].
  apply IH; [done|]. intros j Hj.
  rewrite operation_at_store_ne.
  - apply Htot. by right.
  - intros ->. by apply Ha, list_elem_of_In.
Qed.

Lemma event_handler_progress (self : SilabsAccessPoint) (evt : Event) :
  operations_wf self ->
  (forall j, In j (operations self) ->
     exists r, handle_event (operation_at self j) evt = inr r) ->
  exists self', event_handler self evt = (None, self').
Proof.
  intros [Hnd _] Htot. unfold event_handler.
  pose proof (dispatch_progress evt (operations self) self [] Hnd Htot) as H.
  destruct (dispatch _ _ _ _) as [[[e|] s1] rm]; [done|]. by eexists.
Qed.

Lemma dict_set_fresh {V : Type} (d : dict V) (k : string) (v : V) :
  ~ In k (dict_keys d) -> dict_set d k v = d ++ [(k, v)].
Proof.
  induction d as [|[k' v'] d IH]; cbn; [done|]. intros Hn.
  destruct (String.eqb_spec k' k) as [->|Hne]; [exfalso; apply Hn; by left|].
  rewrite IH; [done|]. intros Hin. apply Hn. by right.
Qed.

Lemma alter_middle {X : Type} (f : X -> X) (pre post : list X) (x : X) (k : nat) :
  k = length pre -> alter f k (pre ++ x :: post) = pre ++ f x :: post.
Proof.
  intros ->. rewrite <- (Nat.add_0_r (length pre)). by rewrite alter_app_r.
Qed.

Lemma uuid_str_inj (u v : bytes) : uuid_str u = uuid_str v -> u = v.
Proof.
  unfold uuid_str. intros H. apply bytes_hex_inj in H.
  apply (f_equal (@rev _)) in H. by rewrite !rev_involutive in H.
Qed.

Lemma fresh_id {X : Type} (uuid : X -> bytes) (l : list X) (x : X) :
  NoDup (map uuid (l ++ [x])) ->
  ~ In (uuid_str (uuid x)) (map (fun y => uuid_str (uuid y)) l).
Proof.
  rewrite map_app. cbn. intros Hnd Hin.
  apply NoDup_app in Hnd as (_ & Hd & _).
  apply in_map_iff in Hin as (y & Hy & Hin). apply uuid_str_inj in Hy.
  apply (Hd (uuid y)).
  - apply list_elem_of_In, in_map_iff. by exists y.
  - rewrite Hy. by apply list_elem_of_singleton.
Qed.

Lemma imap_keys {X : Type} (key : X -> string) (g : nat -> X -> nat) (l : list X) :
  map fst (imap (fun i x => (key x, g i x)) l) = map key l.
Proof.
  revert g. induction l as [|x l IH]; intros g; [done|].
  rewrite imap_cons. cbn. f_equal. exact (IH (fun i => g (S i))).
Qed.

Lemma svc_refs_keys (l : list ServiceRow) :
  dict_keys (svc_refs l) = map (fun s => uuid_str (sr_uuid s)) l.
Proof. exact (imap_keys (fun s => uuid_str (sr_uuid s)) (fun i _ => i) l). Qed.

Lemma char_refs_keys (off : nat) (l : list CharacteristicRow) :
  dict_keys (char_refs off l) = map (fun c => uuid_str (cr_uuid c)) l.
Proof.
  exact (imap_keys (fun c => uuid_str (cr_uuid c)) (fun j _ => (off + j)%nat) l).
Qed.

Lemma descriptor_keys (l : list DescriptorRow) :
  dict_keys (map descriptor_of l) = map (fun d => uuid_str (dr_uuid d)) l.
Proof. unfold dict_keys. rewrite map_map. done. Qed.

Lemma svc_refs_snoc (l : list ServiceRow) (s : ServiceRow) :
  svc_refs (l ++ [s]) = svc_refs l ++ [(uuid_str (sr_uuid s), length l)].
Proof. unfold svc_refs. rewrite imap_app. cbn. by rewrite Nat.add_0_r. Qed.

Lemma char_refs_snoc (off : nat) (l : list CharacteristicRow) (c : CharacteristicRow) :
  char_refs off (l ++ [c])
    = char_refs off l ++ [(uuid_str (cr_uuid c), (off + length l)%nat)].
Proof. unfold char_refs. rewrite imap_app. cbn. by rewrite Nat.add_0_r. Qed.

Lemma NoDup_snoc_prefix {X Y : Type} (f : X -> Y) (l1 l2 : list X) (x : X) :
  NoDup (map f (l1 ++ x :: l2)) ->
  NoDup (map f (l1 ++ [x])) /\ NoDup (map f ((l1 ++ [x]) ++ l2)).
Proof.
  intros H. rewrite <- app_assoc. split; [|done].
  change (x :: l2) with ([x] ++ l2) in H. rewrite app_assoc, map_app in H.
  by apply NoDup_app in H as (H & _ & _).
Qed.

Lemma objs_full_length (l : list ServiceRow) :
  forall off, length (objs_full off l) = length l.
Proof. induction l as [|s l IH]; intros off; cbn; [done|]. by rewrite IH. Qed.

Lemma objs_full_app (l1 l2 : list ServiceRow) :
  forall off,
    objs_full off (l1 ++ l2) =
      objs_full off l1 ++ objs_full (off + length (all_characteristics l1)) l2.
Proof.
  induction l1 as [|s l1 IH]; intros off; cbn [objs_full app].
  - cbn. by rewrite Nat.add_0_r.
  - rewrite IH. unfold all_characteristics. cbn [flat_map].
    rewrite length_app, Nat.add_assoc. done.
Qed.

Lemma store_wf (self : SilabsAccessPoint) (id : nat) (op : Operation)
    (pubs : list Publication) :
  operations_wf self -> operations_wf (store self id op pubs).
Proof. intros [? ?]. split; [done|]. cbn. by rewrite length_insert. Qed.

Section Walk.
Variables (h : Z) (id : nat) (R : dict ConnectionRequest.t).

Lemma walking_event self d cmds evt op' d' :
  walking h id R self d cmds ->
  walk_event h evt ->
  DiscoverOperation_handle_event (operation_at self id) d evt = inr op' ->
  class op' = Discover d' -> DiscoverOperation.handle d' = h ->
  flag op' = false -> is_done op' = false ->
  exists self',
    event_handler self evt = (None, self') /\
    operation_at self' id = op' /\
    walking h id R self' d' cmds.
Proof.
  intros [Hwf Hin Hoth Hcl Hh Hfl Hdn Hcmd Hreg] Hw Hev Hcl' Hh' Hfl' Hdn'.
  rewrite Forall_forall in Hoth.
  assert (Hid : handle_event (operation_at self id) evt = inr (op', [])).
  { unfold handle_event. by rewrite Hcl, Hev. }
  destruct (event_handler_progress self evt Hwf) as (self' & Heh).
  { intros j Hj. destruct (Hoth j (proj2 (list_elem_of_In _ _) Hj)) as [->|Hq].
    - by eexists.
    - destruct (quiet_total h _ evt Hq Hw) as (o & p & -> & _). by eexists. }
  destruct (event_handler_spec _ _ _ Hwf Heh) as (Hcells & _ & _ & Hops & Hwf').
  assert (Hop : operation_at self' id = op').
  { pose proof (Hcells id Hin) as Hc. rewrite Hid in Hc. by injection Hc as <- _. }
  exists self'. split; [done|]. split; [done|]. split; try done.
  - apply Hops. split; [done|]. by rewrite Hop.
  - apply Forall_forall. intros j Hj. apply list_elem_of_In, Hops in Hj as [Hj _].
    destruct (Hoth j (proj2 (list_elem_of_In _ _) Hj)) as [->|Hq]; [by left|]. right.
    destruct (quiet_total h _ evt Hq Hw) as (o & p & Hho & Hqo).
    pose proof (Hcells j Hj) as Hc. rewrite Hho in Hc. by injection Hc as <- _.
  - by rewrite Hop.
  - by rewrite Hop.
  - by rewrite Hop.
  - by rewrite (event_handler_commands _ _ _ _ Heh).
  - rewrite (event_handler_conn_reqs _ _ _ _ Heh). by destruct evt.
Qed.


Lemma walking_bound self d cmds :
  walking h id R self d cmds -> (id < length (heap self))%nat.
Proof.
  intros [[_ Hb] Hin _ _ _ _ _ _ _]. rewrite Forall_forall in Hb.
  by apply Hb, list_elem_of_In.
Qed.

(** An event that the handler of the operation takes without waking the
    caller. *)
Lemma drive_quiet self d cmds evt d' frame rest :
  walking h id R self d cmds ->
  walk_event h evt ->
  (forall op, DiscoverOperation_handle_event op d evt
              = inr (with_class op (Discover d'))) ->
  DiscoverOperation.handle d' = h ->
  exists self',
    drive id frame self (Deliver evt :: rest) = drive id frame self' rest /\
    walking h id R self' d' cmds.
Proof.
  intros Hw Hev Hh Hd'.
  destruct (walking_event self d cmds evt _ d' Hw Hev (Hh _)) as (self' & Heh & Hop & Hw');
    try done; try apply Hw.
  exists self'. split; [|done]. cbn [drive]. rewrite Heh, Hop. cbn [signals with_class].
  by rewrite Nat.ltb_irrefl.
Qed.

(** The procedure-completed event with the result 0 wakes the caller. *)
Lemma drive_wake self d cmds frame rest :
  walking h id R self d cmds ->
  exists self',
    drive id frame self (Deliver (bt_evt_gatt_procedure_completed h 0) :: rest)
      = continue id (resume id frame self') rest /\
    walking h id R self' (DiscoverOperation.set_result d 0) cmds.
Proof.
  intros Hw.
  destruct (walking_event self d cmds (bt_evt_gatt_procedure_completed h 0)
              (clear (set (with_class (operation_at self id)
                             (Discover (DiscoverOperation.set_result d 0)))))
              (DiscoverOperation.set_result d 0) Hw)
    as (self' & Heh & Hop & Hw'); try done.
  - cbn. by rewrite (walking_handle _ _ _ _ _ _ Hw), Z.eqb_refl.
  - cbn. apply Hw.
  - cbn. apply Hw.
  - exists self'. split; [|done]. cbn [drive]. rewrite Heh, Hop.
    cbn [signals clear set with_class].
    rewrite (proj2 (Nat.ltb_lt _ _)) by lia. unfold continue.
    by destruct (resume id frame self').
Qed.

Lemma walking_discover_at self d cmds :
  walking h id R self d cmds -> discover_at self id = d.
Proof. intros Hw. unfold discover_at. by rewrite (walking_class _ _ _ _ _ _ Hw). Qed.

Lemma walking_store self d cmds d' c :
  walking h id R self d cmds ->
  DiscoverOperation.handle d' = h ->
  walking h id R
    (issue (store self id (with_class (operation_at self id) (Discover d')) []) c)
    d' (cmds ++ [c]) /\
  walking h id R
    (store (issue self c) id (with_class (operation_at self id) (Discover d')) [])
    d' (cmds ++ [c]).
Proof.
  intros Hw Hh'. pose proof (walking_bound _ _ _ Hw) as Hb.
  destruct Hw as [[Hnd Hbs] Hin Hoth Hcl Hh Hfl Hdn Hcmd Hreg].
  assert (Hat : forall j,
            operation_at (store self id (with_class (operation_at self id)
                                            (Discover d')) []) j =
            if decide (id = j) then with_class (operation_at self id) (Discover d')
            else operation_at self j).
  { intros j. rewrite operation_at_store. destruct (decide (id = j)) as [->|Hne].
    - by rewrite decide_True.
    - rewrite decide_False; [done|]. by intros [? _]. }
  split.
  - split; cbn [operations issue store heap commands conn_reqs].
    + by apply issue_wf, store_wf.
    + done.
    + apply Forall_forall. intros j Hj. rewrite Forall_forall in Hoth.
      destruct (Hoth j Hj) as [->|Hq]; [by left|].
      destruct (decide (id = j)) as [->|Hne]; [by left|]. right.
      rewrite operation_at_issue, Hat. by rewrite decide_False.
    + rewrite operation_at_issue, Hat. by rewrite decide_True.
    + done.
    + rewrite operation_at_issue, Hat. by rewrite decide_True.
    + rewrite operation_at_issue, Hat. by rewrite decide_True.
    + by rewrite Hcmd.
    + done.
  - split; cbn [operations issue store heap commands conn_reqs].
    + by apply store_wf, issue_wf.
    + done.
    + apply Forall_forall. intros j Hj. rewrite Forall_forall in Hoth.
      destruct (Hoth j Hj) as [->|Hq]; [by left|].
      destruct (decide (id = j)) as [->|Hne]; [by left|]. right.
      change (operation_at (store (issue self c) id ?o []) j)
        with (operation_at (store self id o []) j).
      rewrite Hat. by rewrite decide_False.
    + change (operation_at (store (issue self c) id ?o []) id)
        with (operation_at (store self id o []) id).
      rewrite Hat. by rewrite decide_True.
    + done.
    + change (operation_at (store (issue self c) id ?o []) id)
        with (operation_at (store self id o []) id).
      rewrite Hat. by rewrite decide_True.
    + change (operation_at (store (issue self c) id ?o []) id)
        with (operation_at (store self id o []) id).
      rewrite Hat. by rewrite decide_True.
    + by rewrite Hcmd.
    + done.
Qed.

Lemma next_service_some self d cmds pos size key sref so :
  walking h id R self d cmds ->
  length (DiscoverOperation.services d) = size ->
  DiscoverOperation.services d !! pos = Some (key, sref) ->
  DiscoverOperation.service_objs d !! sref = Some so ->
  exists self',
    next_service id pos size self = Waiting (AwaitCharacteristics pos size sref) self' /\
    walking h id R self' (DiscoverOperation.set_current_service d sref)
      (cmds ++ [discover_characteristics h (so_service_handle so)]).
Proof.
  intros Hw Hlen Hpos Hso. unfold next_service.
  rewrite (walking_discover_at _ _ _ Hw), Hlen, Nat.eqb_refl, Hpos, Hso. cbn [negb].
  eexists. split; [reflexivity|].
  rewrite (walking_handle _ _ _ _ _ _ Hw).
  apply (proj2 (walking_store self d cmds
                  (DiscoverOperation.set_current_service d sref) _ Hw
                  (walking_handle _ _ _ _ _ _ Hw))).
Qed.

Lemma next_service_none self d cmds pos size :
  walking h id R self d cmds ->
  length (DiscoverOperation.services d) = size ->
  DiscoverOperation.services d !! pos = None ->
  next_service id pos size self
    = Finished (store self id (mark_done (operation_at self id)) []).
Proof.
  intros Hw Hlen Hpos. unfold next_service.
  by rewrite (walking_discover_at _ _ _ Hw), Hlen, Nat.eqb_refl, Hpos.
Qed.

Lemma next_characteristic_some self d cmds pos size sref so cpos csize key cref ch :
  walking h id R self d cmds ->
  DiscoverOperation.service_objs d !! sref = Some so ->
  length (so_characteristics so) = csize ->
  so_characteristics so !! cpos = Some (key, cref) ->
  DiscoverOperation.char_objs d !! cref = Some ch ->
  exists self',
    next_characteristic id pos size sref cpos csize self
      = Waiting (AwaitDescriptors pos size sref cpos csize) self' /\
    walking h id R self' (DiscoverOperation.set_current_characteristic d cref)
      (cmds ++ [discover_descriptors h (char_handle ch)]).
Proof.
  intros Hw Hso Hlen Hpos Hch. unfold next_characteristic.
  rewrite (walking_discover_at _ _ _ Hw), Hso, Hlen, Nat.eqb_refl, Hpos, Hch.
  cbn [negb]. eexists. split; [reflexivity|].
  rewrite (walking_handle _ _ _ _ _ _ Hw).
  apply (proj1 (walking_store self d cmds
                  (DiscoverOperation.set_current_characteristic d cref) _ Hw
                  (walking_handle _ _ _ _ _ _ Hw))).
Qed.

Lemma next_characteristic_none self d cmds pos size sref so cpos csize :
  walking h id R self d cmds ->
  DiscoverOperation.service_objs d !! sref = Some so ->
  length (so_characteristics so) = csize ->
  so_characteristics so !! cpos = None ->
  next_characteristic id pos size sref cpos csize self
    = next_service id (S pos) size self.
Proof.
  intros Hw Hso Hlen Hpos. unfold next_characteristic.
  by rewrite (walking_discover_at _ _ _ Hw), Hso, Hlen, Nat.eqb_refl, Hpos.
Qed.


(** *** The three kinds of attribute events *)

Lemma walk_primary frame tail :
  forall ss2 ss1 self d cmds,
    walking h id R self d cmds ->
    DiscoverOperation.services d = svc_refs ss1 ->
    DiscoverOperation.service_objs d = objs_empty ss1 ->
    NoDup (map sr_uuid (ss1 ++ ss2)) ->
    exists self' d',
      drive id frame self
        (map (fun s => Deliver (bt_evt_gatt_service h (sr_uuid s) (sr_handle s))) ss2
           ++ tail)
      = drive id frame self' tail /\
      walking h id R self' d' cmds /\
      DiscoverOperation.services d' = svc_refs (ss1 ++ ss2) /\
      DiscoverOperation.service_objs d' = objs_empty (ss1 ++ ss2) /\
      DiscoverOperation.char_objs d' = DiscoverOperation.char_objs d.
Proof.
  induction ss2 as [|s ss2 IH]; intros ss1 self d cmds Hw Hs Ho Hnd.
  - exists self, d. by rewrite app_nil_r.
  - cbn [map app].
    set (d1 := DiscoverOperation.set_services d
                 (svc_refs (ss1 ++ [s])) (objs_empty (ss1 ++ [s]))).
    destruct (drive_quiet self d cmds
                (bt_evt_gatt_service h (sr_uuid s) (sr_handle s)) d1 frame
                (map (fun s => Deliver (bt_evt_gatt_service h (sr_uuid s) (sr_handle s)))
                   ss2 ++ tail) Hw)
      as (self1 & -> & Hw1).
    + done.
    + intros op. cbn. rewrite (walking_handle _ _ _ _ _ _ Hw), Z.eqb_refl.
      do 3 f_equal. unfold d1. rewrite Hs, Ho. f_equal.
      * rewrite dict_set_fresh.
        -- unfold objs_empty. by rewrite svc_refs_snoc, length_map.
        -- rewrite svc_refs_keys. apply (fresh_id sr_uuid).
           by apply NoDup_snoc_prefix in Hnd as [Hnd _].
      * unfold objs_empty. by rewrite map_app.
    + cbn. apply Hw.
    + destruct (IH (ss1 ++ [s]) self1 d1 cmds Hw1) as (self' & d' & E & Hw' & H1 & H2 & H3).
      * done.
      * done.
      * by apply NoDup_snoc_prefix in Hnd as [_ Hnd].
      * exists self', d'. rewrite <- app_assoc in H1, H2. done.
Qed.

Lemma walk_characteristics frame tail (s : ServiceRow) k off opre opost cpre :
  forall cs2 cs1 self d cmds,
    walking h id R self d cmds ->
    DiscoverOperation.current_service d = Some k ->
    DiscoverOperation.service_objs d = opre ++ so_with off s cs1 :: opost ->
    k = length opre ->
    DiscoverOperation.char_objs d = cpre ++ chars_bare cs1 ->
    off = length cpre ->
    NoDup (map cr_uuid (cs1 ++ cs2)) ->
    exists self' d',
      drive id frame self
        (map (fun c => Deliver (bt_evt_gatt_characteristic h (cr_uuid c)
                                  (cr_handle c) (cr_props c))) cs2
           ++ tail)
      = drive id frame self' tail /\
      walking h id R self' d' cmds /\
      DiscoverOperation.current_service d' = Some k /\
      DiscoverOperation.services d' = DiscoverOperation.services d /\
      DiscoverOperation.service_objs d' = opre ++ so_with off s (cs1 ++ cs2) :: opost /\
      DiscoverOperation.char_objs d' = cpre ++ chars_bare (cs1 ++ cs2).
Proof.
  induction cs2 as [|c cs2 IH]; intros cs1 self d cmds Hw Hcur Ho Hk Hc Hoff Hnd.
  - exists self, d. by rewrite !app_nil_r.
  - cbn [map app].
    set (d1 := DiscoverOperation.set_objs d
                 (opre ++ so_with off s (cs1 ++ [c]) :: opost)
                 (cpre ++ chars_bare (cs1 ++ [c]))).
    destruct (drive_quiet self d cmds
                (bt_evt_gatt_characteristic h (cr_uuid c) (cr_handle c) (cr_props c))
                d1 frame
                (map (fun c => Deliver (bt_evt_gatt_characteristic h (cr_uuid c)
                                          (cr_handle c) (cr_props c))) cs2 ++ tail) Hw)
      as (self1 & -> & Hw1).
    + done.
    + intros op. cbn. rewrite (walking_handle _ _ _ _ _ _ Hw), Z.eqb_refl, Hcur.
      do 3 f_equal. unfold d1. rewrite Ho, Hc. f_equal.
      * rewrite alter_middle by done. do 2 f_equal.
        unfold add_characteristic, so_with. cbn. f_equal.
        rewrite dict_set_fresh.
        -- rewrite char_refs_snoc. unfold chars_bare.
           by rewrite length_app, length_map, Hoff.
        -- rewrite char_refs_keys. apply (fresh_id cr_uuid).
           by apply NoDup_snoc_prefix in Hnd as [Hnd _].
      * unfold chars_bare. rewrite map_app, <- app_assoc. done.
    + cbn. apply Hw.
    + destruct (IH (cs1 ++ [c]) self1 d1 cmds Hw1)
        as (self' & d' & E & Hw' & H0 & H1 & H2 & H3); try done.
      * by apply NoDup_snoc_prefix in Hnd as [_ Hnd].
      * exists self', d'. rewrite <- app_assoc in H2, H3. done.
Qed.

Lemma walk_descriptors frame tail (c : CharacteristicRow) cref cpre cpost :
  forall ds2 ds1 self d cmds,
    walking h id R self d cmds ->
    DiscoverOperation.current_characteristic d = Some cref ->
    DiscoverOperation.char_objs d = cpre ++ char_with c ds1 :: cpost ->
    cref = length cpre ->
    NoDup (map dr_uuid (ds1 ++ ds2)) ->
    exists self' d',
      drive id frame self
        (map (fun x => Deliver (bt_evt_gatt_descriptor h (dr_uuid x) (dr_handle x))) ds2
           ++ tail)
      = drive id frame self' tail /\
      walking h id R self' d' cmds /\
      DiscoverOperation.services d' = DiscoverOperation.services d /\
      DiscoverOperation.service_objs d' = DiscoverOperation.service_objs d /\
      DiscoverOperation.char_objs d' = cpre ++ char_with c (ds1 ++ ds2) :: cpost.
Proof.
  induction ds2 as [|x ds2 IH]; intros ds1 self d cmds Hw Hcur Hc Hk Hnd.
  - exists self, d. by rewrite !app_nil_r.
  - cbn [map app].
    set (d1 := DiscoverOperation.set_objs d (DiscoverOperation.service_objs d)
                 (cpre ++ char_with c (ds1 ++ [x]) :: cpost)).
    destruct (drive_quiet self d cmds
                (bt_evt_gatt_descriptor h (dr_uuid x) (dr_handle x)) d1 frame
                (map (fun x => Deliver (bt_evt_gatt_descriptor h (dr_uuid x)
                                          (dr_handle x))) ds2 ++ tail) Hw)
      as (self1 & -> & Hw1).
    + done.
    + intros op. cbn. rewrite (walking_handle _ _ _ _ _ _ Hw), Z.eqb_refl, Hcur.
      do 3 f_equal. unfold d1. rewrite Hc. f_equal.
      rewrite alter_middle by done. do 2 f_equal.
      unfold add_descriptor, char_with. cbn. f_equal.
      rewrite dict_set_fresh.
      * by rewrite map_app.
      * rewrite descriptor_keys. apply (fresh_id dr_uuid).
        by apply NoDup_snoc_prefix in Hnd as [Hnd _].
    + cbn. apply Hw.
    + destruct (IH (ds1 ++ [x]) self1 d1 cmds Hw1)
        as (self' & d' & E & Hw' & H1 & H2 & H3); try done.
      * by apply NoDup_snoc_prefix in Hnd as [_ Hnd].
      * exists self', d'. rewrite <- app_assoc in H3. done.
Qed.


(** *** The loops of [run] *)

Lemma resume_completed self d cmds frame :
  walking h id R self (DiscoverOperation.set_result d 0) cmds ->
  resume id frame self =
    match frame with
    | AwaitServices =>
        next_service id 0 (length (DiscoverOperation.services d)) self
    | AwaitCharacteristics pos size sref =>
        match DiscoverOperation.service_objs d !! sref with
        | None => Failed (KeyError "service") self
        | Some service =>
            next_characteristic id pos size sref 0
              (length (so_characteristics service)) self
        end
    | AwaitDescriptors pos size sref cpos csize =>
        next_characteristic id pos size sref (S cpos) csize self
    end.
Proof. intros Hw. unfold resume. by rewrite (walking_discover_at _ _ _ Hw). Qed.

Lemma characteristics_loop (n k off : nat) (s : ServiceRow) opre opost cpre tail :
  forall ctodo cdone self d cmds,
    walking h id R self d cmds ->
    DiscoverOperation.service_objs d
      = opre ++ so_with off s (cdone ++ ctodo) :: opost ->
    k = length opre ->
    DiscoverOperation.char_objs d = cpre ++ chars_full cdone ++ chars_bare ctodo ->
    off = length cpre ->
    Forall (fun c => NoDup (map dr_uuid (cr_descriptors c))) ctodo ->
    exists self' d',
      continue id
        (next_characteristic id k n k (length cdone) (length (cdone ++ ctodo)) self)
        (flat_map (descriptor_events h) ctodo ++ tail)
      = continue id (next_service id (S k) n self') tail /\
      walking h id R self' d'
        (cmds ++ map (fun c => discover_descriptors h (cr_handle c)) ctodo) /\
      DiscoverOperation.services d' = DiscoverOperation.services d /\
      DiscoverOperation.service_objs d' = DiscoverOperation.service_objs d /\
      DiscoverOperation.char_objs d' = cpre ++ chars_full (cdone ++ ctodo).
Proof.
  induction ctodo as [|c ctodo IH]; intros cdone self d cmds Hw Ho Hk Hc Hoff Hnd.
  - exists self, d. rewrite !app_nil_r in *. cbn [flat_map app map].
    rewrite (next_characteristic_none self d cmds k n k _ _ _ Hw
               (eq_trans (f_equal (fun l => l !! k) Ho)
                         (list_lookup_middle _ _ _ _ Hk))).
    + done.
    + unfold so_with, char_refs. cbn [so_characteristics]. by rewrite length_imap.
    + unfold so_with, char_refs. cbn [so_characteristics]. apply lookup_ge_None_2.
      by rewrite length_imap.
  - apply Forall_cons in Hnd as [Hndc Hnd].
    destruct (next_characteristic_some self d cmds k n k _ (length cdone)
                (length (cdone ++ c :: ctodo)) (uuid_str (cr_uuid c))
                (off + length cdone)%nat (char_with c []) Hw
                (eq_trans (f_equal (fun l => l !! k) Ho)
                          (list_lookup_middle _ _ _ _ Hk)))
      as (self1 & -> & Hw1).
    + unfold so_with, char_refs. cbn [so_characteristics]. by rewrite length_imap.
    + unfold so_with, char_refs. cbn [so_characteristics].
      refine (eq_trans (list_lookup_imap _ _ _) _).
      by rewrite (list_lookup_middle cdone ctodo c _ eq_refl).
    + rewrite Hc, app_assoc. apply list_lookup_middle.
      unfold chars_full. by rewrite length_app, length_map, Hoff.
    + cbn [continue flat_map]. unfold descriptor_events at 1.
      rewrite <- !app_assoc.
      destruct (walk_descriptors
                  (AwaitDescriptors k n k (length cdone) (length (cdone ++ c :: ctodo)))
                  ([Deliver (bt_evt_gatt_procedure_completed h 0)]
                     ++ flat_map (descriptor_events h) ctodo ++ tail)
                  c (off + length cdone)%nat (cpre ++ chars_full cdone)
                  (chars_bare ctodo) (cr_descriptors c) [] self1 _ _ Hw1)
        as (self2 & d2 & -> & Hw2 & Hs2 & Ho2 & Hc2).
      * done.
      * cbn. rewrite Hc. by rewrite <- app_assoc.
      * unfold chars_full. by rewrite length_app, length_map, Hoff.
      * done.
      * cbn [app].
        destruct (drive_wake self2 d2 _
                    (AwaitDescriptors k n k (length cdone)
                       (length (cdone ++ c :: ctodo)))
                    (flat_map (descriptor_events h) ctodo ++ tail) Hw2)
          as (self3 & -> & Hw3).
        rewrite (resume_completed self3 d2 _ _ Hw3).
        destruct (IH (cdone ++ [c]) self3 (DiscoverOperation.set_result d2 0) _ Hw3)
          as (self' & d' & E & Hw' & H1 & H2 & H3).
        -- cbn. rewrite Ho2. cbn. rewrite Ho. by rewrite <- app_assoc.
        -- done.
        -- cbn. rewrite Hc2. cbn [app]. unfold chars_full.
           rewrite map_app, <- !app_assoc. done.
        -- done.
        -- done.
        -- exists self', d'.
           rewrite length_app in E. cbn [length] in E. rewrite Nat.add_1_r in E.
           rewrite <- app_assoc in E, H3. cbn [app] in E, H3.
           rewrite E. split; [done|]. split.
           { rewrite <- app_assoc in Hw'. exact Hw'. }
           cbn in H1, H2. rewrite H1, H2, Hs2, Ho2. done.
Qed.


Lemma services_loop (n : nat) (rest : list Stimulus) :
  forall todo done self d cmds,
    walking h id R self d cmds ->
    DiscoverOperation.services d = svc_refs (done ++ todo) ->
    n = length (done ++ todo) ->
    DiscoverOperation.service_objs d = objs_full 0 done ++ objs_empty todo ->
    DiscoverOperation.char_objs d = chars_full (all_characteristics done) ->
    Forall
      (fun s =>
         NoDup (map cr_uuid (sr_characteristics s)) /\
         Forall (fun c => NoDup (map dr_uuid (cr_descriptors c)))
           (sr_characteristics s))
      todo ->
    exists self' d',
      continue id (next_service id (length done) n self)
        (flat_map (characteristic_events h) todo ++ rest)
      = (Returned tt, self', rest) /\
      class (operation_at self' id) = Discover d' /\
      is_done (operation_at self' id) = true /\
      commands self' =
        cmds ++
          flat_map
            (fun s =>
               discover_characteristics h (sr_handle s)
               :: map (fun c => discover_descriptors h (cr_handle c))
                    (sr_characteristics s))
            todo /\
      conn_reqs self' = R /\
      DiscoverOperation.services d' = svc_refs (done ++ todo) /\
      DiscoverOperation.service_objs d' = objs_full 0 (done ++ todo) /\
      DiscoverOperation.char_objs d' = chars_full (all_characteristics (done ++ todo)).
Proof.
  induction todo as [|s todo IH]; intros done self d cmds Hw Hs Hn Ho Hc Hwf.
  - rewrite app_nil_r in *. cbn [flat_map app].
    rewrite (next_service_none self d cmds _ _ Hw).
    + cbn [continue]. eexists _, d. split; [reflexivity|].
      rewrite ?app_nil_r in Ho.
      rewrite operation_at_store, decide_True
        by (split; [done | by apply (walking_bound _ _ _ Hw)]).
      cbn [class is_done mark_done commands conn_reqs store flat_map].
      rewrite app_nil_r. repeat split; try done; apply Hw.
    + rewrite Hs. unfold svc_refs. by rewrite length_imap.
    + rewrite Hs. apply lookup_ge_None_2. unfold svc_refs. by rewrite length_imap.
  - apply Forall_cons in Hwf as [[Hndc Hndd] Hwf].
    set (k := length done) in *.
    set (off := length (all_characteristics done)).
    assert (Hok : DiscoverOperation.service_objs d !! k = Some (so_with off s [])).
    { rewrite Ho. apply list_lookup_middle. by rewrite objs_full_length. }
    destruct (next_service_some self d cmds k n (uuid_str (sr_uuid s)) k
                (so_with off s []) Hw)
      as (self1 & -> & Hw1).
    + rewrite Hs. unfold svc_refs. by rewrite length_imap.
    + rewrite Hs. unfold svc_refs. refine (eq_trans (list_lookup_imap _ _ _) _).
      by rewrite (list_lookup_middle done todo s k eq_refl).
    + exact Hok.
    + cbn [continue flat_map so_service_handle so_with].
      unfold characteristic_events at 1. rewrite <- !app_assoc. cbn [app].
      destruct (walk_characteristics
                  (AwaitCharacteristics k n k)
                  (Deliver (bt_evt_gatt_procedure_completed h 0)
                     :: flat_map (descriptor_events h) (sr_characteristics s)
                     ++ flat_map (characteristic_events h) todo ++ rest)
                  s k off (objs_full 0 done) (objs_empty todo)
                  (chars_full (all_characteristics done))
                  (sr_characteristics s) [] self1 _ _ Hw1)
        as (self2 & d2 & -> & Hw2 & Hcur2 & Hs2 & Ho2 & Hc2).
      * done.
      * cbn. by rewrite Ho.
      * by rewrite objs_full_length.
      * cbn. rewrite Hc. unfold chars_bare. cbn. by rewrite app_nil_r.
      * unfold chars_full. by rewrite length_map.
      * done.
      * cbn [app] in Ho2, Hc2.
        destruct (drive_wake self2 d2 _ (AwaitCharacteristics k n k)
                    (flat_map (descriptor_events h) (sr_characteristics s)
                       ++ flat_map (characteristic_events h) todo ++ rest) Hw2)
          as (self3 & -> & Hw3).
        rewrite (resume_completed self3 d2 _ _ Hw3).
        rewrite Ho2, (list_lookup_middle _ _ _ k (eq_sym (objs_full_length done 0))).
        unfold so_with at 1, char_refs at 1. cbn [so_characteristics].
        rewrite length_imap.
        destruct (characteristics_loop n k off s (objs_full 0 done) (objs_empty todo)
                    (chars_full (all_characteristics done))
                    (flat_map (characteristic_events h) todo ++ rest)
                    (sr_characteristics s) [] self3
                    (DiscoverOperation.set_result d2 0) _ Hw3)
          as (self4 & d4 & E & Hw4 & Hs4 & Ho4 & Hc4).
        -- cbn. by rewrite Ho2.
        -- by rewrite objs_full_length.
        -- cbn. rewrite Hc2. done.
        -- unfold chars_full. by rewrite length_map.
        -- done.
        -- cbn [app length] in E. rewrite E.
           cbn in Hs4, Ho4. cbn [app] in Hc4.
           destruct (IH (done ++ [s]) self4 d4 _ Hw4)
             as (self' & d' & E' & H1 & H2 & H3 & H4 & H5 & H6 & H7).
           ++ rewrite Hs4, Hs2. cbn. rewrite Hs. by rewrite <- app_assoc.
           ++ rewrite Hn. by rewrite <- app_assoc.
           ++ rewrite Ho4, Ho2, objs_full_app. cbn [objs_full].
              rewrite <- app_assoc. done.
           ++ rewrite Hc4. unfold all_characteristics.
              rewrite flat_map_app. cbn [flat_map]. rewrite app_nil_r.
              unfold chars_full. by rewrite map_app.
           ++ done.
           ++ exists self', d'.
              rewrite length_app in E'. cbn [length] in E'.
              rewrite Nat.add_1_r in E'. fold k in E'. rewrite E'.
              rewrite <- !app_assoc in *. cbn [app] in *.
              split; [done|]. split; [done|]. split; [done|]. split; [|done].
              rewrite H3. done.
Qed.

End Walk.

(** *** What the walk leaves in the operation *)

Lemma deref_cons {A : Type} (store : list A) (k : string) (ref : nat) (a : A)
    (d : dict nat) :
  store !! ref = Some a -> deref store ((k, ref) :: d) = (k, a) :: deref store d.
Proof. intros H. unfold deref. cbn [omap list_omap fst snd]. by rewrite H. Qed.

Lemma deref_refs {A B : Type} (key : B -> string) (val : B -> A) (post : list A)
    (l : list B) :
  forall (pre : list A) (off : nat),
    off = length pre ->
    deref (pre ++ map val l ++ post) (imap (fun j b => (key b, (off + j)%nat)) l)
      = map (fun b => (key b, val b)) l.
Proof.
  induction l as [|x l IH]; intros pre off Hoff; [done|].
  rewrite imap_cons. cbn [map app].
  rewrite (deref_cons _ _ _ (val x)) by (apply list_lookup_middle; lia).
  f_equal.
  change (pre ++ val x :: map val l ++ post)
    with (pre ++ [val x] ++ map val l ++ post).
  rewrite app_assoc, <- (IH (pre ++ [val x]) (S off))
    by (rewrite length_app; cbn; lia).
  f_equal. apply imap_ext. intros i b _. cbn. f_equal. lia.
Qed.

Lemma services_view (d : DiscoverOperation.t) (l : list ServiceRow) :
  forall opre cpre,
    DiscoverOperation.service_objs d = opre ++ objs_full (length cpre) l ->
    DiscoverOperation.char_objs d = cpre ++ chars_full (all_characteristics l) ->
    map (fun ks => (fst ks, service_of d (snd ks)))
      (deref (DiscoverOperation.service_objs d)
         (imap (fun i s => (uuid_str (sr_uuid s), (length opre + i)%nat)) l))
    = map service_of_row l.
Proof.
  induction l as [|s l IH]; intros opre cpre Ho Hc; [done|].
  rewrite imap_cons.
  rewrite (deref_cons _ _ _ (so_with (length cpre) s (sr_characteristics s)))
    by (rewrite Ho; cbn [objs_full]; apply list_lookup_middle; lia).
  cbn [map fst snd]. f_equal.
  - unfold service_of_row, service_of, so_with. cbn. do 2 f_equal.
    rewrite Hc. unfold all_characteristics, chars_full, char_refs.
    cbn [flat_map]. rewrite map_app.
    exact (deref_refs (fun c => uuid_str (cr_uuid c))
             (fun c => char_with c (cr_descriptors c)) _ (sr_characteristics s)
             cpre (length cpre) eq_refl).
  - rewrite <- (IH (opre ++ [so_with (length cpre) s (sr_characteristics s)])
                  (cpre ++ chars_full (sr_characteristics s))).
    + do 2 f_equal. apply imap_ext. intros i x _. cbn. f_equal.
      rewrite length_app. cbn. lia.
    + rewrite Ho. cbn [objs_full]. rewrite <- app_assoc. cbn [app]. do 3 f_equal.
      unfold chars_full. by rewrite length_app, length_map.
    + rewrite Hc. unfold all_characteristics, chars_full. cbn [flat_map].
      by rewrite map_app, app_assoc.
Qed.

(** X19: a discovery walk on a peer whose attribute table has no repeated
    UUID, with every procedure succeeding and no other discover operation
    of the connection pending, returns the table: [discover] issues the
    commands of the walk in order, returns the services with their
    characteristics (capabilities decoded) and descriptors in the order of
    the events, caches them in the registry, and leaves its operation
    done. *)
Theorem X19_discover_returns_table
    (self : SilabsAccessPoint) (A : string) (options : BleConnectOptions.t)
    (retries : Z) (conn_req : ConnectionRequest.t) (table : list ServiceRow)
    (rest : list Stimulus) :
  operations_wf self ->
  get_connection (conn_reqs self) A = Some conn_req ->
  Forall (fun j => quiet_for (ConnectionRequest.handle conn_req) (operation_at self j))
    (operations self) ->
  table_wf table ->
  exists self',
    discover self A options retries
      (table_events (ConnectionRequest.handle conn_req) table ++ rest)
    = (Returned (DiscoverResponse.mk A (SvcDict (ServicesOf (length (heap self))))),
       self', rest) /\
    services_at self' (ServicesOf (length (heap self))) = table_services table /\
    commands self' =
      commands self ++ table_commands (ConnectionRequest.handle conn_req) table /\
    get_connection (conn_reqs self') A =
      Some (ConnectionRequest.mk (ConnectionRequest.address conn_req)
              (ConnectionRequest.handle conn_req) (ServicesOf (length (heap self)))) /\
    is_done (operation_at self' (length (heap self))) = true.
Proof.
  intros Hwf Hget Hquiet [Hnd Hrows]. unfold get_connection in Hget.
  unfold discover. rewrite Hget.
  set (h := ConnectionRequest.handle conn_req) in *.
  set (d0 := DiscoverOperation.init h retries _).
  destruct (new_operation self (Discover d0)) as [id self0] eqn:En.
  destruct (new_operation_wf _ _ _ _ Hwf En) as (Hwf0 & Hin0 & Hfresh).
  destruct (new_operation_spec _ _ _ _ En)
    as (Hid & Hreg0 & Hops0 & Hheap0 & _ & Hcmd0 & Hnew).
  rewrite <- Hid. unfold DiscoverOperation_run, discover_at. rewrite Hnew.
  cbn [class Operation_init DiscoverOperation.handle d0 DiscoverOperation.init].
  set (self0' := issue self0 (discover_primary_services h)).
  assert (Hw0 : walking h id (conn_reqs self) self0' d0
                  (commands self ++ [discover_primary_services h])).
  { unfold self0'. split.
    - by apply issue_wf.
    - done.
    - cbn. rewrite Hops0. apply Forall_app. split.
      + rewrite Forall_forall in Hquiet. apply Forall_forall. intros j Hj. right.
        rewrite operation_at_issue.
        assert (E : operation_at self0 j = operation_at self j).
        { unfold operation_at. rewrite Hheap0. rewrite lookup_app_l; [done|].
          destruct Hwf as [_ Hb]. rewrite Forall_forall in Hb. by apply Hb. }
        rewrite E. by apply Hquiet.
      + apply Forall_cons. split; [by left | constructor].
    - by rewrite operation_at_issue, Hnew.
    - done.
    - by rewrite operation_at_issue, Hnew.
    - by rewrite operation_at_issue, Hnew.
    - cbn. by rewrite Hcmd0.
    - done. }
  unfold table_events. rewrite <- app_assoc. cbn [app].
  destruct (walk_primary h id (conn_reqs self) AwaitServices
              (Deliver (bt_evt_gatt_procedure_completed h 0)
                 :: flat_map (characteristic_events h) table ++ rest)
              table [] self0' d0 _ Hw0)
    as (self1 & d1 & -> & Hw1 & Hs1 & Ho1 & Hc1); [done..|].
  cbn [app] in Hs1, Ho1.
  destruct (drive_wake h id (conn_reqs self) self1 d1 _ AwaitServices
              (flat_map (characteristic_events h) table ++ rest) Hw1)
    as (self2 & -> & Hw2).
  rewrite (resume_completed h id (conn_reqs self) self2 d1 _ _ Hw2).
  rewrite Hs1. unfold svc_refs at 1. rewrite length_imap.
  destruct (services_loop h id (conn_reqs self) (length table) rest table []
              self2 (DiscoverOperation.set_result d1 0) _ Hw2)
    as (self3 & d3 & E & Hcl3 & Hdn3 & Hcmd3 & Hreg3 & Hs3 & Ho3 & Hc3).
  { done. }
  { done. }
  { done. }
  { cbn. by rewrite Hc1. }
  { done. }
  cbn [length app] in E, Hs3, Ho3, Hc3. rewrite E. cbv beta iota zeta.
  assert (Hview : discovered_services (discover_at self3 id) = table_services table).
  { unfold discover_at. rewrite Hcl3. unfold discovered_services. rewrite Hs3.
    apply (services_view d3 table [] []); [by rewrite Ho3 | by rewrite Hc3]. }
  rewrite Hreg3, Hget.
  eexists. split; [reflexivity|]. split; [|split; [|split]].
  - exact Hview.
  - cbn. rewrite Hcmd3. by rewrite <- app_assoc.
  - unfold get_connection. cbn. apply dict_get_set_eq.
  - done.
Qed.

Lemma X19_discover_returns_table_witness :
  exists self',
    discover Scenario.connected Scenario.address BleConnectOptions.default 3
      (table_events 1
         [mkServiceRow Scenario.uuid_180d 10
            [mkCharacteristicRow Scenario.uuid_2a37 11 0x12
               [mkDescriptorRow Scenario.uuid_2902 12]];
          mkServiceRow Scenario.uuid_180f 20 []] ++ [])
    = (Returned (DiscoverResponse.mk Scenario.address (SvcDict (ServicesOf 1))),
       self', []) /\
    services_at self' (ServicesOf 1) =
      table_services
        [mkServiceRow Scenario.uuid_180d 10
           [mkCharacteristicRow Scenario.uuid_2a37 11 0x12
              [mkDescriptorRow Scenario.uuid_2902 12]];
         mkServiceRow Scenario.uuid_180f 20 []] /\
    commands self' =
      commands Scenario.connected ++
        table_commands 1
          [mkServiceRow Scenario.uuid_180d 10
             [mkCharacteristicRow Scenario.uuid_2a37 11 0x12
                [mkDescriptorRow Scenario.uuid_2902 12]];
           mkServiceRow Scenario.uuid_180f 20 []].
Proof.
  destruct (X19_discover_returns_table Scenario.connected Scenario.address
              BleConnectOptions.default 3
              (ConnectionRequest.mk Scenario.address 1 EmptyDict)
              [mkServiceRow Scenario.uuid_180d 10
                 [mkCharacteristicRow Scenario.uuid_2a37 11 0x12
                    [mkDescriptorRow Scenario.uuid_2902 12]];
               mkServiceRow Scenario.uuid_180f 20 []] [])
    as (self' & H1 & H2 & H3 & _).
  - exact scenario_connected_wf.
  - vm_compute. reflexivity.
  - apply Forall_cons. split; [vm_compute; exact I | constructor].
  - split.
    + apply NoDup_cons. split; [|apply NoDup_singleton].
      intros H. apply list_elem_of_In in H. destruct H as [H|[]].
      vm_compute in H. discriminate H.
    + apply Forall_cons. split.
      * split; [apply NoDup_singleton|].
        apply Forall_cons. split; [apply NoDup_singleton | constructor].
      * apply Forall_cons. split; [|constructor].
        split; constructor.
  - exists self'. split; [exact H1 | split; [exact H2 | exact H3]].
Defined.

(** ** Calls that return *)

Lemma plain_total (evt : Event) (op : Operation) :
  plain (Deliver evt) -> exists op' pubs, handle_event op evt = inr (op', pubs).
Proof.
  unfold handle_event. intros Hp.
  destruct (class op) as [d|r|w|c|x|s|]; try (by eexists _, _);
    try (match goal with
         | |- exists _ _, inr ?x = _ => by destruct x as [o p]; exists o, p
         end).
  destruct evt; cbn in Hp |- *; try done; try by eexists _, _.
  all: destruct (_ =? _); by eexists _, _.
Qed.

Lemma plain_step (self : SilabsAccessPoint) (evt : Event) :
  operations_wf self -> plain (Deliver evt) ->
  exists self',
    event_handler self evt = (None, self') /\
    operations_wf self' /\
    (forall id, In id (operations self) ->
       exists pubs,
         handle_event (operation_at self id) evt = inr (operation_at self' id, pubs)) /\
    (forall id, In id (operations self') <->
       In id (operations self) /\ is_done (operation_at self' id) = false).
Proof.
  intros Hwf Hp.
  destruct (event_handler_total evt self (fun op => plain_total evt op Hp))
    as (self' & Heh).
  destruct (event_handler_spec _ _ _ Hwf Heh) as (Hcells & _ & _ & Hops & Hwf').
  exists self'. split; [done|]. split; [done|]. split; [|done].
  intros id Hid. eexists. by apply Hcells.
Qed.

Lemma block_write_returns (w : WriteOperation.t) (id : nat) (result : Z)
    (rest : list Stimulus) :
  forall pre self,
    operations_wf self ->
    In id (operations self) ->
    class (operation_at self id) = Write w ->
    is_done (operation_at self id) = false ->
    Forall plain pre ->
    Forall (no_completion (WriteOperation.handle w)) pre ->
    exists self',
      block false id self
        (pre ++ Deliver (bt_evt_gatt_procedure_completed (WriteOperation.handle w) result)
             :: rest)
      = Resumed self' rest /\
      commands self' = commands self.
Proof.
  induction pre as [|[evt|] pre IH]; intros self Hwf Hin Hcl Hnd Hpl Hpre;
    cbn [app block].
  - destruct (plain_step self (bt_evt_gatt_procedure_completed
                                 (WriteOperation.handle w) result) Hwf I)
      as (self1 & Heh & _ & Hcells & _).
    destruct (Hcells id Hin) as (pubs & Hc). unfold handle_event in Hc.
    rewrite Hcl in Hc. cbn in Hc. rewrite Z.eqb_refl in Hc. injection Hc as Hop _.
    rewrite Heh, <- Hop. cbn [signals mark_done set].
    rewrite (proj2 (Nat.ltb_lt _ _)) by lia.
    exists self1. split; [done|].
    by apply (event_handler_commands _ _ _ _ Heh).
  - apply Forall_cons in Hpre as [Hq Hpre]. apply Forall_cons in Hpl as [Hp Hpl].
    destruct (plain_step self evt Hwf Hp) as (self1 & Heh & Hwf1 & Hcells & Hops).
    destruct (Hcells id Hin) as (pubs & Hc). unfold handle_event in Hc.
    rewrite Hcl in Hc. injection Hc as Hop _.
    assert (E : WriteOperation_handle_event (operation_at self id) w evt
                = operation_at self id).
    { destruct evt; cbn; try done.
      destruct (Z.eqb_spec (WriteOperation.handle w) connection) as [<-|]; [|done].
      by destruct (Hq result0). }
    rewrite E in Hop. rewrite Heh, <- Hop, Nat.ltb_irrefl.
    destruct (IH self1) as (self' & -> & Hcmd); try done.
    + apply Hops. split; [done|]. by rewrite <- Hop.
    + by rewrite <- Hop.
    + by rewrite <- Hop.
    + exists self'. split; [done|].
      by rewrite Hcmd, (event_handler_commands _ _ _ _ Heh).
  - apply Forall_cons in Hpre as [_ Hpre]. apply Forall_cons in Hpl as [_ Hpl].
    by apply IH.
Qed.

Lemma block_read_returns (r : ReadOperation.t) (id : nat) (value : bytes)
    (rest : list Stimulus) :
  forall pre self,
    operations_wf self ->
    In id (operations self) ->
    class (operation_at self id) = Read r ->
    is_done (operation_at self id) = false ->
    Forall plain pre ->
    Forall (no_read_response (ReadOperation.handle r) (ReadOperation.char_handle r)) pre ->
    Forall (no_completion (ReadOperation.handle r)) pre ->
    exists self',
      block false id self
        (pre ++ Deliver (bt_evt_gatt_characteristic_value (ReadOperation.handle r)
                           (ReadOperation.char_handle r) ATT_OPCODE_READ_RESPONSE value)
             :: rest)
      = Resumed self' rest /\
      commands self' = commands self /\
      operation_at self' id =
        set (with_class (operation_at self id)
               (Read (ReadOperation.mk (ReadOperation.handle r)
                        (ReadOperation.char_handle r) (Some value)))) /\
      In id (operations self').
Proof.
  induction pre as [|[evt|] pre IH]; intros self Hwf Hin Hcl Hnd Hpl Hpre Hpre';
    cbn [app block].
  - destruct (plain_step self (bt_evt_gatt_characteristic_value (ReadOperation.handle r)
                                 (ReadOperation.char_handle r) ATT_OPCODE_READ_RESPONSE
                                 value) Hwf I)
      as (self1 & Heh & _ & Hcells & Hops).
    destruct (Hcells id Hin) as (pubs & Hc). unfold handle_event in Hc.
    rewrite Hcl in Hc. cbn in Hc. rewrite !Z.eqb_refl in Hc. cbn in Hc.
    injection Hc as Hop _.
    rewrite Heh, <- Hop. cbn [signals with_class set].
    rewrite (proj2 (Nat.ltb_lt _ _)) by lia.
    exists self1. split; [done|].
    split; [by apply (event_handler_commands _ _ _ _ Heh)|]. split; [done|].
    apply Hops. split; [done|]. by rewrite <- Hop.
  - apply Forall_cons in Hpre as [Hq Hpre]. apply Forall_cons in Hpre' as [Hq' Hpre'].
    apply Forall_cons in Hpl as [Hp Hpl].
    destruct (plain_step self evt Hwf Hp) as (self1 & Heh & Hwf1 & Hcells & Hops).
    destruct (Hcells id Hin) as (pubs & Hc). unfold handle_event in Hc.
    rewrite Hcl in Hc. injection Hc as Hop _.
    destruct (read_handler_cases r (operation_at self id) evt Hq) as [[_ [res ->]]|[E _]];
      [by destruct (Hq' res)|].
    rewrite E in Hop. rewrite Heh, <- Hop, Nat.ltb_irrefl.
    destruct (IH self1) as (self' & -> & Hcmd & Hat & Hin'); try done.
    + apply Hops. split; [done|]. by rewrite <- Hop.
    + by rewrite <- Hop.
    + by rewrite <- Hop.
    + exists self'. split; [done|].
      rewrite Hcmd, (event_handler_commands _ _ _ _ Heh), Hat, <- Hop. done.
  - apply Forall_cons in Hpre as [_ Hpre]. apply Forall_cons in Hpre' as [_ Hpre'].
    apply Forall_cons in Hpl as [_ Hpl]. by apply IH.
Qed.

(** X20: when no characteristic or descriptor discovery event comes
    before it, [write] returns at the first procedure-completed event of
    the connection, whatever result code the event carries: the response
    reports success with the value written, and the stimuli after that
    event are left to the next call. *)
Theorem X20_write_returns_at_first_completion
    (self : SilabsAccessPoint) (A S C : string) (value : bytes)
    (conn_req : ConnectionRequest.t) (characteristic : Characteristic)
    (pre rest : list Stimulus) (result : Z) :
  operations_wf self ->
  get_connection (conn_reqs self) A = Some conn_req ->
  lookup_characteristic self conn_req S C = inr characteristic ->
  Forall plain pre ->
  Forall (no_completion (ConnectionRequest.handle conn_req)) pre ->
  exists self',
    write self A S C value
      (pre ++ Deliver (bt_evt_gatt_procedure_completed
                         (ConnectionRequest.handle conn_req) result) :: rest)
    = (Returned (WriteResponse.mk A S C (Some value) true), self', rest) /\
    commands self' =
      commands self ++
        [write_characteristic_value (ConnectionRequest.handle conn_req)
           (char_handle characteristic) value].
Proof.
  intros Hwf Hget Hlook Hpl Hpre. unfold write. unfold get_connection in Hget.
  rewrite Hget, Hlook.
  set (w := WriteOperation.mk _ _ _).
  destruct (new_operation self (Write w)) as [id self0] eqn:En.
  destruct (new_operation_wf _ _ _ _ Hwf En) as (Hwf0 & Hin0 & Hfresh).
  destruct (new_operation_spec _ _ _ _ En) as (Hid & _ & Hops0 & _ & _ & Hcmd0 & Hnew).
  unfold WriteOperation_run. rewrite Hnew. cbn [class Operation_init].
  unfold wait. rewrite operation_at_issue, Hnew. cbn [flag Operation_init].
  destruct (block_write_returns w id result rest pre
              (issue self0 (write_characteristic_value (WriteOperation.handle w)
                              (WriteOperation.char_handle w)
                              (WriteOperation.value_bytes w))))
    as (self1 & Hb & Hcmd).
  - by apply issue_wf.
  - done.
  - by rewrite operation_at_issue, Hnew.
  - by rewrite operation_at_issue, Hnew.
  - done.
  - done.
  - subst w. cbn [WriteOperation.handle WriteOperation.char_handle
                   WriteOperation.value_bytes] in *.
    rewrite Hb. eexists. split; [reflexivity|].
    rewrite Hcmd. cbn. by rewrite Hcmd0.
Qed.

Lemma X20_write_returns_at_first_completion_witness :
  exists self',
    write Scenario.discovered Scenario.address "180d" "2a37" [Byte.x01]
      ([WaitTimeout; Deliver (bt_evt_gatt_procedure_completed 2 0)]
         ++ Deliver (bt_evt_gatt_procedure_completed 1 1025)
         :: [Deliver (bt_evt_gatt_procedure_completed 1 0)])
    = (Returned (WriteResponse.mk Scenario.address "180d" "2a37" (Some [Byte.x01]) true),
       self', [Deliver (bt_evt_gatt_procedure_completed 1 0)]).
Proof.
  destruct (X20_write_returns_at_first_completion Scenario.discovered
              Scenario.address "180d" "2a37" [Byte.x01]
              (ConnectionRequest.mk Scenario.address 1 (ServicesOf 1))
              (mkCharacteristic "2a37" 11 ["read"; "notify"]
                 [("2902", mkDescriptor "2902" 12)])
              [WaitTimeout; Deliver (bt_evt_gatt_procedure_completed 2 0)]
              [Deliver (bt_evt_gatt_procedure_completed 1 0)] 1025)
    as (self' & H & _).
  - exact scenario_discovered_wf.
  - vm_compute. reflexivity.
  - vm_compute. reflexivity.
  - repeat constructor.
  - apply Forall_cons. split; [intros result; discriminate|].
    apply Forall_cons. split; [intros result; discriminate | constructor].
  - exists self'. exact H.
Defined.

(** X21: [read] returns at the first read response of its characteristic
    when neither a procedure-completed event of the connection nor a
    characteristic or descriptor discovery event comes before it: the
    response carries the value of that event, the later stimuli are left
    to the next call, and the read operation is still in the dispatch
    list, not done, when [read] returns. *)
Theorem X21_read_returns_first_response
    (self : SilabsAccessPoint) (A S C : string)
    (conn_req : ConnectionRequest.t) (characteristic : Characteristic)
    (pre rest : list Stimulus) (value : bytes) :
  operations_wf self ->
  get_connection (conn_reqs self) A = Some conn_req ->
  lookup_characteristic self conn_req S C = inr characteristic ->
  Forall plain pre ->
  Forall (no_read_response (ConnectionRequest.handle conn_req)
            (char_handle characteristic)) pre ->
  Forall (no_completion (ConnectionRequest.handle conn_req)) pre ->
  exists self',
    read self A S C
      (pre ++ Deliver (bt_evt_gatt_characteristic_value
                         (ConnectionRequest.handle conn_req)
                         (char_handle characteristic) ATT_OPCODE_READ_RESPONSE value)
           :: rest)
    = (Returned
         (ReadResponse.mk (str_of_int (ConnectionRequest.handle conn_req)) "" ""
            (Some value)),
       self', rest) /\
    In (length (heap self)) (operations self') /\
    is_done (operation_at self' (length (heap self))) = false.
Proof.
  intros Hwf Hget Hlook Hpl Hpre Hpre'. unfold read. unfold get_connection in Hget.
  rewrite Hget, Hlook.
  set (r := ReadOperation.mk _ _ _).
  destruct (new_operation self (Read r)) as [id self0] eqn:En.
  destruct (new_operation_wf _ _ _ _ Hwf En) as (Hwf0 & Hin0 & Hfresh).
  destruct (new_operation_spec _ _ _ _ En) as (Hid & _ & Hops0 & _ & _ & Hcmd0 & Hnew).
  rewrite <- Hid. unfold ReadOperation_run. rewrite Hnew. cbn [class Operation_init].
  unfold wait. rewrite operation_at_issue, Hnew. cbn [flag Operation_init].
  destruct (block_read_returns r id value rest pre
              (issue self0 (read_characteristic_value (ReadOperation.handle r)
                              (ReadOperation.char_handle r))))
    as (self1 & Hb & Hcmd & Hat & Hin1).
  - by apply issue_wf.
  - done.
  - by rewrite operation_at_issue, Hnew.
  - by rewrite operation_at_issue, Hnew.
  - done.
  - done.
  - done.
  - subst r. cbn [ReadOperation.handle ReadOperation.char_handle] in *.
    rewrite Hb, Hat. cbn [class with_class set]. rewrite operation_at_issue, Hnew.
    unfold ReadOperation_response. cbn.
    eexists. split; [reflexivity|]. split; [done|].
    by rewrite Hat, operation_at_issue, Hnew.
Qed.

Lemma X21_read_returns_first_response_witness :
  exists self',
    read Scenario.discovered Scenario.address "180d" "2a37"
      ([Deliver (bt_evt_gatt_characteristic_value 1 11 27 [Byte.x07])]
         ++ Deliver (bt_evt_gatt_characteristic_value 1 11 ATT_OPCODE_READ_RESPONSE
                       [Byte.x2a])
         :: [Deliver (bt_evt_gatt_procedure_completed 1 0)])
    = (Returned (ReadResponse.mk "1" "" "" (Some [Byte.x2a])), self',
       [Deliver (bt_evt_gatt_procedure_completed 1 0)]) /\
    In (length (heap Scenario.discovered)) (operations self').
Proof.
  destruct (X21_read_returns_first_response Scenario.discovered
              Scenario.address "180d" "2a37"
              (ConnectionRequest.mk Scenario.address 1 (ServicesOf 1))
              (mkCharacteristic "2a37" 11 ["read"; "notify"]
                 [("2902", mkDescriptor "2902" 12)])
              [Deliver (bt_evt_gatt_characteristic_value 1 11 27 [Byte.x07])]
              [Deliver (bt_evt_gatt_procedure_completed 1 0)] [Byte.x2a])
    as (self' & H & Hin & _).
  - exact scenario_discovered_wf.
  - vm_compute. reflexivity.
  - vm_compute. reflexivity.
  - repeat constructor.
  - apply Forall_cons. split; [intros v; discriminate | constructor].
  - apply Forall_cons. split; [intros v; discriminate | constructor].
  - exists self'. split; [exact H | exact Hin].
Defined.

(** ** A service event after the first phase *)

(** X22: a service event with a new UUID that arrives after the first
    phase of a discovery has completed makes [discover] raise
    [RuntimeError]: the walk of the first service goes on to its end, and
    the next step of the iteration over [self.services] finds the
    dictionary grown. The operation is left in the dispatch list, not
    done, and nothing is cached. *)
Theorem X22_late_service_event_raises
    (self : SilabsAccessPoint) (A : string) (options : BleConnectOptions.t)
    (retries : Z) (conn_req : ConnectionRequest.t)
    (s : ServiceRow) (table : list ServiceRow) (uuid : bytes) (service : Z)
    (rest : list Stimulus) :
  operations_wf self ->
  get_connection (conn_reqs self) A = Some conn_req ->
  Forall (fun j => quiet_for (ConnectionRequest.handle conn_req) (operation_at self j))
    (operations self) ->
  table_wf (s :: table) ->
  ~ In uuid (map sr_uuid (s :: table)) ->
  exists self',
    discover self A options retries
      (map (fun s => Deliver (bt_evt_gatt_service (ConnectionRequest.handle conn_req)
                                (sr_uuid s) (sr_handle s))) (s :: table)
       ++ Deliver (bt_evt_gatt_procedure_completed (ConnectionRequest.handle conn_req) 0)
       :: Deliver (bt_evt_gatt_service (ConnectionRequest.handle conn_req) uuid service)
       :: characteristic_events (ConnectionRequest.handle conn_req) s ++ rest)
    = (Raised dict_changed, self', rest) /\
    commands self' =
      commands self ++
        discover_primary_services (ConnectionRequest.handle conn_req)
        :: discover_characteristics (ConnectionRequest.handle conn_req) (sr_handle s)
        :: map (fun c => discover_descriptors (ConnectionRequest.handle conn_req)
                           (cr_handle c))
             (sr_characteristics s) /\
    In (length (heap self)) (operations self') /\
    is_done (operation_at self' (length (heap self))) = false /\
    conn_reqs self' = conn_reqs self.
Proof.
  intros Hwf Hget Hquiet [Hnd Hrows] Hnew_uuid. unfold get_connection in Hget.
  unfold discover. rewrite Hget.
  set (h := ConnectionRequest.handle conn_req) in *.
  set (d0 := DiscoverOperation.init h retries _).
  destruct (new_operation self (Discover d0)) as [id self0] eqn:En.
  destruct (new_operation_wf _ _ _ _ Hwf En) as (Hwf0 & Hin0 & Hfresh).
  destruct (new_operation_spec _ _ _ _ En)
    as (Hid & Hreg0 & Hops0 & Hheap0 & _ & Hcmd0 & Hnew).
  rewrite <- Hid. unfold DiscoverOperation_run, discover_at. rewrite Hnew.
  cbn [class Operation_init DiscoverOperation.handle d0 DiscoverOperation.init].
  set (self0' := issue self0 (discover_primary_services h)).
  assert (Hw0 : walking h id (conn_reqs self) self0' d0
                  (commands self ++ [discover_primary_services h])).
  { unfold self0'. split.
    - by apply issue_wf.
    - done.
    - cbn. rewrite Hops0. apply Forall_app. split.
      + rewrite Forall_forall in Hquiet. apply Forall_forall. intros j Hj. right.
        rewrite operation_at_issue.
        assert (E : operation_at self0 j = operation_at self j).
        { unfold operation_at. rewrite Hheap0. rewrite lookup_app_l; [done|].
          destruct Hwf as [_ Hb]. rewrite Forall_forall in Hb. by apply Hb. }
        rewrite E. by apply Hquiet.
      + apply Forall_cons. split; [by left | constructor].
    - by rewrite operation_at_issue, Hnew.
    - done.
    - by rewrite operation_at_issue, Hnew.
    - by rewrite operation_at_issue, Hnew.
    - cbn. by rewrite Hcmd0.
    - done. }
  remember (s :: table) as T eqn:HT.
  destruct (walk_primary h id (conn_reqs self) AwaitServices
              (Deliver (bt_evt_gatt_procedure_completed h 0)
                 :: Deliver (bt_evt_gatt_service h uuid service)
                 :: characteristic_events h s ++ rest)
              T [] self0' d0 _ Hw0)
    as (self1 & d1 & -> & Hw1 & Hs1 & Ho1 & Hc1); [done..|].
  cbn [app] in Hs1, Ho1.
  destruct (drive_wake h id (conn_reqs self) self1 d1 _ AwaitServices
              (Deliver (bt_evt_gatt_service h uuid service)
                 :: characteristic_events h s ++ rest) Hw1)
    as (self2 & -> & Hw2).
  rewrite (resume_completed h id (conn_reqs self) self2 d1 _ _ Hw2).
  rewrite Hs1. unfold svc_refs at 1. rewrite length_imap.
  destruct (next_service_some h id (conn_reqs self) self2
              (DiscoverOperation.set_result d1 0) _ 0%nat (length T)
              (uuid_str (sr_uuid s)) 0%nat (so_with 0 s []) Hw2)
    as (self3 & -> & Hw3).
  { cbn. rewrite Hs1. unfold svc_refs. by rewrite length_imap. }
  { cbn. by rewrite Hs1, HT. }
  { cbn. by rewrite Ho1, HT. }
  cbn [continue so_service_handle so_with].
  set (late := mkServiceRow uuid service []).
  assert (Hnd' : NoDup (map sr_uuid (T ++ [late]))).
  { rewrite map_app. apply NoDup_app. split; [done|]. split; [|apply NoDup_singleton].
    intros x Hx Hx'. apply list_elem_of_singleton in Hx' as ->.
    by apply Hnew_uuid, list_elem_of_In. }
  set (d3 := DiscoverOperation.set_current_service
               (DiscoverOperation.set_result d1 0) 0) in *.
  set (d4 := DiscoverOperation.set_services d3
               (svc_refs (T ++ [late])) (objs_empty (T ++ [late]))).
  destruct (drive_quiet h id (conn_reqs self) self3 d3 _
              (bt_evt_gatt_service h uuid service) d4
              (AwaitCharacteristics 0 (length T) 0)
              (characteristic_events h s ++ rest) Hw3)
    as (self4 & -> & Hw4).
  { done. }
  { pose proof (walking_handle _ _ _ _ _ _ Hw3) as Hh3. cbn in Hh3.
    intros op. cbn. rewrite Hh3, Z.eqb_refl.
    do 3 f_equal. unfold d4. cbn. rewrite Hs1, Ho1. f_equal.
    - rewrite dict_set_fresh.
      + unfold objs_empty. by rewrite svc_refs_snoc, length_map.
      + rewrite svc_refs_keys. apply (fresh_id sr_uuid T late).
        by apply NoDup_snoc_prefix in Hnd' as [Hnd' _].
    - unfold objs_empty. by rewrite map_app. }
  { cbn. apply Hw3. }
  unfold characteristic_events. rewrite <- app_assoc. cbn [app].
  destruct (walk_characteristics h id (conn_reqs self)
              (AwaitCharacteristics 0 (length T) 0)
              (Deliver (bt_evt_gatt_procedure_completed h 0)
                 :: flat_map (descriptor_events h) (sr_characteristics s) ++ rest)
              s 0%nat 0%nat [] (objs_empty (table ++ [late])) []
              (sr_characteristics s) [] self4 d4 _ Hw4)
    as (self5 & d5 & -> & Hw5 & Hcur5 & Hs5 & Ho5 & Hc5).
  { done. }
  { cbn. by rewrite HT. }
  { done. }
  { cbn. by rewrite Hc1. }
  { done. }
  { rewrite HT in Hrows. apply Forall_cons in Hrows as [[Hndc _] _]. done. }
  cbn [app] in Ho5, Hc5.
  destruct (drive_wake h id (conn_reqs self) self5 d5 _
              (AwaitCharacteristics 0 (length T) 0)
              (flat_map (descriptor_events h) (sr_characteristics s) ++ rest) Hw5)
    as (self6 & -> & Hw6).
  rewrite (resume_completed h id (conn_reqs self) self6 d5 _ _ Hw6).
  rewrite Ho5. cbn [lookup list_lookup].
  unfold so_with at 1, char_refs at 1. cbn [so_characteristics].
  rewrite length_imap.
  destruct (characteristics_loop h id (conn_reqs self) (length T) 0%nat 0%nat s []
              (objs_empty (table ++ [late])) [] rest
              (sr_characteristics s) [] self6
              (DiscoverOperation.set_result d5 0) _ Hw6)
    as (self7 & d7 & E & Hw7 & Hs7 & Ho7 & Hc7).
  { cbn. by rewrite Ho5. }
  { done. }
  { cbn. by rewrite Hc5. }
  { done. }
  { rewrite HT in Hrows. apply Forall_cons in Hrows as [[_ Hndd] _]. done. }
  cbn [app length] in E. rewrite E. clear E.
  cbn in Hs7. rewrite Hs5 in Hs7. cbn in Hs7.
  unfold next_service. rewrite (walking_discover_at _ _ _ _ _ _ Hw7), Hs7.
  unfold svc_refs at 1. rewrite length_imap, length_app. cbn [length].
  rewrite (proj2 (Nat.eqb_neq _ _)) by lia. cbn [negb continue].
  exists self7. split; [done|]. split; [|split; [apply Hw7|split; apply Hw7]].
  rewrite (walking_commands _ _ _ _ _ _ Hw7). cbn [so_service_handle so_with].
  by rewrite <- !app_assoc.
Qed.

Lemma X22_late_service_event_raises_witness :
  exists self',
    discover Scenario.connected Scenario.address BleConnectOptions.default 3
      ([Deliver (bt_evt_gatt_service 1 Scenario.uuid_180d 10);
        Deliver (bt_evt_gatt_procedure_completed 1 0);
        Deliver (bt_evt_gatt_service 1 Scenario.uuid_180f 20);
        Deliver (bt_evt_gatt_characteristic 1 Scenario.uuid_2a37 11 0x12);
        Deliver (bt_evt_gatt_procedure_completed 1 0);
        Deliver (bt_evt_gatt_descriptor 1 Scenario.uuid_2902 12);
        Deliver (bt_evt_gatt_procedure_completed 1 0)])
    = (Raised dict_changed, self', []) /\
    In (length (heap Scenario.connected)) (operations self').
Proof.
  destruct (X22_late_service_event_raises Scenario.connected Scenario.address
              BleConnectOptions.default 3
              (ConnectionRequest.mk Scenario.address 1 EmptyDict)
              (mkServiceRow Scenario.uuid_180d 10
                 [mkCharacteristicRow Scenario.uuid_2a37 11 0x12
                    [mkDescriptorRow Scenario.uuid_2902 12]])
              [] Scenario.uuid_180f 20 [])
    as (self' & H1 & _ & H2 & _).
  - exact scenario_connected_wf.
  - vm_compute. reflexivity.
  - apply Forall_cons. split; [vm_compute; exact I | constructor].
  - split.
    + apply NoDup_singleton.
    + apply Forall_cons. split; [|constructor].
      split; [apply NoDup_singleton|].
      apply Forall_cons. split; [apply NoDup_singleton | constructor].
  - intros [H|[]]. vm_compute in H. discriminate H.
  - exists self'. split; [exact H1 | exact H2].
Defined.

(** ** Success of a write *)

(** C7: the radio-chip [write] reports [success=true] at the first
    procedure-completed event of its connection, whatever procedure that
    event ends and whatever its result. It does so when the event carries
    the result 0x0403 of a failed procedure; and after a [read] that
    returned at its value event, it does so on the completion of that
    read, leaving the event that ends the write procedure itself, here a
    failure, unhandled. A write that returns never reports
    [success=false]. *)
Theorem C7_write_success_unchecked :
  (exists self',
     write Scenario.discovered Scenario.address "180d" "2a37" [Byte.x01]
       [Deliver (bt_evt_gatt_procedure_completed 1 0x0403)]
     = (Returned
          (WriteResponse.mk Scenario.address "180d" "2a37" (Some [Byte.x01]) true),
        self', [])) /\
  (exists response self1 self2,
     read Scenario.discovered Scenario.address "180d" "2a37"
       [Deliver (bt_evt_gatt_characteristic_value 1 11 ATT_OPCODE_READ_RESPONSE
                   [Byte.x2a]);
        Deliver (bt_evt_gatt_procedure_completed 1 0);
        Deliver (bt_evt_gatt_procedure_completed 1 0x0403)]
     = (Returned response, self1,
        [Deliver (bt_evt_gatt_procedure_completed 1 0);
         Deliver (bt_evt_gatt_procedure_completed 1 0x0403)]) /\
     write self1 Scenario.address "180d" "2a37" [Byte.x01]
       [Deliver (bt_evt_gatt_procedure_completed 1 0);
        Deliver (bt_evt_gatt_procedure_completed 1 0x0403)]
     = (Returned
          (WriteResponse.mk Scenario.address "180d" "2a37" (Some [Byte.x01]) true),
        self2, [Deliver (bt_evt_gatt_procedure_completed 1 0x0403)]) /\
     commands self2 =
       commands Scenario.discovered ++
         [read_characteristic_value 1 11;
          write_characteristic_value 1 11 [Byte.x01]]) /\
  (forall result,
   exists self',
     write Scenario.discovered Scenario.address "180d" "2a37" [Byte.x01]
       [Deliver (bt_evt_gatt_procedure_completed 1 result)]
     = (Returned
          (WriteResponse.mk Scenario.address "180d" "2a37" (Some [Byte.x01]) true),
        self', [])).
Proof.
  split; [|split].
  - eexists. vm_compute. reflexivity.
  - eexists _, _, _. split; [vm_compute; reflexivity|].
    split; vm_compute; reflexivity.
  - intros result. unfold write.
    assert (Eg : dict_get (conn_reqs Scenario.discovered) Scenario.address
                 = Some (ConnectionRequest.mk Scenario.address 1 (ServicesOf 1)))
      by (vm_compute; reflexivity).
    assert (El : lookup_characteristic Scenario.discovered
                   (ConnectionRequest.mk Scenario.address 1 (ServicesOf 1))
                   "180d" "2a37"
                 = inr (mkCharacteristic "2a37" 11 ["read"; "notify"]
                          [("2902", mkDescriptor "2902" 12)]))
      by (vm_compute; reflexivity).
    rewrite Eg, El. cbn [ConnectionRequest.handle char_handle].
    set (w := WriteOperation.mk 1 11 [Byte.x01]).
    destruct (new_operation Scenario.discovered (Write w)) as [id self0] eqn:En.
    destruct (new_operation_wf _ _ _ _ scenario_discovered_wf En)
      as (Hwf0 & Hin0 & _).
    destruct (new_operation_spec _ _ _ _ En) as (_ & _ & _ & _ & _ & _ & Hnew).
    unfold WriteOperation_run. rewrite Hnew. cbn [class Operation_init].
    unfold wait. rewrite operation_at_issue, Hnew. cbn [flag Operation_init].
    destruct (block_write_returns w id result [] []
                (issue self0 (write_characteristic_value (WriteOperation.handle w)
                                (WriteOperation.char_handle w)
                                (WriteOperation.value_bytes w))))
      as (self1 & Hb & _).
    + by apply issue_wf.
    + done.
    + by rewrite operation_at_issue, Hnew.
    + by rewrite operation_at_issue, Hnew.
    + constructor.
    + constructor.
    + cbn [app] in Hb.
      change (WriteOperation.handle w) with 1 in *.
      change (WriteOperation.char_handle w) with 11 in *.
      change (WriteOperation.value_bytes w) with [Byte.x01] in *.
      rewrite Hb. by eexists.
Qed.

(** ** Teardown, by the caller and by the backend *)






